(* ===== verification/_CoqProject ===== *)
-Q . S2P
Prelude.v
Validate.v
Signal.v
Registry.v
Mutex.v
Abstract.v
Command.v
Threads.v
Races.v
Sockets.v
Shutdown.v
Sigterm.v
Text.v
Output.v
Terminal.v
Addresses.v
Main.v
