(* ===== verification/Prelude.v ===== *)
(** * A verification library for P2P_Chat (quochuy82/P2P_Chat)

    P2P_Chat is a peer-to-peer chat endpoint written in C.  One process
    listens for TCP connections and dials out to other peers; every live
    connection is kept in one shared table, [connections[MAX_CONNECTIONS]]
    of [src/connection.c], guarded by one mutex, [connections_mutex].
    Three kinds of threads touch the table:
    - the accept thread ([accept_connections_thread], src/connection.c)
      inserts the connections it accepts with [add_connection];
    - one receiver thread per connection ([handle_peer_messages_thread])
      reads from its socket and retires the connection with
      [remove_connection] when the peer closes or the read fails;
    - the foreground command thread ([process_command] and the [cmd_*]
      handlers of src/command.c) inserts outgoing connections
      ([cmd_connect]), retires them ([cmd_terminate]), writes to them
      ([cmd_send]), lists them ([cmd_list]) and closes all of them
      ([cmd_exit]).
    The socket primitives of src/socket.c and the string helpers of
    src/signal.c are leaves called by these components.

    ** Files, in dependency order
    - [Prelude] (this file): the constants of src/common.h, C [int]
      bounds, the scope [p2p_scope], the tactics and the hint database
      [p2p], and the generic lemmas on lists that the components share
      (uniqueness of a key over the slots of an array updated in place).
    - [Validate]: [is_valid_port] and [is_valid_ip] of src/socket.c; the
      IPv4 literal check is the AF_INET case of the C library's
      [inet_pton], which is not code of this repository and is modelled
      from its documented behaviour, as are [inet_ntop] and the byte
      swaps [ntohs]/[htons] (written with [Z.land], [Z.shiftl],
      [Z.shiftr] and [Z.lor]).  Theorem: [inet_ntop] then [inet_pton]
      gives back the address.
    - [Signal]: [signal_handler] and [setup_signal_handlers] of
      src/signal.c, the table of signal dispositions and the kernel's
      delivery of a signal.  Theorem: after [setup_signal_handlers] the
      four signals the program names no longer end it, only [SIGTERM]
      clears [running], and [SIGPIPE] is ignored.
    - [Registry]: the connection table of src/connection.c.  Its state
      is the record [Registry.state]: the array [connections] as a list
      of [Connection] records of length [MAX_CONNECTIONS] and the global
      counter [next_connection_id] of src/main.c.  Each function of
      connection.c that runs under [connections_mutex] is one pure
      function from state to state and result, together with the socket
      calls it makes ([shutdown], [close]) and the threads it starts,
      returned as a list of [effect]s; [run] runs a sequence of them.
      Theorems: the invariant [wf] (slots keep their number, live ids
      are positive, below the counter and pairwise distinct) and its
      preservation by every operation, the behaviour of [add_connection]
      and [remove_connection] on every branch (idempotence of removal
      included), capacity, ids strictly increasing, the counter within
      C [int] range for fewer than [INT_MAX] insertions, and the order of
      [print_connection_list].
    - [Mutex]: [connections_mutex] at the level of single stores.  The
      body of each critical section is the list of stores of
      src/connection.c in program order; a locked machine ([fstep])
      interleaves threads that take the mutex, store one field at a
      time and release it, with reads done without the mutex.
      Theorems: the stores compute the atomic step of [Registry]; at
      most one thread is inside a critical section; the table at every
      point where the mutex is free is the table of the atomic sequence
      in lock order; and the unlocked reads the C code makes ([id],
      [socket]) see the value before or after the running critical
      section.  This is what justifies the atomic steps of [Threads].
    - [Abstract]: the registry that the specification promises, a
      finite map from id to endpoint with a fresh-id counter and a
      capacity, and the refinement theorem: the table, read through the
      abstraction function [Abstract.abs], implements it, lookups
      included.
    - [Command]: the command handlers of src/command.c as sequential
      compositions of the registry operations, with the answers of the
      operating system ([socket], [setsockopt], [connect] in
      [create_socket] and [connect_to_peer] of src/socket.c, [send])
      passed as arguments.  Theorems: the behaviour of [cmd_connect],
      [cmd_terminate], [cmd_send] and [cmd_exit] on every branch, the
      failure paths of a dial included.
    - [Threads]: the threads as an executable step function
      [Threads.exec] on configurations (the table, [running], the status
      of every socket, the program counter of every thread, the trace of
      observable events).  A step is one critical section (atomic, as
      [connections_mutex] makes it, see [Mutex]), one blocking call
      ([accept], [recv], [connect], [send], [fgets], [pthread_join])
      with the operating system's answer in the label, one test of
      [running], one unlocked read of the table, or the delivery of a
      signal ([signal_step]).  The command thread runs [main]'s loop:
      the test of [running], [fgets], the handler, and after the loop
      [pthread_join] and the return of [main].  [reachable] is the
      closure from start-up.  Theorem: every reachable table is the
      table of a sequence of registry operations run one after another
      (serialisation), hence [wf] and capacity hold in every
      interleaving.
    - [Races]: four concrete schedules, evaluated by [vm_compute], in
      which an interleaving breaks the specification (a [send] reaching
      a reused slot, two receivers on one socket, [cmd_connect]
      reporting another peer's id, two live links to one endpoint).
    - [Sockets]: the socket invariant of every reachable configuration:
      live slots hold open, distinct sockets, and no socket is closed
      twice.
    - [Shutdown]: once [running] is cleared (by [cmd_exit] or by
      [SIGTERM]), every schedule of the threads has at most
      [Shutdown.measure] thread actions, some schedule always brings
      every thread out of its loop, and a peer accepted after [cmd_exit]
      is left live with an open socket.
    - [Sigterm]: the shutdown by [SIGTERM]: nothing is closed, a peer
      accepted after the signal is inserted, and [main] returns only
      once [fgets] and [accept] have returned.
    - [Text]: C strings as [list ascii]; [trim_string],
      [is_empty_string], [str_to_lower] and [str_to_upper] of
      src/signal.c, and [process_command] of src/command.c (trim, the
      [sscanf] split into three fields, the [strcmp] dispatch, [atoi] of
      the numbers) returning the handler call it makes.  Theorems:
      [trim_string] equals a declarative reference, a [send] line
      parses back to its id and message, the fields fit their buffers,
      and [atoi] passes the low 32 bits of a port to [cmd_connect].
    - [Output]: the text the program prints: the colour codes, the
      banner, the start-up information, the prompt, the message
      printers and the terminal title of src/signal.c, the lines of
      [signal_handler], and [cmd_help], [cmd_myip], [cmd_myport] of
      src/command.c.  Lemma: the port [cmd_myport] prints is read back
      by [atoi].
    - [Terminal]: the helpers of src/signal.c the program never calls:
      [clear_screen]; [get_current_time_str] and [print_timestamp]
      ([localtime] at a fixed offset from UTC, [strftime]'s size
      check); [kbhit] with its [tcgetattr]/[tcsetattr] and [fcntl]
      calls on an explicit state of standard input (terminal settings,
      file status flags, stdio buffer, driver buffer, indicators) and
      glibc's [getchar] and [ungetc].  Theorems: [kbhit] never blocks,
      restores the settings and flags, loses no input and answers
      whether a byte is ready; the mode it sets clears exactly [ICANON]
      and [ECHO]; the time string reads back as the time of day.
    - [Addresses]: the accept thread's [inet_ntop]/[ntohs] of the
      peer's [sockaddr_in] and the typing invariant of the table in
      every interleaving: each slot holds an [int] id (while the counter
      has not overflowed), a descriptor, an address that fits the
      16-byte [ip] field and a 16-bit port.
    - [Main]: [main] of src/main.c up to its command loop
      ([get_local_ip], [setup_listening_socket], the accept thread) as
      a function of the operating system's answers, and the
      [fgets]/[process_command] loop.  Theorems: the success and
      failure paths of start-up, the self-connection check on a host
      with only a loopback interface, the loop at end of input, and how
      [fgets] cuts lines.

    ** Bounds and fuel
    Two definitions take a bound.  [Text.dec_string] (the decimal
    notation of a number, used to state round trips) has 20 digits of
    fuel, enough for any [long].  [Main.main_loop] runs a given number
    of iterations of [while (running)], because the C loop is not
    bounded; it reports whether [running] was found cleared.  Every
    other loop of the C code is a structural recursion over the slot
    array or the input string, or is unfolded into the steps of
    [Threads.exec], whose schedules are finite lists of labels.  The
    one termination argument is [Shutdown.measure] (at most 3 per
    receiver, 8 for the accept thread and 14 for the command thread;
    signals are not counted, as a signal changes no program counter).
    The concrete schedules of [Races], [Shutdown], [Sigterm] and [Mutex]
    use two or three peers or threads; the theorems of
    [Threads], [Sockets] and [Shutdown] hold for all schedules and any
    number of connections up to [MAX_CONNECTIONS].

    ** Modelling choices
    - C [int] values are [Z].  [next_connection_id++] is signed
      arithmetic: it is undefined past [INT_MAX], so the counter is kept
      as an unbounded [Z] and the bound [next_connection_id <= INT_MAX]
      is a theorem about the number of insertions.
    - A pointer into [connections] ([get_connection_by_id]) is the slot
      index.  A [SOCKET] is an integer descriptor.
    - Output to the terminal is a string ([Output]) or, inside the
      handlers and threads, a list of lines ([reply], [line],
      [sig_line]) or an event of the trace.
    - Signals: glibc's [signal] installs handlers with [SA_RESTART], so
      a handler does not interrupt [fgets], [accept] or [recv]; a signal
      is one step of [Threads] that runs the handler.  The signal numbers
      and default actions are those of Linux.
    - C library functions the code calls ([inet_pton], [isspace],
      [tolower], [toupper], [sscanf], [atoi], [fgets]) are modelled
      from the C standard and the GNU C library, and marked so in the
      manifest.
    - The clock: [localtime] is taken at a fixed offset [gmtoff] from
      UTC, in POSIX time (no leap seconds); its failure for years
      beyond [INT_MAX] (around [2 ^ 55] seconds) cannot happen for the
      current time and is not modelled.
    - Not modelled: the Windows branches of src/socket.c and
      src/signal.c ([initialize_sockets] and [cleanup_sockets] do
      nothing elsewhere); the prototypes of the headers, whose
      definitions are modelled where they are written. *)

From Stdlib Require Export ZArith Lia.
From stdpp Require Export base list strings sorting gmap.

Open Scope Z_scope.

(** ** Constants of src/common.h *)

Definition BUFFER_SIZE : Z := 1024.
Definition MAX_MESSAGE_LENGTH : Z := 100.
Definition MAX_CONNECTIONS : nat := 50.
Definition BACKLOG : Z := 10.
Definition MAX_COMMAND_LENGTH : Z := 256.
Definition INET_ADDRSTRLEN : Z := 16.
Definition INVALID_SOCKET : Z := -1.

(** Range of a 32-bit C [int]. *)
Definition INT_MAX : Z := 2 ^ 31 - 1.
Definition INT_MIN : Z := - 2 ^ 31.
Definition int_range (z : Z) : Prop := INT_MIN <= z <= INT_MAX.

(** ** Notation *)

Declare Scope p2p_scope.
Delimit Scope p2p_scope with p2p.
(** C's [==] and [!=] on [int], as booleans. *)
Notation "x == y" := (Z.eqb x y) (at level 70, no associativity) : p2p_scope.
Notation "x != y" := (negb (Z.eqb x y)) (at level 70, no associativity) : p2p_scope.

(** ** Automation *)

Create HintDb p2p.

Ltac invc H := inversion H; subst; clear H.

(** Case on the first [list_find] of the goal, keeping its equation. *)
Ltac case_find :=
  match goal with
  | |- context [list_find ?P ?l] =>
      let E := fresh "Hfind" in
      destruct (list_find P l) as [[? ?]|] eqn:E
  end.

(** [lia] after naming the quotients and remainders of [/] and [mod]. *)
Ltac zlia := Z.to_euclidean_division_equations; lia.

(** Decide the C comparisons [<], [==] of the goal that [zlia] settles
    from the context. *)
Ltac zcmp :=
  repeat match goal with
  | |- context [Z.ltb ?a ?b] =>
      first [rewrite (proj2 (Z.ltb_lt a b)) by zlia | rewrite (proj2 (Z.ltb_ge a b)) by zlia]
  | |- context [Z.eqb ?a ?b] =>
      first [rewrite (proj2 (Z.eqb_eq a b)) by zlia | rewrite (proj2 (Z.eqb_neq a b)) by zlia]
  end.

(** ** Keys unique over the slots of an array *)

(** [unique_on P f l]: two slots of [l] whose entries satisfy [P] and
    have the same key [f] are the same slot.  For the connection table,
    [P] is "the slot is active" and [f] the connection id. *)
Definition unique_on {A B} (P : A -> Prop) (f : A -> B) (l : list A) : Prop :=
  forall i j x y, l !! i = Some x -> l !! j = Some y ->
    P x -> P y -> f x = f y -> i = j.

Section unique_on.
Context {A B : Type} (P : A -> Prop) (f : A -> B).
Implicit Types (l : list A) (x : A).

Lemma unique_on_nil : unique_on P f [].
Proof. intros i j x y Hi. by rewrite lookup_nil in Hi. Qed.

(** Overwriting a slot with an entry outside [P] keeps keys unique. *)
Lemma unique_on_insert_out l i x :
  unique_on P f l -> ~ P x -> unique_on P f (<[i:=x]> l).
Proof.
  intros Hu Hx j k y z Hj Hk Hy Hz Heq.
  apply list_lookup_insert_Some in Hj as [[-> [-> _]]|[_ Hj]]; [done|].
  apply list_lookup_insert_Some in Hk as [[-> [-> _]]|[_ Hk]]; [done|].
  eauto.
Qed.

(** Overwriting a slot with an entry in [P] whose key no other entry in
    [P] carries keeps keys unique. *)
Lemma unique_on_insert_fresh l i x :
  unique_on P f l ->
  (forall j y, l !! j = Some y -> P y -> f y <> f x) ->
  unique_on P f (<[i:=x]> l).
Proof.
  intros Hu Hfresh j k y z Hj Hk Hy Hz Heq.
  apply list_lookup_insert_Some in Hj as [[-> [-> _]]|[Hij Hj]];
  apply list_lookup_insert_Some in Hk as [[-> [-> _]]|[Hik Hk]];
    [done| |exfalso; by eapply (Hfresh j y)|eauto].
  exfalso. by eapply (Hfresh k z).
Qed.

Lemma unique_on_map_out (g : A -> A) l :
  (forall x, ~ P (g x)) -> unique_on P f (map g l).
Proof.
  intros Hg i j x y Hi _ Hx. apply list_lookup_fmap_Some in Hi as (? & -> & _).
  by destruct (Hg _ Hx).
Qed.

(** Distinct keys among the entries in [P] give [unique_on]. *)
Lemma unique_on_NoDup `{forall x, Decision (P x)} l :
  NoDup (f <$> filter P l) -> unique_on P f l.
Proof.
  induction l as [|z l IH]; intros Hnd i j x y Hi Hj Hx Hy Heq; [done|].
  rewrite filter_cons in Hnd.
  destruct i as [|i], j as [|j]; simpl in Hi, Hj; simplify_eq; [done|..].
  - rewrite decide_True in Hnd by done. apply NoDup_cons in Hnd as [Hn _].
    destruct Hn. rewrite Heq. apply list_elem_of_fmap_2, list_elem_of_filter.
    split; [done|]. by eapply list_elem_of_lookup_2.
  - rewrite decide_True in Hnd by done. apply NoDup_cons in Hnd as [Hn _].
    destruct Hn. rewrite <- Heq. apply list_elem_of_fmap_2, list_elem_of_filter.
    split; [done|]. by eapply list_elem_of_lookup_2.
  - f_equal. eapply IH; [|eassumption..].
    case_decide; [|done]. by apply NoDup_cons in Hnd as [_ ?].
Qed.

Lemma unique_on_cons_inv `{forall x, Decision (P x)} z l :
  unique_on P f (z :: l) -> unique_on P f l.
Proof. intros Hu i j x y Hi Hj Hx Hy Heq. by injection (Hu (S i) (S j) x y Hi Hj Hx Hy Heq). Qed.

(** The converse: [unique_on] makes the keys in [P] distinct. *)
Lemma NoDup_unique_on `{forall x, Decision (P x)} l :
  unique_on P f l -> NoDup (f <$> filter P l).
Proof.
  induction l as [|z l IH]; intros Hu; [constructor|].
  rewrite filter_cons. pose proof (IH (unique_on_cons_inv z l Hu)) as Hl.
  case_decide as Hz; [|done]. simpl. constructor; [|done].
  intros (y & Hfy & Hy)%list_elem_of_fmap. apply list_elem_of_filter in Hy as [Py Hy].
  apply list_elem_of_lookup in Hy as [j Hj].
  by discriminate (Hu 0%nat (S j) z y eq_refl Hj Hz Py Hfy).
Qed.
End unique_on.

#[export] Hint Resolve unique_on_nil unique_on_insert_out : p2p.

(** A slot found by [list_find] can be read back. *)
Lemma list_find_lookup {A} (P : A -> Prop) `{forall x, Decision (P x)} l i x :
  list_find P l = Some (i, x) -> l !! i = Some x /\ P x.
Proof. intros (? & ? & _)%list_find_Some. done. Qed.
