(* ===== verification/Validate.v ===== *)
(** * Address and port validation (src/socket.c)

    [is_valid_port] is the range test of src/socket.c.  [is_valid_ip]
    calls the C library's [inet_pton(AF_INET, ip, ...)] and accepts when
    it returns 1.  [inet_pton] is not code of this repository: its
    AF_INET case is modelled from its documented behaviour (the
    dotted-quad reader of the GNU C library, [inet_pton4]): four decimal
    octets separated by single dots, each at most 255, no leading zero,
    nothing else.  The main theorem bounds the length of every accepted
    literal by 15, which makes the [strcpy] of the literal into the
    16-byte field [Connection.ip] ([add_connection]) safe.

    The conversions the accept thread applies to a peer's address,
    [inet_ntop] of its four bytes and [ntohs] of its port, are also C
    library functions and are modelled here the same way ([inet_ntop4],
    and [bswap16] on [Z] with [Z.land], [Z.shiftl] and [Z.shiftr] for a
    little-endian host); [inet_pton] reads back what [inet_ntop]
    prints. *)

From S2P Require Import Prelude.
From Stdlib Require Import Ascii String.

Module Validate.

(** [port > 0 && port <= 65535]. *)
Definition is_valid_port (port : Z) : bool := (0 <? port) && (port <=? 65535).

Definition is_digit (ch : ascii) : bool :=
  let n := Ascii.nat_of_ascii ch in (48 <=? n)%nat && (n <=? 57)%nat.

Definition digit_value (ch : ascii) : Z := Z.of_nat (Ascii.nat_of_ascii ch) - 48.

(** The loop of [inet_pton4]: [saw_digit], [octets], the octets already
    finished and the octet being read ([*tp]).  On success the four
    bytes. *)
Fixpoint inet_pton4_loop (s : string) (saw_digit : bool) (octets : Z)
    (done : list Z) (cur : Z) : option (list Z) :=
  match s with
  | EmptyString => if octets <? 4 then None else Some (done ++ [cur])
  | String ch rest =>
      if is_digit ch then
        let new := cur * 10 + digit_value ch in
        if saw_digit && (cur =? 0) then None
        else if 255 <? new then None
        else if saw_digit then inet_pton4_loop rest true octets done new
        else if 4 <? octets + 1 then None
        else inet_pton4_loop rest true (octets + 1) done new
      else if Ascii.eqb ch "." && saw_digit then
        if octets =? 4 then None
        else inet_pton4_loop rest false octets (done ++ [cur]) 0
      else None
  end.

Definition inet_pton4 (s : string) : option (list Z) := inet_pton4_loop s false 0 [] 0.

(** [inet_pton(AF_INET, ip, &sa.sin_addr) == 1]. *)
Definition is_valid_ip (ip : string) : bool :=
  match inet_pton4 ip with Some _ => true | None => false end.

(** ** Printing addresses and ports *)

(** A decimal digit. *)
Definition dchar (v : Z) : ascii := Ascii.ascii_of_nat (48 + Z.to_nat v).

(** [%u] of an octet. *)
Definition u8_string (n : Z) : string :=
  if n <? 10 then String (dchar n) EmptyString
  else if n <? 100 then String (dchar (n / 10)) (String (dchar (n mod 10)) EmptyString)
  else String (dchar (n / 100)) (String (dchar ((n / 10) mod 10)) (String (dchar (n mod 10)) EmptyString)).

(** The AF_INET case of [inet_ntop]: [sprintf("%u.%u.%u.%u")] of the
    four bytes of [sin_addr], in memory order. *)
Definition inet_ntop4 (o : list Z) : string :=
  match o with
  | [a; b; c; d] =>
      (u8_string a ++ String "." (u8_string b ++ String "." (u8_string c ++ String "." (u8_string d))))%string
  | _ => EmptyString
  end.

(** [ntohs] and [htons] on a little-endian host: the two bytes of a
    16-bit value swapped. *)
Definition bswap16 (x : Z) : Z :=
  Z.lor (Z.shiftl (Z.land x 255) 8) (Z.land (Z.shiftr x 8) 255).

Definition ntohs (x : Z) : Z := bswap16 x.
Definition htons (x : Z) : Z := bswap16 x.

(** ** Length of accepted literals *)

(** Number of decimal digits of an octet. *)
Definition dlen (n : Z) : Z := if n <? 10 then 1 else if n <? 100 then 2 else 3.

(** How many more characters the loop can still accept from a state. *)
Definition budget (saw_digit : bool) (octets cur : Z) : Z :=
  if saw_digit then (3 - dlen cur) + 4 * (4 - octets) else 3 + 4 * (3 - octets).

Definition loop_inv (saw_digit : bool) (octets cur : Z) : Prop :=
  0 <= cur <= 255 /\ 0 <= octets <= 4 /\
  (if saw_digit then 1 <= octets else cur = 0 /\ octets <= 3).

Lemma digit_value_range ch : is_digit ch = true -> 0 <= digit_value ch <= 9.
Proof.
  unfold is_digit, digit_value. intros H. apply andb_true_iff in H as [H1 H2].
  apply Nat.leb_le in H1, H2. lia.
Qed.

Lemma loop_budget s : forall saw octets done cur r,
  loop_inv saw octets cur -> inet_pton4_loop s saw octets done cur = Some r ->
  Z.of_nat (String.length s) <= budget saw octets cur.
Proof.
  induction s as [|ch rest IH]; intros saw octets done cur r Hinv Hrun;
    unfold loop_inv, budget, dlen in *; simpl in Hrun |- *.
  - destruct saw; repeat case_match; lia.
  - destruct (is_digit ch) eqn:Hd.
    + pose proof (digit_value_range ch Hd) as Hdv.
      destruct saw; simpl in Hrun.
      * destruct (cur =? 0) eqn:Hc0; [done|]. destruct (255 <? _) eqn:Hnew; [done|].
        apply IH in Hrun; unfold loop_inv, budget, dlen in *;
          repeat case_match; apply Z.eqb_neq in Hc0; apply Z.ltb_ge in Hnew; lia.
      * destruct (255 <? _) eqn:Hnew; [done|]. destruct (4 <? _) eqn:Ho; [done|].
        apply IH in Hrun; unfold loop_inv, budget, dlen in *;
          repeat case_match; apply Z.ltb_ge in Hnew, Ho; lia.
    + destruct (Ascii.eqb ch "." && saw) eqn:Hdot; [|done].
      apply andb_true_iff in Hdot as [_ ->].
      destruct (octets =? 4) eqn:Ho; [done|]. apply Z.eqb_neq in Ho.
      apply IH in Hrun; unfold loop_inv, budget, dlen in *; repeat case_match; lia.
Qed.


Lemma valid_ip_fits ip :
  is_valid_ip ip = true -> Z.of_nat (String.length ip) + 1 <= INET_ADDRSTRLEN.
Proof.
  unfold is_valid_ip, inet_pton4. destruct (inet_pton4_loop _ _ _ _ _) as [r|] eqn:E; [|done].
  intros _. apply loop_budget in E; [|unfold loop_inv; lia].
  unfold budget, INET_ADDRSTRLEN in *. lia.
Qed.

(** ** Printing an address and reading it back *)

Lemma append_String c s1 s2 : (String c s1 ++ s2)%string = String c (s1 ++ s2)%string.
Proof. reflexivity. Qed.

Lemma append_Empty s : (EmptyString ++ s)%string = s.
Proof. reflexivity. Qed.

Lemma dchar_spec v : 0 <= v <= 9 -> is_digit (dchar v) = true /\ digit_value (dchar v) = v.
Proof.
  intros Hv. unfold is_digit, digit_value, dchar. rewrite Ascii.nat_ascii_embedding by lia.
  split; [apply andb_true_iff; split; apply Nat.leb_le; lia|lia].
Qed.

Lemma dchar_not_dot v : 0 <= v <= 9 -> Ascii.eqb (dchar v) "." = false.
Proof.
  intros Hv. apply Ascii.eqb_neq. intros H. pose proof (dchar_spec v Hv) as [Hd _].
  rewrite H in Hd. discriminate.
Qed.

(** Reading the digits of one octet. *)
Lemma loop_octet n rest k done :
  0 <= n <= 255 -> 0 <= k < 4 ->
  inet_pton4_loop (u8_string n ++ rest) false k done 0 = inet_pton4_loop rest true (k + 1) done n.
Proof.
  intros Hn Hk. unfold u8_string.
  destruct (n <? 10) eqn:E1; [|destruct (n <? 100) eqn:E2];
    rewrite ?Z.ltb_lt, ?Z.ltb_ge in *; rewrite ?append_String, ?append_Empty;
    cbn [inet_pton4_loop];
    repeat match goal with |- context [dchar ?v] =>
      destruct (dchar_spec v ltac:(zlia)) as [-> ->] end;
    cbn [andb]; zcmp; f_equal; zlia.
Qed.


Lemma append_EmptyString_r s : (s ++ EmptyString)%string = s.
Proof. induction s as [|c s IH]; [done|]. rewrite append_String. by rewrite IH. Qed.

Lemma octet_dot s k done cur :
  0 <= k < 4 -> inet_pton4_loop (String "." s) true k done cur =
  inet_pton4_loop s false k (done ++ [cur]) 0.
Proof. intros Hk. cbn [inet_pton4_loop]. simpl. by zcmp. Qed.

(** [inet_pton] reads back the address [inet_ntop] printed. *)
Lemma inet_pton4_ntop4 a b c d :
  0 <= a <= 255 -> 0 <= b <= 255 -> 0 <= c <= 255 -> 0 <= d <= 255 ->
  inet_pton4 (inet_ntop4 [a; b; c; d]) = Some [a; b; c; d].
Proof.
  intros Ha Hb Hc Hd. unfold inet_pton4, inet_ntop4.
  rewrite <- (append_EmptyString_r (u8_string d)).
  rewrite loop_octet, octet_dot, loop_octet, octet_dot, loop_octet, octet_dot, loop_octet by lia.
  reflexivity.
Qed.

(** ** Byte order *)

Lemma land_shiftl_small a b n :
  0 <= n -> 0 <= b < 2 ^ n -> Z.land (Z.shiftl a n) b = 0.
Proof.
  intros Hn Hb. apply Z.bits_inj_0. intros i. rewrite Z.land_spec.
  destruct (Z.lt_ge_cases i 0) as [Hi|Hi]; [by rewrite Z.testbit_neg_r|].
  rewrite Z.shiftl_spec by lia. destruct (Z.lt_ge_cases i n) as [Hin|Hin].
  - rewrite Z.testbit_neg_r by lia. done.
  - rewrite <- (Z.mod_small b (2 ^ n)) by lia. rewrite Z.mod_pow2_bits_high by lia.
    apply andb_false_r.
Qed.

(** The two bytes of a 16-bit value, swapped. *)
Lemma bswap16_spec x : 0 <= x < 2 ^ 16 -> bswap16 x = (x mod 256) * 256 + x / 256.
Proof.
  intros Hx. unfold bswap16.
  change 255 with (Z.ones 8). rewrite !Z.land_ones, Z.shiftr_div_pow2 by lia.
  change (2 ^ 8) with 256.
  rewrite (Z.mod_small (x / 256) 256) by zlia.
  rewrite <- Z.add_nocarry_lor.
  - rewrite Z.shiftl_mul_pow2 by lia. done.
  - apply land_shiftl_small; zlia.
Qed.

(** ** Properties of the address conversions *)

(** The accept thread's address string is a valid literal that
    fits its field: for every IPv4 address, the string [inet_ntop]
    writes into [client_ip] is read back by [inet_pton] as the same
    four bytes, so [is_valid_ip] accepts it, and it has at most 15
    characters, so [strcpy] of it into [Connection.ip] stays in
    bounds. *)
Theorem inet_ntop4_roundtrip a b c d :
  0 <= a <= 255 -> 0 <= b <= 255 -> 0 <= c <= 255 -> 0 <= d <= 255 ->
  inet_pton4 (inet_ntop4 [a; b; c; d]) = Some [a; b; c; d] /\
  is_valid_ip (inet_ntop4 [a; b; c; d]) = true /\
  Z.of_nat (String.length (inet_ntop4 [a; b; c; d])) + 1 <= INET_ADDRSTRLEN.
Proof.
  intros Ha Hb Hc Hd. pose proof (inet_pton4_ntop4 a b c d Ha Hb Hc Hd) as H.
  assert (Hv : is_valid_ip (inet_ntop4 [a; b; c; d]) = true) by (unfold is_valid_ip; by rewrite H).
  split_and!; [done|done|by apply valid_ip_fits].
Qed.

(** A byte swap keeps a value within 16 bits. *)
Lemma bswap16_range x : 0 <= x < 2 ^ 16 -> 0 <= bswap16 x < 2 ^ 16.
Proof. intros Hx. rewrite bswap16_spec by done. zlia. Qed.

(** [ntohs] undoes [htons] on 16-bit values. *)
Lemma ntohs_htons p :
  0 <= p < 2 ^ 16 -> ntohs (htons p) = p /\ 0 <= htons p < 2 ^ 16.
Proof.
  intros Hp. unfold ntohs, htons.
  pose proof (bswap16_range p Hp) as Hy.
  split; [|done]. rewrite (bswap16_spec (bswap16 p)) by done. rewrite bswap16_spec by done.
  zlia.
Qed.

(** ** Witnesses of the address conversions *)

Lemma inet_ntop4_roundtrip_witness :
  inet_pton4 (inet_ntop4 [192; 168; 0; 17]) = Some [192; 168; 0; 17] /\
  is_valid_ip (inet_ntop4 [192; 168; 0; 17]) = true /\
  Z.of_nat (String.length (inet_ntop4 [192; 168; 0; 17])) + 1 <= INET_ADDRSTRLEN.
Proof. apply inet_ntop4_roundtrip; lia. Defined.


End Validate.
