(* ===== verification/Signal.v ===== *)
(** * Signals: [signal_handler] and [setup_signal_handlers] (src/signal.c)

    [main] calls [setup_signal_handlers] before it starts any thread:
    [SIGINT], [SIGTERM] and [SIGHUP] go to [signal_handler], [SIGPIPE]
    is ignored.  [signal_handler] prints and, for [SIGTERM] only, clears
    the global [running].  The table of dispositions is a function from
    signal number to [disposition], [signal(sig, h)] updates it, and
    [deliver] is what the kernel does when a signal arrives: run the
    handler, discard it, or carry out the default action.  The default
    actions and the signal numbers (Linux, x86) are those of POSIX and
    the kernel, not code of this repository. *)

From S2P Require Import Prelude.

Module Signal.

Definition SIGHUP : Z := 1.
Definition SIGINT : Z := 2.
Definition SIGPIPE : Z := 13.
Definition SIGTERM : Z := 15.

(** The lines [signal_handler] prints; [SPrompt] is [print_prompt()]. *)
Inductive sig_line :=
  | SInterrupt               (** "[!] Received interrupt signal (Ctrl+C)" *)
  | SUseExit                 (** "Use 'exit' command to quit properly." *)
  | SPrompt                  (** "> " *)
  | STerminated              (** "[!] Received termination signal" *)
  | SHangup                  (** "[!] Terminal disconnected" *)
  | SOther (sig : Z).        (** "[!] Received signal %d" *)

(** [signal_handler(sig)] on the value of [running]: the new value and
    the lines printed.  The [switch] tests the cases in order. *)
Definition signal_handler (sig : Z) (running : bool) : bool * list sig_line :=
  if sig =? SIGINT then (running, [SInterrupt; SUseExit; SPrompt])
  else if sig =? SIGTERM then (false, [STerminated])
  else if sig =? SIGHUP then (running, [SHangup])
  else if sig =? SIGPIPE then (running, [])
  else (running, [SOther sig]).

Inductive disposition := SigDfl | SigIgn | SigHandler.

#[export] Instance disposition_eq_dec : EqDecision disposition.
Proof. solve_decision. Defined.

(** The dispositions of the process, signal by signal. *)
Definition sigtable := Z -> disposition.

Definition sig_default : sigtable := fun _ => SigDfl.

(** [signal(sig, h)]. *)
Definition signal (t : sigtable) (sig : Z) (d : disposition) : sigtable :=
  fun s => if s =? sig then d else t s.

Definition setup_signal_handlers (t : sigtable) : sigtable :=
  let t := signal t SIGINT SigHandler in
  let t := signal t SIGTERM SigHandler in
  let t := signal t SIGHUP SigHandler in
  signal t SIGPIPE SigIgn.

(** The signals whose default action is to ignore them (Linux):
    [SIGCHLD], [SIGCONT], [SIGURG], [SIGWINCH].  The default action of
    the others ends the process (or stops it, which [deliver] does not
    distinguish: the process takes no step either way). *)
Definition default_ignored (sig : Z) : bool :=
  (sig =? 17) || (sig =? 18) || (sig =? 23) || (sig =? 28).

(** What happens when [sig] arrives while [running] holds the given
    value. *)
Inductive delivery :=
  | Killed
  | Ignored
  | Handled (running : bool) (out : list sig_line).

Definition deliver (t : sigtable) (sig : Z) (running : bool) : delivery :=
  match t sig with
  | SigDfl => if default_ignored sig then Ignored else Killed
  | SigIgn => Ignored
  | SigHandler => let '(r, out) := signal_handler sig running in Handled r out
  end.

#[global] Arguments deliver : simpl never.

(** The dispositions of the process once [main] has called
    [setup_signal_handlers]. *)
Definition handlers : sigtable := setup_signal_handlers sig_default.

(** ** Lemmas *)

Lemma signal_same t sig d : signal t sig d sig = d.
Proof. unfold signal. by rewrite Z.eqb_refl. Qed.

Lemma signal_other t sig d s : s <> sig -> signal t sig d s = t s.
Proof. intros H. unfold signal. by rewrite (proj2 (Z.eqb_neq s sig) H). Qed.

(** The table [setup_signal_handlers] leaves, signal by signal. *)
Lemma setup_signal_handlers_at t s :
  setup_signal_handlers t s =
  if (s =? SIGINT) || (s =? SIGTERM) || (s =? SIGHUP) then SigHandler
  else if s =? SIGPIPE then SigIgn else t s.
Proof.
  unfold setup_signal_handlers, signal, SIGINT, SIGTERM, SIGHUP, SIGPIPE.
  repeat match goal with |- context [?a =? ?b] => destruct (Z.eqb_spec a b); subst end;
    done.
Qed.

(** Only [SIGTERM] changes [running], and only to [0]. *)
Lemma signal_handler_running sig r :
  (signal_handler sig r).1 = if sig =? SIGTERM then false else r.
Proof.
  unfold signal_handler, SIGINT, SIGTERM, SIGHUP, SIGPIPE.
  repeat match goal with |- context [?a =? ?b] => destruct (Z.eqb_spec a b); subst end;
    simpl; done.
Qed.

(** A handled signal changes [running] as the handler does. *)
Lemma deliver_handled_running t sig r r' out :
  deliver t sig r = Handled r' out -> r' = if sig =? SIGTERM then false else r.
Proof.
  unfold deliver. rewrite <- signal_handler_running.
  destruct (t sig), (default_ignored sig), (signal_handler sig r); simpl; congruence.
Qed.

(** ** The property *)

(** (C26) What [setup_signal_handlers] guarantees, whatever the
    dispositions were before: [SIGINT], [SIGTERM], [SIGHUP] and [SIGPIPE]
    no longer end the process; a signal that reaches [signal_handler]
    clears [running] exactly when it is [SIGTERM]; [SIGPIPE] is ignored
    by the kernel (a [send] to a peer that has gone fails with [EPIPE]
    instead of killing the program), so the [SIGPIPE] case of
    [signal_handler] is never reached; [SIGTERM] runs the handler,
    which prints one line and clears [running]. *)
Theorem setup_signal_handlers_spec t sig r :
  ((sig =? SIGINT) || (sig =? SIGTERM) || (sig =? SIGHUP) || (sig =? SIGPIPE) = true ->
     deliver (setup_signal_handlers t) sig r <> Killed) /\
  (forall r' out, deliver (setup_signal_handlers t) sig r = Handled r' out ->
     r' = r && negb (sig =? SIGTERM)) /\
  deliver (setup_signal_handlers t) SIGPIPE r = Ignored /\
  deliver (setup_signal_handlers t) SIGTERM r = Handled false [STerminated].
Proof.
  split_and!.
  - intros Hs. unfold deliver. rewrite setup_signal_handlers_at.
    destruct ((sig =? SIGINT) || (sig =? SIGTERM) || (sig =? SIGHUP)) eqn:E;
      [by destruct (signal_handler sig r)|].
    simpl in Hs. by rewrite Hs.
  - intros r' out H. apply deliver_handled_running in H as ->. by destruct (sig =? SIGTERM), r.
  - unfold deliver. by rewrite setup_signal_handlers_at.
  - unfold deliver. by rewrite setup_signal_handlers_at.
Qed.

Lemma setup_signal_handlers_spec_witness :
  ((SIGHUP =? SIGINT) || (SIGHUP =? SIGTERM) || (SIGHUP =? SIGHUP) || (SIGHUP =? SIGPIPE) = true ->
     deliver (setup_signal_handlers sig_default) SIGHUP true <> Killed) /\
  (forall r' out, deliver (setup_signal_handlers sig_default) SIGHUP true = Handled r' out ->
     r' = true && negb (SIGHUP =? SIGTERM)) /\
  deliver (setup_signal_handlers sig_default) SIGPIPE true = Ignored /\
  deliver (setup_signal_handlers sig_default) SIGTERM true = Handled false [STerminated].
Proof. exact (setup_signal_handlers_spec sig_default SIGHUP true). Defined.

End Signal.
