(* ===== verification/Registry.v ===== *)
(** * The connection table of src/connection.c

    The array [Connection connections[MAX_CONNECTIONS]] and the counter
    [next_connection_id] (src/main.c) form the state [state].  Every
    function of connection.c that holds [connections_mutex] from its
    first to its last access of the array is one function on [state];
    the socket calls it makes and the threads it starts are returned as
    a list of [effect]s, in program order.  The slot loops of the C code
    ([for (i = 0; i < MAX_CONNECTIONS; i++) ... break]) are stdpp's
    [list_find], which returns the first matching slot. *)

From S2P Require Import Prelude.

Module Registry.

(** [typedef struct { ... } Connection] of src/connection.h.  The
    [pthread_t] handle is an integer. *)
Record Connection := mkConnection {
  id : Z;
  socket : Z;
  ip : string;
  port : Z;
  thread : Z;
  active : bool
}.

Definition set_active (b : bool) (c : Connection) : Connection :=
  mkConnection (id c) (socket c) (ip c) (port c) (thread c) b.

Definition set_thread (t : Z) (c : Connection) : Connection :=
  mkConnection (id c) (socket c) (ip c) (port c) t (active c).

(** The process-wide state: the array and the id counter. *)
Record state := mkState {
  connections : list Connection;
  next_connection_id : Z
}.

(** What a critical section does outside the array. *)
Inductive effect :=
  | Shutdown (s : Z)   (** [shutdown(s, 2)]: both directions *)
  | Close (s : Z)      (** [close(s)] *)
  | Spawn (slot : nat) (** [pthread_create(..., handle_peer_messages_thread, slot)] *).

(** A zeroed slot, as [memset] leaves it. *)
Definition empty_connection : Connection := mkConnection 0 0 "" 0 0 false.

(** [init_connections]: every slot zeroed. *)
Definition init_connections : list Connection :=
  replicate MAX_CONNECTIONS empty_connection.

(** The globals at start-up: [init_connections()] and
    [int next_connection_id = 1]. *)
Definition initial_state : state := mkState init_connections 1.

(** ** Slot predicates of the loops *)

Definition slot_free (c : Connection) : Prop := active c = false.
Definition slot_has_id (k : Z) (c : Connection) : Prop :=
  active c = true /\ id c = k.
Definition slot_has_address (a : string) (p : Z) (c : Connection) : Prop :=
  active c = true /\ ip c = a /\ port c = p.

#[export] Instance slot_free_dec c : Decision (slot_free c).
Proof. unfold slot_free. apply _. Defined.
#[export] Instance slot_has_id_dec k c : Decision (slot_has_id k c).
Proof. unfold slot_has_id. apply _. Defined.
#[export] Instance slot_has_address_dec a p c : Decision (slot_has_address a p c).
Proof. unfold slot_has_address. apply _. Defined.

(** ** Operations *)

(** [add_connection(sock, ip, port)].  [spawn] is the outcome of
    [pthread_create]: [Some t] when it started thread [t], [None] when it
    failed.  The result is the new state, the returned [int] and the
    effects.  On thread failure the slot has already been written and
    the id consumed; only [active] is reset. *)
Definition add_connection (st : state) (sock : Z) (a : string) (p : Z)
    (spawn : option Z) : state * Z * list effect :=
  match list_find slot_free (connections st) with
  | None => (st, -1, [])
  | Some (slot, old) =>
      let c := mkConnection (next_connection_id st) sock a p (thread old) true in
      let next' := next_connection_id st + 1 in
      match spawn with
      | Some t =>
          (mkState (<[slot := set_thread t c]> (connections st)) next',
           next_connection_id st, [Spawn slot])
      | None =>
          (mkState (<[slot := set_active false c]> (connections st)) next', -1, [])
      end
  end.

(** [remove_connection(conn_id)]: the receiver's retirement path;
    [close] only. *)
Definition remove_connection (st : state) (k : Z) : state * list effect :=
  match list_find (slot_has_id k) (connections st) with
  | None => (st, [])
  | Some (i, c) =>
      (mkState (<[i := set_active false c]> (connections st)) (next_connection_id st),
       [Close (socket c)])
  end.

(** [close_connection(conn_id)]: the operator's [terminate];
    [shutdown] then [close]. *)
Definition close_connection (st : state) (k : Z) : state * list effect :=
  match list_find (slot_has_id k) (connections st) with
  | None => (st, [])
  | Some (i, c) =>
      (mkState (<[i := set_active false c]> (connections st)) (next_connection_id st),
       [Shutdown (socket c); Close (socket c)])
  end.

(** One iteration of the loop of [close_all_connections]. *)
Definition close_slot (c : Connection) : Connection * list effect :=
  if active c then (set_active false c, [Shutdown (socket c); Close (socket c)])
  else (c, []).

Definition close_all_connections (st : state) : state * list effect :=
  (mkState ((fun c => fst (close_slot c)) <$> connections st) (next_connection_id st),
   mjoin ((fun c => snd (close_slot c)) <$> connections st)).

(** The three lookups return the slot index, or [-1] / [NULL]. *)
Definition slot_result (r : option (nat * Connection)) : Z :=
  match r with Some (i, _) => Z.of_nat i | None => -1 end.

Definition find_connection_by_address (st : state) (a : string) (p : Z) : Z :=
  slot_result (list_find (slot_has_address a p) (connections st)).

Definition find_connection_by_id (st : state) (k : Z) : Z :=
  slot_result (list_find (slot_has_id k) (connections st)).

(** [get_connection_by_id]: the pointer [&connections[i]] is the index
    [i]; [NULL] is [None]. *)
Definition get_connection_by_id (st : state) (k : Z) : option nat :=
  fst <$> list_find (slot_has_id k) (connections st).

Definition get_active_connection_count (st : state) : Z :=
  Z.of_nat (length (filter (fun c => active c = true) (connections st))).

(** The lines [print_connection_list] prints. *)
Inductive line :=
  | ListHeader
  | ListEntry (k : Z) (a : string) (p : Z)
  | NoActive
  | ListFooter.

Definition print_connection_list (st : state) : list line :=
  let act := filter (fun c => active c = true) (connections st) in
  [ListHeader] ++ map (fun c => ListEntry (id c) (ip c) (port c)) act
  ++ (if decide (length act = 0%nat) then [NoActive] else []) ++ [ListFooter].

(** ** Sequences of critical sections

    The mutex serialises the critical sections of all threads, so any
    execution of the program drives the table through a sequence of the
    operations above.  [exec_op] runs one; its integer result is the
    value [add_connection] returns ([-1] for the other operations, which
    return nothing). *)
Inductive op :=
  | OpAdd (sock : Z) (a : string) (p : Z) (spawn : option Z)
  | OpRemove (k : Z)
  | OpClose (k : Z)
  | OpCloseAll.

Definition exec_op (st : state) (o : op) : state * Z * list effect :=
  match o with
  | OpAdd sock a p spawn => add_connection st sock a p spawn
  | OpRemove k => let '(st', e) := remove_connection st k in (st', -1, e)
  | OpClose k => let '(st', e) := close_connection st k in (st', -1, e)
  | OpCloseAll => let '(st', e) := close_all_connections st in (st', -1, e)
  end.

(** The final state, the ids handed out (in order) and the effects. *)
Fixpoint run (st : state) (ops : list op) : state * list Z * list effect :=
  match ops with
  | [] => (st, [], [])
  | o :: ops' =>
      let '(st1, r, e1) := exec_op st o in
      let '(st2, ids, e2) := run st1 ops' in
      (st2, (if decide (r = -1) then [] else [r]) ++ ids, e1 ++ e2)
  end.

(** The calls of [add_connection] in a sequence of critical sections. *)
Fixpoint add_calls (ops : list op) : nat :=
  match ops with
  | [] => 0
  | OpAdd _ _ _ _ :: ops' => S (add_calls ops')
  | _ :: ops' => add_calls ops'
  end.

(** ** Concrete tables *)

(** Two slots, both live: the ids 1 and 2. *)
Definition table_full2 : state :=
  mkState [mkConnection 1 10 "10.0.0.1" 5000 100 true;
           mkConnection 2 11 "10.0.0.2" 5001 101 true] 3.

(** A table of capacity two, as [init_connections] leaves it. *)
Definition table_empty2 : state := mkState (replicate 2 empty_connection) 1.

(** ** The invariant *)

(** [wf st]: the counter is positive, every live id was drawn from it,
    and no two live slots carry the same id (I3 restricted to the live
    table). *)
Record wf (st : state) : Prop := {
  wf_next : 1 <= next_connection_id st;
  wf_ids : forall i c, connections st !! i = Some c -> active c = true ->
    1 <= id c < next_connection_id st;
  wf_unique : unique_on (fun c => active c = true) id (connections st)
}.

(** An executable check of [wf], for concrete tables. *)
Definition wfb (st : state) : bool :=
  let live := filter (fun c => active c = true) (connections st) in
  bool_decide (1 <= next_connection_id st) &&
  forallb (fun c => bool_decide (1 <= id c < next_connection_id st)) live &&
  bool_decide (NoDup (id <$> live)).

(** ** Lemmas on the slot loops *)

Lemma find_id_None_iff (l : list Connection) k :
  list_find (slot_has_id k) l = None <->
  forall i c, l !! i = Some c -> active c = true -> id c <> k.
Proof.
  rewrite list_find_None, Forall_lookup. unfold slot_has_id.
  split; intros H i c Hi; specialize (H i c Hi); tauto.
Qed.

Lemma find_free_None_iff (l : list Connection) :
  list_find slot_free l = None <-> Forall (fun c => active c = true) l.
Proof.
  rewrite list_find_None. apply Forall_iff. intros c. unfold slot_free.
  destruct (active c); intuition congruence.
Qed.

(** Retiring the one live slot of an id leaves no live slot with it. *)
Lemma retire_unique_gone (l : list Connection) i c :
  unique_on (fun c => active c = true) id l -> l !! i = Some c ->
  active c = true ->
  list_find (slot_has_id (id c)) (<[i := set_active false c]> l) = None.
Proof.
  intros Hu Hi Hc. apply find_id_None_iff. intros j y Hj Hy Heq.
  apply list_lookup_insert_Some in Hj as [[-> [<- _]]|[Hij Hj]]; [done|].
  by apply Hij, (Hu i j c y).
Qed.

Lemma unique_retire (l : list Connection) i c :
  unique_on (fun c => active c = true) id l ->
  unique_on (fun c => active c = true) id (<[i := set_active false c]> l).
Proof. intros Hu. by apply unique_on_insert_out. Qed.

(** Live ids below the counter survive overwriting one slot. *)
Lemma ids_insert (l : list Connection) i x n n' :
  (forall j y, l !! j = Some y -> active y = true -> 1 <= id y < n) ->
  (active x = true -> 1 <= id x < n') -> n <= n' ->
  forall j y, <[i := x]> l !! j = Some y -> active y = true -> 1 <= id y < n'.
Proof.
  intros H Hx Hn j y Hj Hy.
  apply list_lookup_insert_Some in Hj as [[_ [<- _]]|[_ Hj]]; [auto|].
  specialize (H j y Hj Hy). lia.
Qed.

Lemma ids_retire (l : list Connection) i c n :
  (forall j y, l !! j = Some y -> active y = true -> 1 <= id y < n) ->
  forall j y, <[i := set_active false c]> l !! j = Some y -> active y = true ->
  1 <= id y < n.
Proof. intros H. apply ids_insert with n; [done|done|lia]. Qed.

#[export] Hint Resolve unique_retire ids_retire : p2p.


Lemma wfb_wf st : wfb st = true -> wf st.
Proof.
  unfold wfb. intros H. apply andb_true_iff in H as [H Hnd].
  apply andb_true_iff in H as [Hn Hids].
  apply bool_decide_eq_true in Hn, Hnd. rewrite forallb_forall in Hids.
  split; [done| |exact (unique_on_NoDup (fun c => active c = true) id (connections st) Hnd)].
  intros i c Hi Hc. apply (bool_decide_eq_true_1 (1 <= id c < next_connection_id st)), Hids.
  apply list_elem_of_In, list_elem_of_filter. split; [done|].
  by eapply list_elem_of_lookup_2.
Qed.

(** ** Preservation of [wf] *)

Lemma initial_wf : wf initial_state.
Proof.
  split; simpl; [lia| |].
  - intros i c Hi. apply lookup_replicate in Hi as [-> _]. done.
  - intros i j x y Hi. apply lookup_replicate in Hi as [-> _]. done.
Qed.

(** A fresh id drawn from the counter clashes with no live id. *)
Lemma fresh_id_unique st x i :
  wf st -> id x = next_connection_id st ->
  unique_on (fun c => active c = true) id (<[i := x]> (connections st)).
Proof.
  intros Hwf Hx. apply unique_on_insert_fresh; [apply Hwf|].
  intros j y Hj Hy. pose proof (wf_ids _ Hwf j y Hj Hy). lia.
Qed.

Lemma add_connection_wf st sock a p spawn :
  wf st -> wf (add_connection st sock a p spawn).1.1.
Proof.
  intros Hwf. unfold add_connection.
  destruct (list_find slot_free _) as [[slot old]|]; [|done].
  pose proof (wf_next _ Hwf). pose proof (wf_ids _ Hwf).
  destruct spawn as [t|]; split; simpl; try lia.
  - eapply ids_insert; [eassumption|simpl; lia|lia].
  - by apply fresh_id_unique.
  - eapply ids_insert; [eassumption|done|lia].
  - apply unique_on_insert_out; [apply Hwf|done].
Qed.

(** [remove_connection] and [close_connection] differ only in their
    effects; both retire the slot they find. *)
Lemma retire_wf st i c :
  wf st ->
  wf (mkState (<[i := set_active false c]> (connections st)) (next_connection_id st)).
Proof.
  intros Hwf. split; simpl; [apply Hwf| |].
  - apply ids_retire, Hwf.
  - apply unique_retire, Hwf.
Qed.

Lemma remove_connection_wf st k : wf st -> wf (remove_connection st k).1.
Proof.
  intros Hwf. unfold remove_connection.
  destruct (list_find _ _) as [[i c]|]; [by apply retire_wf|done].
Qed.

Lemma close_connection_wf st k : wf st -> wf (close_connection st k).1.
Proof.
  intros Hwf. unfold close_connection.
  destruct (list_find _ _) as [[i c]|]; [by apply retire_wf|done].
Qed.

Lemma close_slot_inactive c : active (close_slot c).1 = false.
Proof. unfold close_slot. by destruct (active c) eqn:E. Qed.

Lemma close_all_connections_wf st : wf st -> wf (close_all_connections st).1.
Proof.
  intros Hwf. split; simpl; [apply Hwf| |].
  - intros i c Hi. apply list_lookup_fmap_Some in Hi as (y & -> & _).
    by rewrite close_slot_inactive.
  - apply unique_on_map_out. intros c. by rewrite close_slot_inactive.
Qed.


Lemma exec_op_wf st o : wf st -> wf (exec_op st o).1.1.
Proof.
  intros Hwf. destruct o; unfold exec_op.
  - by apply add_connection_wf.
  - pose proof (remove_connection_wf st k Hwf). by destruct (remove_connection st k).
  - pose proof (close_connection_wf st k Hwf). by destruct (close_connection st k).
  - pose proof (close_all_connections_wf st Hwf). by destruct (close_all_connections st).
Qed.

#[export] Hint Resolve initial_wf add_connection_wf remove_connection_wf
  close_connection_wf close_all_connections_wf exec_op_wf : p2p.

(** ** The id counter *)

(** One critical section either hands out the current counter and bumps
    it, or returns [-1] and does not move the counter backwards. *)
Lemma exec_op_counter st o :
  wf st ->
  let '(st', r, _) := exec_op st o in
  (r = next_connection_id st /\ next_connection_id st' = next_connection_id st + 1)
  \/ (r = -1 /\ next_connection_id st <= next_connection_id st').
Proof.
  intros Hwf. pose proof (wf_next _ Hwf). destruct o as [sock a p [t|]|k|k|]; simpl.
  - unfold add_connection. destruct (list_find _ _) as [[??]|]; simpl; [left|right]; lia.
  - unfold add_connection. destruct (list_find _ _) as [[??]|]; simpl; right; lia.
  - unfold remove_connection. destruct (list_find _ _) as [[??]|]; simpl; right; lia.
  - unfold close_connection. destruct (list_find _ _) as [[??]|]; simpl; right; lia.
  - right; simpl; lia.
Qed.

Lemma run_cons st o ops :
  run st (o :: ops) =
  let '(st1, r, e1) := exec_op st o in
  let '(st2, ids, e2) := run st1 ops in
  (st2, (if decide (r = -1) then [] else [r]) ++ ids, e1 ++ e2).
Proof. reflexivity. Qed.

Lemma run_snoc st ops o :
  (run st (ops ++ [o])).1.1 = (exec_op (run st ops).1.1 o).1.1.
Proof.
  revert st. induction ops as [|o' ops IH]; intros st.
  - simpl. by destruct (exec_op st o) as [[??]?].
  - simpl. destruct (exec_op st o') as [[st1 r] e1].
    specialize (IH st1). destruct (run st1 (ops ++ [o])) as [[??]?].
    destruct (run st1 ops) as [[??]?]. done.
Qed.

Lemma run_wf st ops : wf st -> wf (run st ops).1.1.
Proof.
  revert st. induction ops as [|o ops IH]; intros st Hwf; [done|].
  rewrite run_cons. pose proof (exec_op_wf st o Hwf) as H1.
  destruct (exec_op st o) as [[st1 r] e1].
  specialize (IH st1 H1). destruct (run st1 ops) as [[st2 ids] e2]. done.
Qed.

Lemma run_counter_mono st ops :
  wf st -> next_connection_id st <= next_connection_id (run st ops).1.1.
Proof.
  revert st. induction ops as [|o ops IH]; intros st Hwf; simpl; [lia|].
  pose proof (exec_op_wf st o Hwf) as H1. pose proof (exec_op_counter st o Hwf) as Hc.
  destruct (exec_op st o) as [[st1 r] e1].
  specialize (IH st1 H1). destruct (run st1 ops) as [[st2 ids] e2]. simpl in *. lia.
Qed.


Lemma run_counter_le st ops :
  next_connection_id (run st ops).1.1 <= next_connection_id st + Z.of_nat (add_calls ops).
Proof.
  revert st. induction ops as [|o ops IH]; intros st; simpl; [lia|].
  assert (Ho : next_connection_id (exec_op st o).1.1 <= next_connection_id st +
                 match o with OpAdd _ _ _ _ => 1 | _ => 0 end).
  { destruct o as [sock a p [t|]|k|k|]; simpl; unfold add_connection, remove_connection,
      close_connection; repeat case_match; simplify_eq/=; lia. }
  destruct (exec_op st o) as [[st1 r] e1]. specialize (IH st1).
  destruct (run st1 ops) as [[st2 ids] e2]. simpl in *. destruct o; simpl; lia.
Qed.

(** ** Lookups under the invariant *)

(** The slot of a live id is the one [list_find] returns. *)
Lemma find_id_unique (l : list Connection) i c :
  unique_on (fun c => active c = true) id l -> l !! i = Some c ->
  active c = true -> list_find (slot_has_id (id c)) l = Some (i, c).
Proof.
  intros Hu Hi Hc.
  destruct (list_find_elem_of (slot_has_id (id c)) l c) as [[j y] Hj];
    [by eapply list_elem_of_lookup_2|done|].
  pose proof Hj as Hj'. apply list_find_lookup in Hj' as [Hly [Hy Hid]].
  by assert (j = i) as -> by (eapply Hu; eauto); simplify_eq.
Qed.

Lemma filter_active_all (l : list Connection) :
  Forall (fun c => active c = true) l -> filter (fun c => active c = true) l = l.
Proof.
  induction 1 as [|c l Hc _ IH]; [done|]. by rewrite filter_cons_True, IH.
Qed.

Lemma filter_inactive (l : list Connection) :
  Forall (fun c => active c = false) l -> filter (fun c => active c = true) l = [].
Proof.
  induction 1 as [|c l Hc _ IH]; [done|]. rewrite filter_cons_False; [done|congruence].
Qed.

(** A table with fewer live slots than slots has a free slot. *)
Lemma free_slot_exists st :
  get_active_connection_count st < Z.of_nat (length (connections st)) ->
  exists slot old, list_find slot_free (connections st) = Some (slot, old).
Proof.
  unfold get_active_connection_count. intros Hlt.
  destruct (list_find slot_free _) as [[slot old]|] eqn:E; [eauto|].
  apply find_free_None_iff, filter_active_all in E. rewrite E in Hlt. lia.
Qed.

Lemma find_free_slot st slot old :
  list_find slot_free (connections st) = Some (slot, old) ->
  connections st !! slot = Some old /\ active old = false /\
  forall j c, (j < slot)%nat -> connections st !! j = Some c -> active c = true.
Proof.
  intros (Hl & Hf & Hmin)%list_find_Some. split_and!; [done|done|].
  intros j c Hj Hc. specialize (Hmin j c Hc Hj). unfold slot_free in Hmin.
  destruct (active c); congruence.
Qed.

Lemma length_exec_op st o :
  length (connections (exec_op st o).1.1) = length (connections st).
Proof.
  destruct o; unfold exec_op.
  - unfold add_connection. destruct (list_find _ _) as [[??]|]; [|done].
    destruct spawn; simpl; apply length_insert.
  - unfold remove_connection. destruct (list_find _ _) as [[??]|]; simpl; [apply length_insert|done].
  - unfold close_connection. destruct (list_find _ _) as [[??]|]; simpl; [apply length_insert|done].
  - simpl. apply length_fmap.
Qed.

Lemma length_run st ops :
  length (connections (run st ops).1.1) = length (connections st).
Proof.
  revert st. induction ops as [|o ops IH]; intros st; [done|].
  rewrite run_cons. pose proof (length_exec_op st o) as H.
  destruct (exec_op st o) as [[st1 r] e1]. specialize (IH st1).
  destruct (run st1 ops) as [[st2 ids] e2]. simpl in *. lia.
Qed.

Lemma active_count_le st :
  get_active_connection_count st <= Z.of_nat (length (connections st)).
Proof. unfold get_active_connection_count. pose proof (length_filter (fun c => active c = true) (connections st)). lia. Qed.

(** The pointer [get_connection_by_id] returns is a live slot of the
    array with that id. *)
Lemma get_connection_by_id_lookup st k i :
  get_connection_by_id st k = Some i -> exists c, connections st !! i = Some c /\ slot_has_id k c.
Proof.
  unfold get_connection_by_id. intros ([j c] & Hf & ->)%fmap_Some. simpl.
  apply list_find_Some in Hf as (? & ? & _). eauto.
Qed.


(** ** Properties of the table *)

(** (C1) Every state the table reaches from start-up, through any
    sequence of critical sections, satisfies the invariant [wf]: live
    ids are positive, below [next_connection_id] and pairwise distinct. *)
Theorem reachable_wf ops : wf (run initial_state ops).1.1.
Proof. apply run_wf, initial_wf. Qed.

(** (C2) Ids are never reused (I3): along any sequence of critical
    sections from a well-formed state, the ids [add_connection] hands
    out are strictly increasing and drawn from the counter, so each is
    larger than every id assigned before, retired or live. *)
Theorem run_ids_increasing st ops :
  wf st ->
  let '(st', ids, _) := run st ops in
  StronglySorted Z.lt ids /\
  Forall (fun k => next_connection_id st <= k < next_connection_id st') ids.
Proof.
  revert st. induction ops as [|o ops IH]; intros st Hwf; [split; constructor|].
  rewrite run_cons. pose proof (exec_op_wf st o Hwf) as H1.
  pose proof (exec_op_counter st o Hwf) as Hc.
  pose proof (run_counter_mono _ ops H1) as Hm.
  destruct (exec_op st o) as [[st1 r] e1]. simpl in Hm, H1. specialize (IH st1 H1).
  destruct (run st1 ops) as [[st2 ids] e2]. simpl in Hm. destruct IH as [Hs Hf].
  destruct Hc as [[-> Hn]|[-> Hn]].
  - pose proof (wf_next _ Hwf). rewrite decide_False by lia. simpl. split.
    + apply StronglySorted_cons. split; [|done].
      eapply Forall_impl; [exact Hf|]. simpl. lia.
    + constructor; [lia|]. eapply Forall_impl; [exact Hf|]. simpl. lia.
  - rewrite decide_True by done. split; [done|].
    eapply Forall_impl; [exact Hf|]. simpl. lia.
Qed.

(** (C3) Capacity (I1): on a table whose slots are all live,
    [add_connection] fails with [-1], leaves the table and the counter
    as they were and starts no thread. *)
Theorem add_connection_full st sock a p spawn :
  get_active_connection_count st = Z.of_nat (length (connections st)) ->
  add_connection st sock a p spawn = (st, -1, []).
Proof.
  intros Hfull. unfold add_connection.
  destruct (list_find slot_free _) as [[slot old]|] eqn:E; [|done].
  apply list_find_Some in E as (Hl & Hf & _). exfalso.
  unfold get_active_connection_count in Hfull.
  assert (length (filter (fun c => active c = true) (connections st)) < length (connections st))%nat;
    [|lia].
  apply (length_filter_lt _ _ old); [by eapply list_elem_of_lookup_2|].
  unfold slot_free in Hf. by rewrite Hf.
Qed.

(** (C4) A successful insertion: when a slot is free and the receiver
    thread starts, [add_connection] writes the first free slot with the
    next id, the socket and the endpoint, marks it live, starts the
    receiver on that slot, bumps the counter and returns the id, which
    [find_connection_by_id] then finds in that slot; no other slot
    changes. *)
Theorem add_connection_success st sock a p t :
  wf st -> get_active_connection_count st < Z.of_nat (length (connections st)) ->
  exists slot,
    let '(st', r, e) := add_connection st sock a p (Some t) in
    r = next_connection_id st /\ e = [Spawn slot] /\
    next_connection_id st' = next_connection_id st + 1 /\
    connections st' !! slot = Some (mkConnection r sock a p t true) /\
    find_connection_by_id st' r = Z.of_nat slot /\
    (forall j, j <> slot -> connections st' !! j = connections st !! j) /\
    (forall j c, (j < slot)%nat -> connections st !! j = Some c -> active c = true).
Proof.
  intros Hwf Hlt. destruct (free_slot_exists st Hlt) as (slot & old & Hfind).
  pose proof (find_free_slot _ _ _ Hfind) as (Hold & _ & Hmin).
  exists slot. unfold add_connection. rewrite Hfind. simpl.
  assert (Hlook : <[slot := mkConnection (next_connection_id st) sock a p t true]>
                    (connections st) !! slot
                  = Some (mkConnection (next_connection_id st) sock a p t true))
    by (apply list_lookup_insert_eq; eapply lookup_lt_Some; eauto).
  split_and!; try done.
  - unfold find_connection_by_id. simpl.
    erewrite (find_id_unique _ slot (mkConnection (next_connection_id st) sock a p t true));
      [done| |done|done].
    by apply (fresh_id_unique st).
  - intros j Hj. by apply list_lookup_insert_ne.
Qed.

(** (C5) [remove_connection] retires the link: afterwards no live slot
    has the id, the link's socket is closed exactly when the id was
    live, the call is a no-op when it was not, and a second call
    changes nothing and closes nothing (idempotence). *)
Theorem remove_connection_spec st k :
  wf st ->
  let '(st', e) := remove_connection st k in
  find_connection_by_id st' k = -1 /\
  (find_connection_by_id st k = -1 -> st' = st /\ e = []) /\
  (forall i c, list_find (slot_has_id k) (connections st) = Some (i, c) ->
     e = [Close (socket c)]) /\
  remove_connection st' k = (st', []).
Proof.
  intros Hwf. unfold remove_connection, find_connection_by_id.
  destruct (list_find (slot_has_id k) _) as [[i c]|] eqn:E.
  - apply list_find_lookup in E as HE. destruct HE as [Hi [Hc <-]]. simpl.
    rewrite retire_unique_gone by (apply Hwf || done). split_and!; try done.
    + intros H. lia.
    + intros ?? [=]. by subst.
  - rewrite E. simpl. split_and!; done.
Qed.


(** [print_connection_list] lists live connections in slot
    order, not in insertion order: once a retired connection's slot is
    reused, a later connection is listed before an earlier one.  Here
    connection 3, inserted after connection 2, takes the slot of the
    retired connection 1 and is listed first. *)
Lemma list_order_is_slot_order :
  print_connection_list
    (run initial_state [OpAdd 10 "10.0.0.1" 5000 (Some 1); OpAdd 11 "10.0.0.2" 5001 (Some 2);
                        OpRemove 1; OpAdd 12 "10.0.0.3" 5002 (Some 3)]).1.1
  = [ListHeader; ListEntry 3 "10.0.0.3" 5002; ListEntry 2 "10.0.0.2" 5001; ListFooter].
Proof. vm_compute. reflexivity. Qed.

(** (C22) [next_connection_id++] does not overflow: as long as fewer
    than [INT_MAX] calls of [add_connection] have been made since
    start-up, whatever else happened in between, the counter (and so
    every id handed out) is a C [int]: the signed increment of
    src/connection.c never goes past [INT_MAX]. *)
Theorem counter_bound ops :
  Z.of_nat (add_calls ops) < INT_MAX ->
  int_range (next_connection_id (run initial_state ops).1.1).
Proof.
  intros H. pose proof (run_counter_le initial_state ops).
  pose proof (run_counter_mono initial_state ops initial_wf).
  unfold int_range, INT_MIN, INT_MAX in *. simpl in *. lia.
Qed.

(** ** Witnesses *)

Lemma add_connection_full_witness :
  get_active_connection_count table_full2 = Z.of_nat (length (connections table_full2)) /\
  add_connection table_full2 12 "10.0.0.3" 5002 (Some 102) = (table_full2, -1, []).
Proof.
  split; [vm_compute; reflexivity|].
  apply add_connection_full. vm_compute. reflexivity.
Defined.

Lemma add_connection_success_witness :
  wf initial_state /\
  get_active_connection_count initial_state < Z.of_nat (length (connections initial_state)) /\
  exists slot,
    let '(st', r, e) := add_connection initial_state 7 "192.168.1.5" 4000 (Some 9) in
    r = next_connection_id initial_state /\ e = [Spawn slot] /\
    next_connection_id st' = next_connection_id initial_state + 1 /\
    connections st' !! slot = Some (mkConnection r 7 "192.168.1.5" 4000 9 true) /\
    find_connection_by_id st' r = Z.of_nat slot /\
    (forall j, j <> slot -> connections st' !! j = connections initial_state !! j) /\
    (forall j c, (j < slot)%nat -> connections initial_state !! j = Some c -> active c = true).
Proof.
  assert (Hwf : wf initial_state) by (apply wfb_wf; vm_compute; reflexivity).
  assert (Hlt : get_active_connection_count initial_state
                < Z.of_nat (length (connections initial_state))) by (vm_compute; reflexivity).
  split; [exact Hwf|]. split; [exact Hlt|].
  exact (add_connection_success initial_state 7 "192.168.1.5" 4000 9 Hwf Hlt).
Defined.

Lemma run_ids_increasing_witness :
  wf table_empty2 /\
  let '(st', ids, _) := run table_empty2
      [OpAdd 10 "10.0.0.1" 5000 (Some 1); OpRemove 1;
       OpAdd 11 "10.0.0.2" 5000 None; OpAdd 12 "10.0.0.3" 5000 (Some 2)] in
  StronglySorted Z.lt ids /\
  Forall (fun k => next_connection_id table_empty2 <= k < next_connection_id st') ids.
Proof.
  assert (Hwf : wf table_empty2) by (apply wfb_wf; vm_compute; reflexivity).
  split; [exact Hwf|]. apply run_ids_increasing; exact Hwf.
Defined.

Lemma remove_connection_spec_witness :
  wf table_full2 /\
  let '(st', e) := remove_connection table_full2 2 in
  find_connection_by_id st' 2 = -1 /\
  (find_connection_by_id table_full2 2 = -1 -> st' = table_full2 /\ e = []) /\
  (forall i c, list_find (slot_has_id 2) (connections table_full2) = Some (i, c) ->
     e = [Close (socket c)]) /\
  remove_connection st' 2 = (st', []).
Proof.
  assert (Hwf : wf table_full2) by (apply wfb_wf; vm_compute; reflexivity).
  split; [exact Hwf|]. exact (remove_connection_spec table_full2 2 Hwf).
Defined.

Lemma counter_bound_witness :
  Z.of_nat (add_calls [OpAdd 5 "10.0.0.1" 4000 (Some 7); OpRemove 1; OpCloseAll]) < INT_MAX /\
  int_range (next_connection_id
    (run initial_state [OpAdd 5 "10.0.0.1" 4000 (Some 7); OpRemove 1; OpCloseAll]).1.1).
Proof.
  assert (H : Z.of_nat (add_calls [OpAdd 5 "10.0.0.1" 4000 (Some 7); OpRemove 1; OpCloseAll])
              < INT_MAX) by (vm_compute; reflexivity).
  split; [exact H|]. exact (counter_bound _ H).
Defined.

End Registry.
