(* ===== verification/Mutex.v ===== *)
(** * [connections_mutex] and the stores of the critical sections

    [Registry] and [Threads] take each critical section of
    src/connection.c as one atomic step.  This file justifies that
    choice from a finer model.  The body of a critical section is the
    sequence of stores the C code performs on the array and on
    [next_connection_id], in program order ([cs_stores]); the loops that
    only read are folded into the choice of the slot.  A thread takes
    [connections_mutex] ([pthread_mutex_lock]), performs its stores one
    at a time, interleaved with the steps of the other threads, and
    releases it ([pthread_mutex_unlock]).  Other threads may meanwhile
    read a field without the lock, as the C code does for
    [connections[slot].id] (the result of [add_connection]) and
    [conn->socket] ([cmd_send]).

    The theorems: the stores of each critical section compute the
    atomic function of [Registry] ([cs_stores_exec]); in every
    interleaving of the locked model at most one thread is inside a
    critical section, the table at every point where the mutex is free
    is the table of the atomic sequence of the critical sections in the
    order the lock was taken, and a read of [id] or [socket] without the
    lock returns the value that the atomic model gives just before or
    just after the critical section it overlaps. *)

From S2P Require Import Prelude Registry.
Import Registry.

Module Mutex.

(** ** Fields and stores *)

Inductive field := FId | FSocket | FIp | FPort | FThread | FActive.

#[export] Instance field_eq_dec : EqDecision field.
Proof. solve_decision. Defined.

Inductive value := VInt (z : Z) | VStr (s : string) | VBool (b : bool).

#[export] Instance value_eq_dec : EqDecision value.
Proof. solve_decision. Defined.

Definition get_field (c : Connection) (f : field) : value :=
  match f with
  | FId => VInt (id c)
  | FSocket => VInt (socket c)
  | FIp => VStr (ip c)
  | FPort => VInt (port c)
  | FThread => VInt (thread c)
  | FActive => VBool (active c)
  end.

(** [connections[i].f = v]; [strcpy] for [ip]. *)
Definition set_field (c : Connection) (f : field) (v : value) : Connection :=
  match f, v with
  | FId, VInt z => mkConnection z (socket c) (ip c) (port c) (thread c) (active c)
  | FSocket, VInt z => mkConnection (id c) z (ip c) (port c) (thread c) (active c)
  | FIp, VStr s => mkConnection (id c) (socket c) s (port c) (thread c) (active c)
  | FPort, VInt z => mkConnection (id c) (socket c) (ip c) z (thread c) (active c)
  | FThread, VInt z => mkConnection (id c) (socket c) (ip c) (port c) z (active c)
  | FActive, VBool b => mkConnection (id c) (socket c) (ip c) (port c) (thread c) b
  | _, _ => c
  end.

#[local] Arguments set_field : simpl never.

Inductive store :=
  | SSlot (i : nat) (f : field) (v : value)   (** [connections[i].f = v] *)
  | SNext (z : Z).                            (** [next_connection_id = z] *)

Definition apply_store (st : state) (s : store) : state :=
  match s with
  | SSlot i f v =>
      mkState (alter (fun c => set_field c f v) i (connections st)) (next_connection_id st)
  | SNext z => mkState (connections st) z
  end.

Definition apply_stores (st : state) (ws : list store) : state := foldl apply_store st ws.

(** ** The bodies of the critical sections *)

(** [add_connection]: after the slot search, [connections[slot].id =
    next_connection_id++], the socket, [strcpy] of the address, the port,
    [active = 1]; then [pthread_create] stores the thread handle, or on
    failure [active = 0]. *)
Definition add_stores (st : state) (sock : Z) (a : string) (p : Z) (spawn : option Z)
    : list store :=
  match list_find slot_free (connections st) with
  | None => []
  | Some (slot, _) =>
      [SSlot slot FId (VInt (next_connection_id st)); SNext (next_connection_id st + 1);
       SSlot slot FSocket (VInt sock); SSlot slot FIp (VStr a); SSlot slot FPort (VInt p);
       SSlot slot FActive (VBool true)] ++
      match spawn with
      | Some t => [SSlot slot FThread (VInt t)]
      | None => [SSlot slot FActive (VBool false)]
      end
  end.

(** [remove_connection] and [close_connection]: [active = 0] in the
    first live slot with the id ([shutdown] and [close] touch no field). *)
Definition retire_stores (st : state) (k : Z) : list store :=
  match list_find (slot_has_id k) (connections st) with
  | None => []
  | Some (i, _) => [SSlot i FActive (VBool false)]
  end.

(** [close_all_connections]: [active = 0] in every live slot, in slot
    order, from slot [i]. *)
Fixpoint close_all_stores (i : nat) (l : list Connection) : list store :=
  match l with
  | [] => []
  | c :: l' =>
      (if active c then [SSlot i FActive (VBool false)] else []) ++ close_all_stores (S i) l'
  end.

Definition cs_stores (st : state) (o : op) : list store :=
  match o with
  | OpAdd sock a p spawn => add_stores st sock a p spawn
  | OpRemove k | OpClose k => retire_stores st k
  | OpCloseAll => close_all_stores 0 (connections st)
  end.

(** ** Lemmas on stores *)

Lemma apply_stores_app st ws1 ws2 :
  apply_stores st (ws1 ++ ws2) = apply_stores (apply_stores st ws1) ws2.
Proof. apply foldl_app. Qed.

Lemma set_field_active c : set_field c FActive (VBool false) = set_active false c.
Proof. by destruct c. Qed.

(** A store into the slot of a table whose slot holds [x]. *)
Lemma alter_lookup {A} (f : A -> A) (l : list A) (i : nat) (x : A) :
  l !! i = Some x -> alter f i l = <[i := f x]> l.
Proof.
  intros H. rewrite list_insert_alter. apply list_alter_ext; [|done]. congruence.
Qed.

Lemma alter_middle {A} (f : A -> A) (pre : list A) (x : A) (l : list A) :
  alter f (length pre) (pre ++ x :: l) = pre ++ f x :: l.
Proof. induction pre as [|y pre IH]; [done|]. cbn [length app]. rewrite <- IH. reflexivity. Qed.

Lemma close_all_stores_spec pre l n :
  apply_stores (mkState (pre ++ l) n) (close_all_stores (length pre) l) =
  mkState (pre ++ ((fun c => (close_slot c).1) <$> l)) n.
Proof.
  revert pre. induction l as [|c l IH]; intros pre; [done|]. simpl.
  destruct (active c) eqn:Ha; simpl.
  - rewrite alter_middle, set_field_active.
    replace (S (length pre)) with (length (pre ++ [set_active false c]))
      by (rewrite length_app; simpl; lia).
    rewrite cons_middle, app_assoc, IH, <- app_assoc. unfold close_slot. by rewrite Ha.
  - replace (S (length pre)) with (length (pre ++ [c])) by (rewrite length_app; simpl; lia).
    rewrite cons_middle, app_assoc, IH, <- app_assoc. unfold close_slot. by rewrite Ha.
Qed.

(** The stores of a critical section that write field [f] of slot [i]. *)
Definition targets (i : nat) (f : field) (s : store) : Prop :=
  match s with SSlot j g _ => j = i /\ g = f | SNext _ => False end.

#[export] Instance targets_dec i f s : Decision (targets i f s).
Proof. destruct s; simpl; apply _. Defined.

(** Field [f] of slot [i], as a thread reads it. *)
Definition read_field (st : state) (i : nat) (f : field) : option value :=
  (fun c => get_field c f) <$> connections st !! i.

(** The fields the C code reads without holding the mutex:
    [connections[slot].id] at the end of [add_connection] and
    [conn->socket] in [cmd_send]. *)
Definition unlocked_field (f : field) : Prop := f = FId \/ f = FSocket.

Lemma get_set_other c f g v : g <> f -> get_field (set_field c g v) f = get_field c f.
Proof. intros H. destruct f, g, v; unfold set_field; simpl; congruence. Qed.

Lemma read_apply_store st s i f :
  ~ targets i f s -> read_field (apply_store st s) i f = read_field st i f.
Proof.
  intros Ht. unfold read_field. destruct s as [j g v|z]; simpl; [|done].
  rewrite list_lookup_alter. case_decide as Hj; [subst j|done].
  destruct (connections st !! i) as [c|]; simpl; [|done].
  rewrite get_set_other; [done|]. intros <-. by apply Ht.
Qed.

(** Stores that do not write a field leave it as it was. *)
Lemma read_apply_stores st ws i f :
  Forall (fun s => ~ targets i f s) ws -> read_field (apply_stores st ws) i f = read_field st i f.
Proof.
  revert st. induction ws as [|s ws IH]; intros st H; [done|].
  apply Forall_cons in H as [Hs H]. unfold apply_stores. simpl. fold (apply_stores (apply_store st s) ws).
  rewrite IH by done. by apply read_apply_store.
Qed.

Lemma filter_nil_Forall ws i f :
  filter (targets i f) ws = [] -> Forall (fun s => ~ targets i f s) ws.
Proof.
  induction ws as [|s ws IH]; intros H; constructor; rewrite filter_cons in H;
    case_decide; simplify_eq; auto.
Qed.

(** If a body writes a field at most once, any intermediate state of the
    body agrees on that field with its start or with its end. *)
Lemma read_prefix st ws k i f :
  (length (filter (targets i f) ws) <= 1)%nat ->
  read_field (apply_stores st (take k ws)) i f = read_field st i f \/
  read_field (apply_stores st (take k ws)) i f = read_field (apply_stores st ws) i f.
Proof.
  intros H. rewrite <- (take_drop k ws) in H. rewrite filter_app, length_app in H.
  destruct (filter (targets i f) (take k ws)) eqn:E1.
  - left. apply read_apply_stores, filter_nil_Forall, E1.
  - right. destruct (filter (targets i f) (drop k ws)) eqn:E2; [|simpl in H; lia].
    rewrite <- (take_drop k ws) at 2. rewrite apply_stores_app.
    symmetry. apply read_apply_stores, filter_nil_Forall, E2.
Qed.

(** ** The bodies compute the atomic critical sections *)

Lemma add_stores_exec st sock a p spawn :
  apply_stores st (add_stores st sock a p spawn) = (add_connection st sock a p spawn).1.1.
Proof.
  unfold add_stores, add_connection.
  destruct (list_find slot_free (connections st)) as [[slot old]|] eqn:E; [|done].
  apply list_find_Some in E as [E _].
  destruct spawn as [t|]; unfold apply_stores; simpl; rewrite !list_alter_alter_eq;
    erewrite alter_lookup by exact E; reflexivity.
Qed.

Lemma retire_stores_exec st k :
  apply_stores st (retire_stores st k) = (remove_connection st k).1 /\
  apply_stores st (retire_stores st k) = (close_connection st k).1.
Proof.
  unfold retire_stores, remove_connection, close_connection.
  destruct (list_find _ _) as [[i c]|] eqn:E; [|done].
  apply list_find_Some in E as [E _]. unfold apply_stores. simpl.
  erewrite alter_lookup by exact E. by rewrite set_field_active.
Qed.

(** The stores of each critical section, run in program order, give
    the table of the atomic step. *)
Lemma apply_cs_stores st o : apply_stores st (cs_stores st o) = (exec_op st o).1.1.
Proof.
  destruct o as [sock a p spawn|k|k|]; simpl.
  - apply add_stores_exec.
  - destruct (retire_stores_exec st k) as [-> _]. by destruct (remove_connection st k).
  - destruct (retire_stores_exec st k) as [_ ->]. by destruct (close_connection st k).
  - destruct st as [l n]. apply (close_all_stores_spec [] l n).
Qed.


Lemma Forall_filter_nil (P : store -> Prop) `{!forall s, Decision (P s)} ws :
  Forall (fun s => ~ P s) ws -> filter P ws = [].
Proof. induction 1; [done|]. rewrite filter_cons. by case_decide. Qed.

Lemma close_all_stores_active n l i f :
  f <> FActive -> Forall (fun s => ~ targets i f s) (close_all_stores n l).
Proof.
  intros Hf. revert n. induction l as [|c l IH]; intros n; simpl; [done|].
  apply Forall_app. split; [|apply IH]. destruct (active c); repeat constructor.
  simpl. naive_solver.
Qed.

(** A body writes [id] and [socket] of a slot at most once. *)
Lemma cs_stores_once st o i f :
  unlocked_field f -> (length (filter (targets i f) (cs_stores st o)) <= 1)%nat.
Proof.
  intros Hf. assert (Ha : f <> FActive) by (destruct Hf; by subst).
  destruct o as [sock a p spawn|k|k|]; simpl.
  - unfold add_stores. destruct (list_find _ _) as [[slot ?]|]; [|simpl; lia].
    destruct spawn; destruct Hf; subst f; simpl; rewrite !filter_cons, filter_nil;
      repeat case_decide; simpl in *; destruct_and?; simplify_eq; simpl; lia.
  - unfold retire_stores. destruct (list_find _ _) as [[??]|]; simpl; [|lia].
    rewrite filter_cons, filter_nil. case_decide; simpl in *; [naive_solver|lia].
  - unfold retire_stores. destruct (list_find _ _) as [[??]|]; simpl; [|lia].
    rewrite filter_cons, filter_nil. case_decide; simpl in *; [naive_solver|lia].
  - rewrite Forall_filter_nil; [simpl; lia|]. by apply close_all_stores_active.
Qed.

(** ** The locked interleavings *)

(** The threads are numbered.  [f_cs] holds the threads inside a
    critical section, with the stores of their body still to do;
    [f_reads] records every read done without the mutex: the number of
    critical sections entered by then, the slot, the field and the
    value read. *)
Record fconfig := mkF {
  f_st : state;
  f_owner : option nat;
  f_cs : gmap nat (list store);
  f_ops : list op;
  f_reads : list (nat * nat * field * option value)
}.

Inductive flabel :=
  | FLock (t : nat) (o : op)                 (** [pthread_mutex_lock], then the body of [o] *)
  | FStore (t : nat)                         (** the next store of the body of [t] *)
  | FUnlock (t : nat)                        (** [pthread_mutex_unlock] after the body *)
  | FRead (t : nat) (i : nat) (f : field).   (** [connections[i].f] read without the mutex *)

(** [pthread_mutex_lock] blocks (no step) while another thread holds the
    mutex; a thread does not lock it twice.  [pthread_mutex_unlock] is
    called by the owner once its body is done. *)
Definition fstep (fc : fconfig) (l : flabel) : option fconfig :=
  match l with
  | FLock t o =>
      match f_owner fc, f_cs fc !! t with
      | None, None =>
          Some (mkF (f_st fc) (Some t) (<[t := cs_stores (f_st fc) o]> (f_cs fc))
                    (f_ops fc ++ [o]) (f_reads fc))
      | _, _ => None
      end
  | FStore t =>
      match f_cs fc !! t with
      | Some (s :: ws) =>
          Some (mkF (apply_store (f_st fc) s) (f_owner fc) (<[t := ws]> (f_cs fc))
                    (f_ops fc) (f_reads fc))
      | _ => None
      end
  | FUnlock t =>
      match f_owner fc, f_cs fc !! t with
      | Some t', Some [] =>
          if decide (t' = t)
          then Some (mkF (f_st fc) None (delete t (f_cs fc)) (f_ops fc) (f_reads fc))
          else None
      | _, _ => None
      end
  | FRead _ i f =>
      Some (mkF (f_st fc) (f_owner fc) (f_cs fc) (f_ops fc)
                ((length (f_ops fc), i, f, read_field (f_st fc) i f) :: f_reads fc))
  end.

Fixpoint fexec_all (fc : fconfig) (ls : list flabel) : option fconfig :=
  match ls with
  | [] => Some fc
  | l :: ls' => fc' ← fstep fc l; fexec_all fc' ls'
  end.

Definition fstart (st : state) : fconfig := mkF st None ∅ [] [].

(** ** The locked interleavings refine the atomic critical sections *)

Section Refinement.

(** The table at start-up. *)
Variable st0 : state.

(** Where a read done without the mutex, after [k] critical sections
    were entered, lands: on the field in the atomic state after the
    first [k] critical sections, or, while the [k]-th one is running, in
    the atomic state before it. *)
Definition read_ok (ops : list op) (r : nat * nat * field * option value) : Prop :=
  let '(k, i, f, v) := r in
  (k <= length ops)%nat /\
  (unlocked_field f ->
     v = read_field (run st0 (take k ops)).1.1 i f \/
     exists k', k = S k' /\ v = read_field (run st0 (take k' ops)).1.1 i f).

Record finv (fc : fconfig) : Prop := {
  fi_excl : forall t ws, f_cs fc !! t = Some ws -> f_owner fc = Some t;
  fi_owner : forall t, f_owner fc = Some t -> is_Some (f_cs fc !! t);
  fi_free : f_owner fc = None -> f_st fc = (run st0 (f_ops fc)).1.1;
  fi_body : forall t ws, f_cs fc !! t = Some ws ->
    exists ops' o done, f_ops fc = ops' ++ [o] /\
      cs_stores (run st0 ops').1.1 o = done ++ ws /\
      f_st fc = apply_stores (run st0 ops').1.1 done;
  fi_reads : Forall (read_ok (f_ops fc)) (f_reads fc)
}.

Lemma read_ok_snoc ops o r : read_ok ops r -> read_ok (ops ++ [o]) r.
Proof.
  destruct r as [[[k i] f] v]. simpl. rewrite length_app. intros [Hk Hr]. split; [lia|].
  rewrite !take_app_le by lia. intros Hf. destruct (Hr Hf) as [?|(k' & -> & ?)]; [by left|].
  right. exists k'. rewrite take_app_le by lia. done.
Qed.

Lemma finv_start : finv (fstart st0).
Proof. split; simpl; try done. Qed.

Lemma finv_lock fc t o fc' :
  finv fc -> fstep fc (FLock t o) = Some fc' -> finv fc'.
Proof.
  intros [Hx Ho Hf Hb Hr] H. simpl in H.
  destruct (f_owner fc) eqn:Eo, (f_cs fc !! t) eqn:Et; simplify_eq/=.
  assert (Hnone : forall u ws, f_cs fc !! u = Some ws -> False)
    by (intros u ws Hu; specialize (Hx u ws Hu); congruence).
  split; simpl.
  - intros u ws Hu. apply lookup_insert_Some in Hu as [[-> _]|[_ Hu]]; [done|naive_solver].
  - intros u [= <-]. rewrite lookup_insert_eq. eauto.
  - done.
  - intros u ws Hu. apply lookup_insert_Some in Hu as [[-> <-]|[_ Hu]]; [|naive_solver].
    exists (f_ops fc), o, []. rewrite <- Hf by done. done.
  - eapply Forall_impl; [exact Hr|]. intros r. apply read_ok_snoc.
Qed.

Lemma finv_store fc t fc' :
  finv fc -> fstep fc (FStore t) = Some fc' -> finv fc'.
Proof.
  intros [Hx Ho Hf Hb Hr] H. simpl in H.
  destruct (f_cs fc !! t) as [[|s ws]|] eqn:Et; simplify_eq/=.
  pose proof (Hx t _ Et) as Hot.
  split; simpl; [| |congruence| |done].
  - intros u ws' Hu. apply lookup_insert_Some in Hu as [[-> _]|[_ Hu]]; eauto.
  - intros u Hu. rewrite lookup_insert. case_decide; [done|]. eauto.
  - intros u ws' Hu. apply lookup_insert_Some in Hu as [[<- <-]|[Hne Hu]].
    + destruct (Hb t _ Et) as (ops' & o & done & Hops & Hcs & Hst).
      exists ops', o, (done ++ [s]). rewrite <- app_assoc. split_and!; [done|done|].
      rewrite apply_stores_app, Hst. done.
    + pose proof (Hx u _ Hu). congruence.
Qed.

Lemma finv_unlock fc t fc' :
  finv fc -> fstep fc (FUnlock t) = Some fc' -> finv fc'.
Proof.
  intros [Hx Ho Hf Hb Hr] H. simpl in H.
  destruct (f_owner fc) as [t'|] eqn:Eo; [|done].
  destruct (f_cs fc !! t) as [[|]|] eqn:Et; try done. case_decide; simplify_eq/=.
  assert (Hgone : forall u ws, delete t (f_cs fc) !! u = Some ws -> False).
  { intros u ws Hu. apply lookup_delete_Some in Hu as [Hne Hu].
    pose proof (Hx u _ Hu). congruence. }
  split; simpl; try done; try naive_solver.
  intros _. destruct (Hb t _ Et) as (ops' & o & done & -> & Hcs & ->).
  rewrite app_nil_r in Hcs. rewrite <- Hcs, apply_cs_stores. symmetry. apply run_snoc.
Qed.

Lemma finv_read fc t i f fc' :
  finv fc -> fstep fc (FRead t i f) = Some fc' -> finv fc'.
Proof.
  intros Hi H. pose proof Hi as [Hx Ho Hf Hb Hr]. simpl in H. simplify_eq.
  split; simpl; try done. constructor; [|done].
  split; [done|]. intros Hu.
  destruct (f_owner fc) as [t'|] eqn:Eo.
  - destruct (Ho t' eq_refl) as [ws Ht].
    destruct (Hb t' ws Ht) as (ops' & o & done & Hops & Hcs & Hst).
    pose proof (cs_stores_once (run st0 ops').1.1 o i f Hu) as Hone. rewrite Hcs in Hone.
    destruct (read_prefix (run st0 ops').1.1 (done ++ ws) (length done) i f Hone) as [Hl|Hl];
      rewrite take_app_length in Hl; rewrite Hst, Hl, Hops.
    + right. exists (length ops'). rewrite length_app, take_app_length. simpl. split; [lia|done].
    + left. rewrite <- Hcs, apply_cs_stores, take_ge by lia. by rewrite run_snoc.
  - left. rewrite take_ge by lia. by rewrite Hf.
Qed.

Lemma fstep_finv fc l fc' : finv fc -> fstep fc l = Some fc' -> finv fc'.
Proof.
  destruct l; eauto using finv_lock, finv_store, finv_unlock, finv_read.
Qed.

Lemma fexec_all_finv fc ls fc' : finv fc -> fexec_all fc ls = Some fc' -> finv fc'.
Proof.
  revert fc. induction ls as [|l ls IH]; intros fc Hi H; simpl in H; [by simplify_eq|].
  destruct (fstep fc l) as [fc1|] eqn:E; [|done]. simpl in H. eauto using fstep_finv.
Qed.

End Refinement.

(** ** The properties *)

(** The critical sections store what the atomic model says: for
    every operation of the table and every state, the stores of its
    body, made one by one in the order of src/connection.c, leave the
    table [Registry] computes in one step; and the body stores the
    [id] and the [socket] of a slot at most once. *)
Theorem cs_stores_exec st o :
  apply_stores st (cs_stores st o) = (exec_op st o).1.1 /\
  forall i f, unlocked_field f -> (length (filter (targets i f) (cs_stores st o)) <= 1)%nat.
Proof. split; [apply apply_cs_stores|intros i f; apply cs_stores_once]. Qed.

(** (C8) [connections_mutex] makes the critical sections atomic.  In
    every interleaving of threads that take the mutex, store one field
    at a time and release it, with reads done without the mutex in
    between: at most one thread is inside a critical section, and it
    holds the mutex; whenever the mutex is free, the table is the one
    the atomic critical sections of [Registry] produce, run in the order
    the mutex was taken; and every read of [connections[i].id] or
    [connections[i].socket] without the mutex returns the value of the
    atomic model after the critical sections entered so far, or before
    the one still running. *)
Theorem locked_refines_atomic st0 ls fc :
  fexec_all (fstart st0) ls = Some fc ->
  (forall t ws, f_cs fc !! t = Some ws -> f_owner fc = Some t) /\
  (f_owner fc = None -> f_st fc = (run st0 (f_ops fc)).1.1) /\
  Forall (fun '(k, i, f, v) => unlocked_field f ->
            v = read_field (run st0 (take k (f_ops fc))).1.1 i f \/
            exists k', k = S k' /\ v = read_field (run st0 (take k' (f_ops fc))).1.1 i f)
         (f_reads fc).
Proof.
  intros H. destruct (fexec_all_finv st0 _ _ _ (finv_start st0) H) as [Hx _ Hf _ Hr].
  split_and!; [done|done|]. eapply Forall_impl; [exact Hr|].
  intros [[[k i] f] v] [_ Hv]. exact Hv.
Qed.

(** ** Witnesses *)

(** Thread 1 runs [add_connection] (7 stores); thread 2 reads the id
    and the socket of slot 0 in the middle; then thread 2 runs
    [close_all_connections] and thread 1 reads the socket again. *)
Definition sched_locked : list flabel :=
  [FLock 1 (OpAdd 7 "10.0.0.1" 4000 (Some 9)); FStore 1; FRead 2 0 FId; FStore 1; FStore 1;
   FRead 2 0 FSocket; FStore 1; FStore 1; FStore 1; FStore 1; FUnlock 1;
   FLock 2 OpCloseAll; FStore 2; FUnlock 2; FRead 1 0 FSocket].

Lemma locked_refines_atomic_witness :
  exists fc, fexec_all (fstart initial_state) sched_locked = Some fc /\
  (forall t ws, f_cs fc !! t = Some ws -> f_owner fc = Some t) /\
  (f_owner fc = None -> f_st fc = (run initial_state (f_ops fc)).1.1) /\
  Forall (fun '(k, i, f, v) => unlocked_field f ->
            v = read_field (run initial_state (take k (f_ops fc))).1.1 i f \/
            exists k', k = S k' /\ v = read_field (run initial_state (take k' (f_ops fc))).1.1 i f)
         (f_reads fc).
Proof.
  destruct (fexec_all (fstart initial_state) sched_locked) as [fc|] eqn:E;
    [|vm_compute in E; discriminate].
  exists fc. split; [reflexivity|]. exact (locked_refines_atomic initial_state sched_locked fc E).
Defined.

End Mutex.
