(* ===== verification/Abstract.v ===== *)
(** * The registry the specification promises, and the refinement

    Section 4.1 of the specification describes the connection registry
    abstractly: a bounded collection of links keyed by a process-unique
    id, each with its endpoint, and a counter that draws fresh ids.
    [areg] is that collection as a finite map; the [a_*] functions are
    its operations.  [abs] reads a table of [Registry] as an [areg]: the
    live slots, keyed by their id.  The refinement theorem says that
    every critical section of src/connection.c, read through [abs], is
    the corresponding abstract operation. *)

From S2P Require Import Prelude Registry.
Import Registry.

#[local] Set Warnings "-clear-no-such-hyp".

Module Abstract.

(** An endpoint: IPv4 literal and port. *)
Abbreviation endpoint := (string * Z)%type.

Record areg := mkAreg {
  links : gmap Z endpoint;
  next_id : Z;
  capacity : nat
}.

(** [insert(handle, endpoint) -> id | Full]. *)
Definition a_insert (r : areg) (e : endpoint) : areg * option Z :=
  if decide (size (links r) < capacity r)%nat
  then (mkAreg (<[next_id r := e]> (links r)) (next_id r + 1) (capacity r), Some (next_id r))
  else (r, None).

(** An insertion that fails after the id was drawn (the receiver task
    could not be started): the id is spent, no link is added. *)
Definition a_insert_error (r : areg) : areg * option Z :=
  if decide (size (links r) < capacity r)%nat
  then (mkAreg (links r) (next_id r + 1) (capacity r), None)
  else (r, None).

(** [remove(id)]: no-op when absent. *)
Definition a_remove (r : areg) (k : Z) : areg :=
  mkAreg (delete k (links r)) (next_id r) (capacity r).

(** [closeAll()]. *)
Definition a_close_all (r : areg) : areg := mkAreg ∅ (next_id r) (capacity r).

(** [findById(id)] and [findByEndpoint(endpoint)]. *)
Definition a_find_by_id (r : areg) (k : Z) : option endpoint := links r !! k.
Definition a_find_by_endpoint (r : areg) (e : endpoint) : bool :=
  bool_decide (e ∈ map_img (SA := gset endpoint) (links r)).

(** The abstract counterpart of one critical section of [Registry.op],
    with the [int] the concrete one returns. *)
Definition a_exec (r : areg) (o : op) : areg * option Z :=
  match o with
  | OpAdd _ a p (Some _) => a_insert r (a, p)
  | OpAdd _ _ _ None => a_insert_error r
  | OpRemove k | OpClose k => (a_remove r k, None)
  | OpCloseAll => (a_close_all r, None)
  end.

(** A sequence of abstract operations, with the ids handed out. *)
Fixpoint a_run (r : areg) (ops : list op) : areg * list Z :=
  match ops with
  | [] => (r, [])
  | o :: ops' =>
      let '(r1, x) := a_exec r o in
      let '(r2, ids) := a_run r1 ops' in
      (r2, option_list x ++ ids)
  end.

(** ** The abstraction function *)

Definition entry (c : Connection) : Z * endpoint := (id c, (ip c, port c)).

Definition abs (st : state) : areg :=
  mkAreg (list_to_map (entry <$> filter (fun c => active c = true) (connections st)))
         (next_connection_id st) (length (connections st)).

(** The integer an operation returns, as an option. *)
Definition ret (r : Z) : option Z := if decide (r = -1) then None else Some r.

(** [l] holds a live slot with id [k] and endpoint [e]. *)
Definition holds (l : list Connection) (k : Z) (e : endpoint) : Prop :=
  exists j c, l !! j = Some c /\ active c = true /\ id c = k /\ e = (ip c, port c).


(** ** The abstraction function, slot by slot *)

Lemma entry_keys (l : list Connection) :
  (entry <$> filter (fun c => active c = true) l).*1 = id <$> filter (fun c => active c = true) l.
Proof. rewrite <- list_fmap_compose. done. Qed.

Lemma holds_iff_elem (l : list Connection) k e :
  holds l k e <-> (k, e) ∈ entry <$> filter (fun c => active c = true) l.
Proof.
  unfold holds. rewrite list_elem_of_fmap. split.
  - intros (j & c & Hj & Hc & <- & ->). exists c. split; [done|].
    apply list_elem_of_filter. split; [done|]. by eapply list_elem_of_lookup_2.
  - intros (c & [=-> ->] & (Hc & Hin)%list_elem_of_filter).
    apply list_elem_of_lookup in Hin as [j Hj]. by exists j, c.
Qed.

(** Under the invariant, the abstract map holds exactly the live slots. *)
Lemma abs_lookup st k e :
  wf st -> links (abs st) !! k = Some e <-> holds (connections st) k e.
Proof.
  intros Hwf. simpl. rewrite holds_iff_elem. symmetry. apply elem_of_list_to_map.
  rewrite entry_keys. apply NoDup_unique_on, Hwf.
Qed.

Lemma abs_links_eq st m :
  wf st -> (forall k e, holds (connections st) k e <-> m !! k = Some e) ->
  links (abs st) = m.
Proof.
  intros Hwf Hm. apply map_eq. intros k. apply option_eq. intros e.
  rewrite abs_lookup by done. apply Hm.
Qed.

Lemma abs_size st :
  wf st -> size (links (abs st)) = Z.to_nat (get_active_connection_count st).
Proof.
  intros Hwf. unfold get_active_connection_count. simpl.
  rewrite map_size_list_to_map, length_fmap; [lia|].
  rewrite entry_keys. apply NoDup_unique_on, Hwf.
Qed.

(** The live slots of a table after one slot is overwritten. *)
Lemma holds_insert (l : list Connection) i x k e :
  holds (<[i := x]> l) k e <->
  ((i < length l)%nat /\ active x = true /\ id x = k /\ e = (ip x, port x)) \/
  (exists j c, j <> i /\ l !! j = Some c /\ active c = true /\ id c = k /\ e = (ip c, port c)).
Proof.
  unfold holds. split.
  - intros (j & c & Hj & Hc).
    apply list_lookup_insert_Some in Hj as [[-> [-> Hlt]]|[Hji Hj]]; [by left|].
    right. by exists j, c.
  - intros [(Hlt & Hx)|(j & c & Hji & Hj & Hc)].
    + exists i, x. split; [by apply list_lookup_insert_eq|done].
    + exists j, c. split; [by rewrite list_lookup_insert_ne|done].
Qed.

(** Overwriting a free slot with a free slot changes no live link. *)
Lemma holds_insert_free (l : list Connection) i old x k e :
  l !! i = Some old -> active old = false -> active x = false ->
  holds (<[i := x]> l) k e <-> holds l k e.
Proof.
  intros Hi Hold Hx. rewrite holds_insert. split.
  - intros [(_ & Hx' & _)|(j & c & _ & Hc)]; [congruence|]. by exists j, c.
  - intros (j & c & Hj & Hc & Hrest). right. exists j, c. split; [|by split].
    intros ->. congruence.
Qed.



(** Writing a live entry into a free slot adds exactly that link. *)
Lemma holds_insert_live (l : list Connection) i old x k e :
  l !! i = Some old -> active old = false -> active x = true ->
  holds (<[i := x]> l) k e <-> (id x = k /\ e = (ip x, port x)) \/ holds l k e.
Proof.
  intros Hi Hold Hx. rewrite holds_insert. split.
  - intros [(_ & _ & Hk)|(j & c & _ & Hc)]; [by left|]. right. by exists j, c.
  - intros [Hk|(j & c & Hj & Hc & Hrest)].
    + left. split_and!; [by eapply lookup_lt_Some|done|apply Hk..].
    + right. exists j, c. split; [|by split]. intros ->. congruence.
Qed.

(** Retiring the live slot of id [id c] removes exactly that link. *)
Lemma holds_retire (l : list Connection) i c k e :
  unique_on (fun c => active c = true) id l -> l !! i = Some c -> active c = true ->
  holds (<[i := set_active false c]> l) k e <-> k <> id c /\ holds l k e.
Proof.
  intros Hu Hi Hc. rewrite holds_insert. split.
  - intros [(_ & Hx & _)|(j & y & Hji & Hj & Hy & Hk & He)]; [done|].
    split; [|by exists j, y]. intros ->. by apply Hji, (Hu j i y c).
  - intros [Hk (j & y & Hj & Hy & Hyk & He)]. right. exists j, y.
    split_and!; try done. intros ->. congruence.
Qed.

Lemma next_id_abs st : next_id (abs st) = next_connection_id st.
Proof. reflexivity. Qed.
Lemma capacity_abs st : capacity (abs st) = length (connections st).
Proof. reflexivity. Qed.

Lemma abs_mk st m n cap :
  links (abs st) = m -> next_connection_id st = n -> length (connections st) = cap ->
  abs st = mkAreg m n cap.
Proof. intros <- <- <-. reflexivity. Qed.

Lemma abs_add_some st sock a p t :
  wf st ->
  let '(st', r, _) := add_connection st sock a p (Some t) in
  (abs st', ret r) = a_insert (abs st) (a, p).
Proof.
  intros Hwf. pose proof (add_connection_wf st sock a p (Some t) Hwf) as Hwf'.
  unfold a_insert. rewrite abs_size, next_id_abs, capacity_abs by done.
  unfold add_connection in *.
  destruct (list_find slot_free _) as [[slot old]|] eqn:E; cbn [fst snd] in Hwf' |- *.
  - pose proof (find_free_slot _ _ _ E) as (Hold & Hinact & _).
    pose proof (wf_next _ Hwf) as Hn. pose proof (wf_ids _ Hwf) as Hids.
    rewrite decide_True.
    2:{ unfold get_active_connection_count.
        pose proof (length_filter_lt (fun c => active c = true) (connections st) old
                      ltac:(by eapply list_elem_of_lookup_2) ltac:(congruence)). lia. }
    unfold ret. rewrite decide_False by lia. f_equal. apply abs_mk; [|done|].
    + apply (abs_links_eq _ _ Hwf'). intros k e. cbn [connections].
      rewrite (holds_insert_live _ _ old) by done. rewrite lookup_insert.
      case_decide as Hk.
      * subst k. split; [intros [[_ ->]|(j & c & Hj & Hc & Hid & _)]; [done|]|naive_solver].
        specialize (Hids j c Hj Hc). lia.
      * rewrite abs_lookup by done. naive_solver.
    + apply length_insert.
  - apply find_free_None_iff, filter_active_all in E.
    rewrite decide_False; [done|]. unfold get_active_connection_count. rewrite E. lia.
Qed.


Lemma abs_add_none st sock a p :
  wf st ->
  let '(st', r, _) := add_connection st sock a p None in
  (abs st', ret r) = a_insert_error (abs st).
Proof.
  intros Hwf. pose proof (add_connection_wf st sock a p None Hwf) as Hwf'.
  unfold a_insert_error. rewrite abs_size, next_id_abs, capacity_abs by done.
  unfold add_connection in *.
  destruct (list_find slot_free _) as [[slot old]|] eqn:E; cbn [fst snd] in Hwf' |- *.
  - pose proof (find_free_slot _ _ _ E) as (Hold & Hinact & _).
    rewrite decide_True.
    2:{ unfold get_active_connection_count.
        pose proof (length_filter_lt (fun c => active c = true) (connections st) old
                      ltac:(by eapply list_elem_of_lookup_2) ltac:(congruence)). lia. }
    f_equal. apply abs_mk; [|done|apply length_insert].
    apply (abs_links_eq _ _ Hwf'). intros k e. cbn [connections].
    rewrite (holds_insert_free _ _ old) by done. by rewrite abs_lookup.
  - apply find_free_None_iff, filter_active_all in E.
    rewrite decide_False; [done|]. unfold get_active_connection_count. rewrite E. lia.
Qed.

(** Retiring the slot [list_find] returns for [k] is [a_remove k]. *)
Lemma abs_retire st k i c :
  wf st -> list_find (slot_has_id k) (connections st) = Some (i, c) ->
  abs (mkState (<[i := set_active false c]> (connections st)) (next_connection_id st))
  = a_remove (abs st) k.
Proof.
  intros Hwf E. apply list_find_lookup in E as [Hi [Hc <-]].
  apply abs_mk; [|done|apply length_insert].
  apply (abs_links_eq _ _ (retire_wf st i c Hwf)). intros k e. cbn [connections].
  rewrite holds_retire by (apply Hwf || done).
  rewrite lookup_delete. case_decide; [naive_solver|]. rewrite abs_lookup by done. naive_solver.
Qed.

Lemma abs_absent st k :
  wf st -> list_find (slot_has_id k) (connections st) = None -> abs st = a_remove (abs st) k.
Proof.
  intros Hwf E. unfold a_remove. rewrite delete_id; [by destruct st|].
  apply eq_None_not_Some. intros [e He%abs_lookup]; [|done].
  destruct He as (j & c & Hj & Hc & Hk & _). by eapply find_id_None_iff.
Qed.

Lemma abs_remove st k : wf st -> abs (remove_connection st k).1 = a_remove (abs st) k.
Proof.
  intros Hwf. unfold remove_connection.
  destruct (list_find _ _) as [[i c]|] eqn:E; [by apply abs_retire|by apply abs_absent].
Qed.

Lemma abs_close st k : wf st -> abs (close_connection st k).1 = a_remove (abs st) k.
Proof.
  intros Hwf. unfold close_connection.
  destruct (list_find _ _) as [[i c]|] eqn:E; [by apply abs_retire|by apply abs_absent].
Qed.

Lemma abs_close_all st : abs (close_all_connections st).1 = a_close_all (abs st).
Proof.
  unfold abs, a_close_all. simpl. rewrite length_fmap. f_equal.
  rewrite filter_inactive; [done|]. apply Forall_fmap, Forall_forall.
  intros c _. apply close_slot_inactive.
Qed.

Lemma exec_op_abs st o :
  wf st -> let '(st', r, _) := exec_op st o in (abs st', ret r) = a_exec (abs st) o.
Proof.
  intros Hwf. destruct o as [sock a p [t|]|k|k|]; unfold exec_op, a_exec.
  - by apply abs_add_some.
  - by apply abs_add_none.
  - pose proof (abs_remove st k Hwf). destruct (remove_connection st k). by f_equal.
  - pose proof (abs_close st k Hwf). destruct (close_connection st k). by f_equal.
  - pose proof (abs_close_all st). destruct (close_all_connections st). by f_equal.
Qed.

Lemma option_list_ret r : option_list (ret r) = if decide (r = -1) then [] else [r].
Proof. unfold ret. by case_decide. Qed.

(** (C6) Refinement: along any sequence of critical sections from a
    well-formed table, the table read through [abs] evolves as the
    abstract registry of the specification does under the
    corresponding operations, and the ids [add_connection] returns are
    the ids the abstract [insert] returns. *)
Theorem run_refines st ops :
  wf st ->
  let '(st', ids, _) := run st ops in (abs st', ids) = a_run (abs st) ops.
Proof.
  revert st. induction ops as [|o ops IH]; intros st Hwf; [done|].
  rewrite run_cons. simpl a_run. pose proof (exec_op_abs st o Hwf) as Ho.
  pose proof (exec_op_wf st o Hwf) as Hwf1.
  destruct (exec_op st o) as [[st1 r] e1]. cbn [fst] in Hwf1. rewrite <- Ho.
  specialize (IH st1 Hwf1). destruct (run st1 ops) as [[st2 ids] e2].
  rewrite <- IH. by rewrite option_list_ret.
Qed.


(** (C7) The lookups answer what the abstract registry holds: under the
    invariant, [find_connection_by_id] finds a slot exactly when the id
    is a live link, and that slot carries the link's endpoint;
    [find_connection_by_address] finds a slot exactly when some live
    link has the endpoint. *)
Theorem lookups_refine st k a p :
  wf st ->
  (forall i, find_connection_by_id st k = Z.of_nat i ->
     exists c, connections st !! i = Some c /\ a_find_by_id (abs st) k = Some (ip c, port c)) /\
  (find_connection_by_id st k = -1 <-> a_find_by_id (abs st) k = None) /\
  (find_connection_by_address st a p = -1 <-> a_find_by_endpoint (abs st) (a, p) = false).
Proof.
  intros Hwf. unfold find_connection_by_id, find_connection_by_address, a_find_by_id,
    a_find_by_endpoint, slot_result. split_and!.
  - intros i. destruct (list_find _ _) as [[j c]|] eqn:E; [|lia]. intros Hj.
    apply Nat2Z.inj in Hj as <-. apply list_find_lookup in E as [Hj [Hc <-]].
    exists c. split; [done|]. apply abs_lookup; [done|]. by exists j, c.
  - destruct (list_find _ _) as [[j c]|] eqn:E; split; intros H; try lia.
    + apply list_find_lookup in E as [Hj [Hc <-]].
      assert (links (abs st) !! id c = Some (ip c, port c)) as Hl
        by (apply abs_lookup; [done|by exists j, c]).
      congruence.
    + apply eq_None_not_Some. intros [e He%abs_lookup]; [|done].
      destruct He as (i & y & Hi & Hy & Hk & _). by eapply find_id_None_iff.
  - rewrite bool_decide_eq_false, elem_of_map_img.
    destruct (list_find _ _) as [[j c]|] eqn:E; split; intros H; try lia.
    + apply list_find_lookup in E as [Hj [Hc [Ha Hp]]]. destruct H.
      exists (id c). apply abs_lookup; [done|]. exists j, c. by subst.
    + rewrite list_find_None, Forall_lookup in E. intros [k' He%abs_lookup]; [|done].
      destruct He as (i & y & Hi & Hy & _ & [= Ha Hp]).
      apply (E i y Hi). by repeat split.
Qed.

(** ** Witnesses *)

Lemma run_refines_witness :
  wf table_empty2 /\
  let '(st', ids, _) := run table_empty2
      [OpAdd 10 "10.0.0.1" 5000 (Some 1); OpAdd 11 "10.0.0.2" 5000 (Some 2);
       OpAdd 12 "10.0.0.3" 5000 (Some 3); OpRemove 1; OpAdd 13 "10.0.0.4" 5000 (Some 4)] in
  (abs st', ids) = a_run (abs table_empty2)
      [OpAdd 10 "10.0.0.1" 5000 (Some 1); OpAdd 11 "10.0.0.2" 5000 (Some 2);
       OpAdd 12 "10.0.0.3" 5000 (Some 3); OpRemove 1; OpAdd 13 "10.0.0.4" 5000 (Some 4)].
Proof.
  assert (Hwf : wf table_empty2) by (apply wfb_wf; vm_compute; reflexivity).
  split; [exact Hwf|]. apply run_refines. exact Hwf.
Defined.

Lemma lookups_refine_witness :
  wf table_full2 /\
  (forall i, find_connection_by_id table_full2 2 = Z.of_nat i ->
     exists c, connections table_full2 !! i = Some c /\
       a_find_by_id (abs table_full2) 2 = Some (ip c, port c)) /\
  (find_connection_by_id table_full2 2 = -1 <-> a_find_by_id (abs table_full2) 2 = None) /\
  (find_connection_by_address table_full2 "10.0.0.2" 5001 = -1 <->
     a_find_by_endpoint (abs table_full2) ("10.0.0.2", 5001) = false).
Proof.
  assert (Hwf : wf table_full2) by (apply wfb_wf; vm_compute; reflexivity).
  split; [exact Hwf|]. apply lookups_refine. exact Hwf.
Defined.

End Abstract.
