(* ===== verification/Command.v ===== *)
(** * The command handlers of src/command.c

    The foreground thread runs [process_command], which dispatches to
    the [cmd_*] handlers.  Each handler is a function of the process
    state [proc] (the registry and the globals of src/socket.c and
    src/main.c it reads: [local_ip], [listen_port], [listen_socket],
    [running]) and of the answers the operating system gives to the
    blocking calls it makes ([socket]/[connect] in [connect_to_peer],
    [pthread_create] in [add_connection], [send] in [send_message]).  It
    returns the new state, the calls it made outside the registry
    ([io]) and the lines it printed ([reply]).  The registry calls are
    the functions of [Registry]; run in sequence on one thread, as here,
    each of them is one critical section. *)

From S2P Require Import Prelude Validate Registry.
Import Registry Validate.

Module Command.

Record proc := mkProc {
  reg : state;
  local_ip : string;
  listen_port : Z;
  listen_socket : Z;
  running : bool
}.

Definition set_reg (P : proc) (st : state) : proc :=
  mkProc st (local_ip P) (listen_port P) (listen_socket P) (running P).

(** Calls outside the registry, in program order. *)
Inductive io :=
  | Reg (e : effect)                   (** a call a registry operation made *)
  | Connect (ip : string) (port : Z)   (** [connect] to the peer *)
  | Send (sock : Z) (msg : string)     (** [send(sock, msg, strlen(msg), 0)] *)
  | CloseSock (s : Z)                  (** [close(s)] in a handler *)
  | Bind (s port : Z)                 (** [bind] on [INADDR_ANY:port] *)
  | Listen (s backlog : Z)             (** [listen(s, backlog)] *)
  | Exit (code : Z).                   (** [exit(code)] *)

(** The lines the handlers print. *)
Inductive reply :=
  | ErrInvalidIp
  | ErrInvalidPort
  | ErrSelf
  | ErrExists (ip : string) (port : Z)
  | ErrConnectFailed (ip : string) (port : Z)
  | Connected (ip : string) (port : Z) (k : Z)
  | ErrNotFound (k : Z)
  | Terminated (k : Z)
  | ErrTooLong
  | ErrSendFailed
  | Sent (k : Z)
  | Listing (l : list line)
  | ShuttingDown
  | Goodbye.

(** The operating system's answers to the calls of
    [connect_to_peer]: the descriptor [socket] returns ([None] for
    [INVALID_SOCKET]), whether [setsockopt(SO_REUSEADDR)] succeeds and
    whether [connect] succeeds. *)
Record dial := mkDial { d_socket : option Z; d_reuse : bool; d_connected : bool }.

(** [create_socket()] of src/socket.c: a socket that [setsockopt]
    refuses is closed and [INVALID_SOCKET] returned. *)
Definition create_socket (sock : option Z) (reuse_ok : bool) : option Z * list io :=
  match sock with
  | None => (None, [])
  | Some s => if reuse_ok then (Some s, []) else (None, [CloseSock s])
  end.

(** [connect_to_peer(ip, port, &sock)] of src/socket.c: a failed
    [connect] closes the socket. *)
Definition connect_to_peer (ip : string) (port : Z) (d : dial) : option Z * list io :=
  match create_socket (d_socket d) (d_reuse d) with
  | (None, e) => (None, e)
  | (Some s, e) =>
      if d_connected d then (Some s, e ++ [Connect ip port])
      else (None, e ++ [Connect ip port; CloseSock s])
  end.

Definition reg_io (e : list effect) : list io := Reg <$> e.

(** [cmd_connect(ip, port)]. *)
Definition cmd_connect (P : proc) (ip : string) (port : Z)
    (d : dial) (spawn : option Z) : proc * list io * list reply :=
  if negb (is_valid_ip ip) then (P, [], [ErrInvalidIp])
  else if negb (is_valid_port port) then (P, [], [ErrInvalidPort])
  else if bool_decide (ip = local_ip P) && (port =? listen_port P) then (P, [], [ErrSelf])
  else if negb (find_connection_by_address (reg P) ip port =? -1)
  then (P, [], [ErrExists ip port])
  else
    match connect_to_peer ip port d with
    | (None, e) => (P, e, [ErrConnectFailed ip port])
    | (Some sock, e) =>
        let '(st', conn_id, e') := add_connection (reg P) sock ip port spawn in
        if negb (conn_id =? -1)
        then (set_reg P st', e ++ reg_io e', [Connected ip port conn_id])
        else (set_reg P st', e ++ reg_io e' ++ [CloseSock sock], [])
    end.

(** [cmd_list()]. *)
Definition cmd_list (P : proc) : list reply := [Listing (print_connection_list (reg P))].

(** [cmd_terminate(conn_id)]: a lookup, then [close_connection]. *)
Definition cmd_terminate (P : proc) (conn_id : Z) : proc * list io * list reply :=
  if find_connection_by_id (reg P) conn_id =? -1 then (P, [], [ErrNotFound conn_id])
  else
    let '(st', e) := close_connection (reg P) conn_id in
    (set_reg P st', reg_io e, [Terminated conn_id]).

(** [cmd_send(conn_id, message)]: [sent] is what [send] returned. *)
Definition cmd_send (P : proc) (conn_id : Z) (message : string) (sent : Z)
    : proc * list io * list reply :=
  if MAX_MESSAGE_LENGTH <? Z.of_nat (String.length message) then (P, [], [ErrTooLong])
  else
    match get_connection_by_id (reg P) conn_id with
    | None => (P, [], [ErrNotFound conn_id])
    | Some slot =>
        let sock := default 0 (socket <$> connections (reg P) !! slot) in
        if sent <? 0 then
          let '(st', e) := remove_connection (reg P) conn_id in
          (set_reg P st', Send sock message :: reg_io e, [ErrSendFailed])
        else (P, [Send sock message], [Sent conn_id])
    end.

(** [cmd_exit()]: clear [running], close every connection, close the
    listening socket, exit with status 0. *)
Definition cmd_exit (P : proc) : proc * list io * list reply :=
  let '(st', e) := close_all_connections (reg P) in
  (mkProc st' (local_ip P) (listen_port P) (listen_socket P) false,
   reg_io e ++ (if listen_socket P =? INVALID_SOCKET then [] else [CloseSock (listen_socket P)])
   ++ [Exit 0],
   [ShuttingDown; Goodbye]).


(** A process just started on port 8080 of 192.168.1.10, with the
    listening socket 3 and an empty table. *)
Definition proc0 : proc := mkProc initial_state "192.168.1.10" 8080 3 true.

(** The same process with the two live links of [table_full2]. *)
Definition proc2 : proc := mkProc table_full2 "192.168.1.10" 8080 3 true.

(** ** Lemmas *)

Lemma set_reg_reg P : set_reg P (reg P) = P.
Proof. by destruct P. Qed.

Lemma reg_set_reg P st : reg (set_reg P st) = st.
Proof. reflexivity. Qed.

(** A live slot with the endpoint makes [find_connection_by_address]
    succeed. *)
Lemma find_address_live st i c :
  connections st !! i = Some c -> active c = true ->
  find_connection_by_address st (ip c) (port c) <> -1.
Proof.
  intros Hi Hc. unfold find_connection_by_address, slot_result.
  destruct (list_find_elem_of (slot_has_address (ip c) (port c)) (connections st) c)
    as [[j y] E]; [by eapply list_elem_of_lookup_2|done|]. rewrite E. lia.
Qed.

Lemma find_id_retired st i c :
  wf st -> connections st !! i = Some c -> active c = true ->
  find_connection_by_id (mkState (<[i := set_active false c]> (connections st))
                                 (next_connection_id st)) (id c) = -1.
Proof.
  intros Hwf Hi Hc. unfold find_connection_by_id. simpl.
  by rewrite retire_unique_gone by (apply Hwf || done).
Qed.

Lemma find_id_none st k :
  list_find (slot_has_id k) (connections st) = None -> find_connection_by_id st k = -1.
Proof. unfold find_connection_by_id. by intros ->. Qed.

Lemma find_id_some st k i c :
  list_find (slot_has_id k) (connections st) = Some (i, c) ->
  find_connection_by_id st k = Z.of_nat i.
Proof. unfold find_connection_by_id. by intros ->. Qed.

Lemma get_id_some st k i c :
  list_find (slot_has_id k) (connections st) = Some (i, c) ->
  get_connection_by_id st k = Some i.
Proof. unfold get_connection_by_id. by intros ->. Qed.

Lemma get_id_none st k :
  find_connection_by_id st k = -1 -> get_connection_by_id st k = None.
Proof.
  unfold find_connection_by_id, get_connection_by_id, slot_result.
  destruct (list_find _ _) as [[??]|]; [lia|done].
Qed.

Lemma close_all_inactive st :
  Forall (fun c => active c = false) (connections (close_all_connections st).1).
Proof.
  simpl. apply Forall_fmap, Forall_forall. intros c _. apply close_slot_inactive.
Qed.

Lemma find_id_all_inactive st k :
  Forall (fun c => active c = false) (connections st) -> find_connection_by_id st k = -1.
Proof.
  intros H. apply find_id_none, list_find_None. eapply Forall_impl; [exact H|].
  intros c Hc [Hc' _]. congruence.
Qed.

(** ** Properties of the handlers *)

(** (C9) Duplicate outbound connections are refused (I2 on the
    [connect] path): after [cmd_connect] has connected to an endpoint,
    a second [cmd_connect] to the same endpoint reports that the
    connection exists, dials nothing and changes nothing, whatever the
    network would answer. *)
Theorem cmd_connect_twice P (ip : string) (port s t : Z) d2 spawn2 :
  wf (reg P) ->
  get_active_connection_count (reg P) < Z.of_nat (length (connections (reg P))) ->
  is_valid_ip ip = true -> is_valid_port port = true ->
  ~ (ip = local_ip P /\ port = listen_port P) ->
  find_connection_by_address (reg P) ip port = -1 ->
  let '(P1, _, r1) := cmd_connect P ip port (mkDial (Some s) true true) (Some t) in
  r1 = [Connected ip port (next_connection_id (reg P))] /\
  cmd_connect P1 ip port d2 spawn2 = (P1, [], [ErrExists ip port]).
Proof.
  intros Hwf Hlt Hip Hport Hself Hfree.
  destruct (add_connection_success _ s ip port t Hwf Hlt) as [slot Hadd].
  unfold cmd_connect at 1. rewrite Hip, Hport, Hfree. simpl.
  destruct (bool_decide (ip = local_ip P) && (port =? listen_port P)) eqn:Hs.
  { exfalso. apply Hself. apply andb_true_iff in Hs as [H1 H2].
    apply bool_decide_eq_true in H1. by apply Z.eqb_eq in H2. }
  destruct (add_connection (reg P) s ip port (Some t)) as [[st' r] e] eqn:Eadd.
  destruct Hadd as (-> & -> & _ & Hslot & _).
  pose proof (wf_next _ Hwf). rewrite (proj2 (Z.eqb_neq _ _)) by lia. simpl.
  split; [done|]. unfold cmd_connect. rewrite Hip, Hport.
  cbn [local_ip listen_port set_reg reg]. rewrite Hs. simpl.
  pose proof (find_address_live st' slot _ Hslot eq_refl) as Hex. simpl in Hex.
  by rewrite (proj2 (Z.eqb_neq _ _) Hex).
Qed.


(** (C10) [cmd_terminate] on every branch: an unknown id is reported
    and nothing changes; a live id has its socket shut down and closed
    and is reported terminated; afterwards the id is not found, and a
    second [terminate] of it reports not-found and changes nothing
    (termination is idempotent). *)
Theorem cmd_terminate_spec P k :
  wf (reg P) ->
  let '(P1, io1, r1) := cmd_terminate P k in
  (find_connection_by_id (reg P) k = -1 -> P1 = P /\ io1 = [] /\ r1 = [ErrNotFound k]) /\
  (forall i c, list_find (slot_has_id k) (connections (reg P)) = Some (i, c) ->
     io1 = [Reg (Shutdown (socket c)); Reg (Close (socket c))] /\ r1 = [Terminated k]) /\
  find_connection_by_id (reg P1) k = -1 /\
  cmd_terminate P1 k = (P1, [], [ErrNotFound k]).
Proof.
  intros Hwf. unfold cmd_terminate at 1.
  destruct (list_find (slot_has_id k) (connections (reg P))) as [[i c]|] eqn:E.
  - rewrite (find_id_some _ _ _ _ E).
    replace (Z.of_nat i =? -1) with false by (symmetry; apply Z.eqb_neq; lia). simpl.
    unfold close_connection. rewrite E. simpl.
    apply list_find_lookup in E as HE. destruct HE as [Hi [Hc <-]].
    pose proof (find_id_retired _ _ _ Hwf Hi Hc) as Hgone.
    split_and!; [lia|by intros ?? [= <- <-]|done|].
    unfold cmd_terminate. cbn [reg set_reg]. by rewrite Hgone.
  - rewrite (find_id_none _ _ E). simpl.
    split_and!; [done|by intros ?? [=]|by rewrite find_id_none|].
    unfold cmd_terminate. by rewrite find_id_none.
Qed.

(** (C11) [cmd_send] on every branch: a message longer than
    [MAX_MESSAGE_LENGTH] is refused before anything is written; an
    unknown id is reported and nothing is written; otherwise the first
    call is one [send] of the whole message on the link's socket, after
    which a failed [send] retires the link and a successful one leaves
    the registry unchanged. *)
Theorem cmd_send_spec P k msg sent :
  wf (reg P) ->
  let '(P1, io1, r1) := cmd_send P k msg sent in
  (MAX_MESSAGE_LENGTH < Z.of_nat (String.length msg) ->
     P1 = P /\ io1 = [] /\ r1 = [ErrTooLong]) /\
  (Z.of_nat (String.length msg) <= MAX_MESSAGE_LENGTH ->
     find_connection_by_id (reg P) k = -1 -> P1 = P /\ io1 = [] /\ r1 = [ErrNotFound k]) /\
  (Z.of_nat (String.length msg) <= MAX_MESSAGE_LENGTH ->
     forall i c, list_find (slot_has_id k) (connections (reg P)) = Some (i, c) ->
     head io1 = Some (Send (socket c) msg) /\
     (sent < 0 -> r1 = [ErrSendFailed] /\ find_connection_by_id (reg P1) k = -1) /\
     (0 <= sent -> P1 = P /\ io1 = [Send (socket c) msg] /\ r1 = [Sent k])).
Proof.
  intros Hwf. unfold cmd_send.
  destruct (MAX_MESSAGE_LENGTH <? _) eqn:Hlen.
  { apply Z.ltb_lt in Hlen. split_and!; [done|lia..]. }
  apply Z.ltb_ge in Hlen. destruct (list_find (slot_has_id k) (connections (reg P)))
    as [[i c]|] eqn:E.
  - rewrite (get_id_some _ _ _ _ E). apply list_find_lookup in E as HE.
    destruct HE as [Hi [Hc <-]]. rewrite Hi. simpl.
    unfold remove_connection. rewrite E. simpl.
    pose proof (find_id_some _ _ _ _ E) as Hf.
    destruct (sent <? 0) eqn:Hs; [apply Z.ltb_lt in Hs|apply Z.ltb_ge in Hs];
      (split_and!; [lia|rewrite Hf; lia|intros _ ?? [= <- <-]]).
    + split_and!; [done|intros _; split; [done|cbn [reg set_reg]; by apply find_id_retired]|lia].
    + split_and!; [done|lia|done].
  - rewrite get_id_none by (by apply find_id_none). split_and!; [lia|done|].
    by intros _ ?? [=].
Qed.

(** (C12) After [cmd_exit] every link is closed and [running] is
    cleared; the process then exits with status 0, and a [terminate] or
    a [send] of any id on the closed registry reports not-found without
    touching anything. *)
Theorem cmd_exit_spec P k msg sent :
  let '(P1, io1, r1) := cmd_exit P in
  running P1 = false /\ get_active_connection_count (reg P1) = 0 /\
  last io1 = Some (Exit 0) /\
  cmd_terminate P1 k = (P1, [], [ErrNotFound k]) /\
  (Z.of_nat (String.length msg) <= MAX_MESSAGE_LENGTH ->
     cmd_send P1 k msg sent = (P1, [], [ErrNotFound k])).
Proof.
  unfold cmd_exit. pose proof (close_all_inactive (reg P)) as Hin.
  destruct (close_all_connections (reg P)) as [st' e] eqn:E. simpl in Hin.
  pose proof (find_id_all_inactive _ k Hin) as Hnf. split_and!.
  - done.
  - unfold get_active_connection_count. simpl. by rewrite filter_inactive.
  - by rewrite !app_assoc, last_snoc.
  - unfold cmd_terminate. simpl. by rewrite Hnf.
  - intros Hlen. unfold cmd_send. simpl. rewrite get_id_none by done.
    by rewrite (proj2 (Z.ltb_ge _ _) Hlen).
Qed.


(** (C27) Dial failures are reported and leave nothing behind: when
    [cmd_connect] has passed its checks but [socket] fails,
    [setsockopt(SO_REUSEADDR)] is refused or [connect] fails, the
    registry is unchanged, [Failed to connect] is reported, and the
    socket created on the way, if any, is closed once, as the last
    call. *)
Theorem cmd_connect_dial_failure P ip port d spawn :
  is_valid_ip ip = true -> is_valid_port port = true ->
  ~ (ip = local_ip P /\ port = listen_port P) ->
  find_connection_by_address (reg P) ip port = -1 ->
  (connect_to_peer ip port d).1 = None ->
  let '(P1, io1, r1) := cmd_connect P ip port d spawn in
  P1 = P /\ r1 = [ErrConnectFailed ip port] /\
  io1 = match d_socket d with
        | None => []
        | Some s => (if d_reuse d then [Connect ip port] else []) ++ [CloseSock s]
        end.
Proof.
  intros Hip Hport Hself Hfree Hd. unfold cmd_connect. rewrite Hip, Hport, Hfree. simpl.
  destruct (bool_decide (ip = local_ip P) && (port =? listen_port P)) eqn:Hs.
  { exfalso. apply Hself. apply andb_true_iff in Hs as [H1 H2].
    apply bool_decide_eq_true in H1. by apply Z.eqb_eq in H2. }
  simpl. revert Hd. unfold connect_to_peer, create_socket.
  destruct d as [[s|] [] []]; simpl; intros Hd; done.
Qed.

(** ** Witnesses *)

Lemma cmd_connect_twice_witness :
  wf (reg proc0) /\
  get_active_connection_count (reg proc0) < Z.of_nat (length (connections (reg proc0))) /\
  is_valid_ip "10.0.0.7" = true /\ is_valid_port 5000 = true /\
  ~ ("10.0.0.7" = local_ip proc0 /\ 5000 = listen_port proc0) /\
  find_connection_by_address (reg proc0) "10.0.0.7" 5000 = -1 /\
  let '(P1, _, r1) := cmd_connect proc0 "10.0.0.7" 5000 (mkDial (Some 4) true true) (Some 77) in
  r1 = [Connected "10.0.0.7" 5000 (next_connection_id (reg proc0))] /\
  cmd_connect P1 "10.0.0.7" 5000 (mkDial (Some 5) true true) (Some 78) =
    (P1, [], [ErrExists "10.0.0.7" 5000]).
Proof.
  assert (Hwf : wf (reg proc0)) by (apply wfb_wf; vm_compute; reflexivity).
  assert (Hlt : get_active_connection_count (reg proc0)
                < Z.of_nat (length (connections (reg proc0)))) by (vm_compute; reflexivity).
  assert (Hip : is_valid_ip "10.0.0.7" = true) by (vm_compute; reflexivity).
  assert (Hport : is_valid_port 5000 = true) by (vm_compute; reflexivity).
  assert (Hself : ~ ("10.0.0.7" = local_ip proc0 /\ 5000 = listen_port proc0))
    by (simpl; intros [H _]; discriminate H).
  assert (Hfree : find_connection_by_address (reg proc0) "10.0.0.7" 5000 = -1)
    by (vm_compute; reflexivity).
  split_and!; try assumption.
  exact (cmd_connect_twice proc0 "10.0.0.7" 5000 4 77 (mkDial (Some 5) true true) (Some 78)
           Hwf Hlt Hip Hport Hself Hfree).
Defined.

Lemma cmd_terminate_spec_witness :
  wf (reg proc2) /\
  let '(P1, io1, r1) := cmd_terminate proc2 1 in
  (find_connection_by_id (reg proc2) 1 = -1 -> P1 = proc2 /\ io1 = [] /\ r1 = [ErrNotFound 1]) /\
  (forall i c, list_find (slot_has_id 1) (connections (reg proc2)) = Some (i, c) ->
     io1 = [Reg (Shutdown (socket c)); Reg (Close (socket c))] /\ r1 = [Terminated 1]) /\
  find_connection_by_id (reg P1) 1 = -1 /\
  cmd_terminate P1 1 = (P1, [], [ErrNotFound 1]).
Proof.
  assert (Hwf : wf (reg proc2)) by (apply wfb_wf; vm_compute; reflexivity).
  split; [exact Hwf|]. exact (cmd_terminate_spec proc2 1 Hwf).
Defined.

Lemma cmd_send_spec_witness :
  wf (reg proc2) /\
  let '(P1, io1, r1) := cmd_send proc2 1 "hello" 5 in
  (MAX_MESSAGE_LENGTH < Z.of_nat (String.length "hello") ->
     P1 = proc2 /\ io1 = [] /\ r1 = [ErrTooLong]) /\
  (Z.of_nat (String.length "hello") <= MAX_MESSAGE_LENGTH ->
     find_connection_by_id (reg proc2) 1 = -1 -> P1 = proc2 /\ io1 = [] /\ r1 = [ErrNotFound 1]) /\
  (Z.of_nat (String.length "hello") <= MAX_MESSAGE_LENGTH ->
     forall i c, list_find (slot_has_id 1) (connections (reg proc2)) = Some (i, c) ->
     head io1 = Some (Send (socket c) "hello") /\
     (5 < 0 -> r1 = [ErrSendFailed] /\ find_connection_by_id (reg P1) 1 = -1) /\
     (0 <= 5 -> P1 = proc2 /\ io1 = [Send (socket c) "hello"] /\ r1 = [Sent 1])).
Proof.
  assert (Hwf : wf (reg proc2)) by (apply wfb_wf; vm_compute; reflexivity).
  split; [exact Hwf|]. exact (cmd_send_spec proc2 1 "hello" 5 Hwf).
Defined.

Lemma cmd_connect_dial_failure_witness :
  let '(P1, io1, r1) := cmd_connect proc0 "10.0.0.7" 5000 (mkDial (Some 4) true false) None in
  P1 = proc0 /\ r1 = [ErrConnectFailed "10.0.0.7" 5000] /\
  io1 = [Connect "10.0.0.7" 5000; CloseSock 4].
Proof.
  apply (cmd_connect_dial_failure proc0 "10.0.0.7" 5000 (mkDial (Some 4) true false) None).
  - vm_compute; reflexivity.
  - vm_compute; reflexivity.
  - simpl; intros [H _]; discriminate H.
  - vm_compute; reflexivity.
  - reflexivity.
Defined.

End Command.
