(* ===== verification/Threads.v ===== *)
(** * The threads of P2P_Chat and their interleavings

    Three kinds of threads share the table of [Registry]:
    - the accept thread ([accept_connections_thread], src/connection.c),
    - one receiver per connection ([handle_peer_messages_thread]),
    - the command thread: [main]'s loop (src/main.c) and the handlers
      it calls ([cmd_connect], [cmd_list], [cmd_terminate], [cmd_send],
      [cmd_exit] of src/command.c), then [pthread_join] of the accept
      thread once the loop is left.
    Signals are delivered to the process at any point and run
    [signal_handler] with the dispositions [setup_signal_handlers]
    installed.
    A configuration holds the shared state (the table, [running], the
    status of every socket) and the program counter of every thread at
    the points where the C code leaves [connections_mutex] or blocks.
    [exec c l] performs the action [l] of one thread: one critical
    section (the whole region between [pthread_mutex_lock] and
    [pthread_mutex_unlock], which the mutex makes atomic), one blocking
    call ([accept], [recv], [connect], [send]) with the answer the
    operating system gives carried by the label, one test of
    [running] at the head of a thread's loop, or one unlocked read of
    the table.  Any interleaving of the threads is a sequence of
    labels; [reachable] is the closure from start-up.

    Sockets are handles: [socket], [accept] and [connect] return a
    handle never used before.  The operating system's answers are
    constrained only where POSIX fixes them: a [recv] on a socket shut
    down for reading returns 0 or fails, on a closed descriptor it
    fails; [send] on a closed descriptor fails. *)

From S2P Require Import Prelude Validate Registry Signal.
Import Registry Validate Signal.

Module Threads.

Inductive sock_status := SOpen | SShut | SClosed.

#[export] Instance sock_status_eq_dec : EqDecision sock_status.
Proof. solve_decision. Defined.

(** Receiver: [RLoop] is the head of [while (running)], [RLock] has
    read [running] and is about to take the mutex, [RRecv] holds the
    snapshot taken under the mutex before [receive_message], [RRemove]
    is about to call [remove_connection]. *)
Inductive rpc :=
  | RLoop
  | RLock
  | RRecv (sock : Z) (ip : string) (port : Z) (conn_id : Z)
  | RRemove (conn_id : Z)
  | RExit.

#[export] Instance rpc_eq_dec : EqDecision rpc.
Proof. solve_decision. Defined.

Record rthread := mkRthread { r_slot : nat; r_pc : rpc }.

(** Command thread: [main]'s loop and the handlers it calls. *)
Inductive cpc :=
  | CLoop                                    (** head of [while (running)] in [main] *)
  | CRead                                    (** blocked in [fgets] *)
  | CIdle                                    (** [fgets] returned a line;
                                                 [process_command] next *)
  | CTerminate (k : Z)                       (** found; [close_connection] next *)
  | CSendWrite (k : Z) (msg : string) (slot : nat)
                                             (** [conn] points to [slot]; [send] next *)
  | CSendFail (k : Z)                        (** [send] failed; [remove_connection] next *)
  | CConnectDial (ip : string) (port : Z)    (** checks passed; [connect_to_peer] next *)
  | CConnectAdd (ip : string) (port : Z) (sock : Z)
                                             (** connected; [add_connection] next *)
  | CConnectRet (ip : string) (port : Z) (sock : Z) (slot : nat)
                                             (** [add_connection] unlocked; reads
                                                 [connections[slot].id] next *)
  | CExited                                  (** in [cmd_exit]: [sleep(1)], [exit(0)] *)
  | CJoin                                    (** after the loop: [pthread_join(accept_thread)] *)
  | CDone.                                   (** [cleanup_sockets()], [return 0] *)

(** Accept thread. *)
Inductive apc :=
  | ALoop                                    (** head of [while (running)] *)
  | AAccept                                  (** in [accept_client] *)
  | AAdd (sock : Z) (ip : string) (port : Z)
  | ARet (sock : Z) (ip : string) (port : Z) (slot : nat)
  | AExit.

#[export] Instance cpc_eq_dec : EqDecision cpc.
Proof. solve_decision. Defined.
#[export] Instance apc_eq_dec : EqDecision apc.
Proof. solve_decision. Defined.

(** What the program does that is observable. *)
Inductive event :=
  | EvReg (e : effect)                        (** a call inside a critical section *)
  | EvClose (s : Z)                           (** [close(s)] outside the registry *)
  | EvRecv (slot : nat) (sock : Z)            (** a receiver of [slot] read [sock] *)
  | EvDisplay (ip : string) (port : Z) (data : string)
  | EvSend (sock : Z) (msg : string)
  | EvConnected (ip : string) (port : Z) (k : Z)
  | EvAccepted (ip : string) (port : Z) (k : Z)
  | EvList (l : list line)                    (** [print_connection_list] of [cmd_list] *)
  | EvSignal (sig : Z) (out : list sig_line). (** [signal_handler] ran *)

Record config := mkConfig {
  reg : state;
  running : bool;
  socks : gmap Z sock_status;
  recvs : list rthread;
  cmd : cpc;
  acc : apc;
  local_ip : string;
  listen_port : Z;
  trace : list event        (** most recent first *)
}.

(** The peer address [accept] writes into [client_addr]: the port in
    network byte order and the four bytes of the IPv4 address. *)
Record sockaddr_in := mkSockaddr { sin_port : Z; sin_addr : list Z }.

(** The address the kernel fills in: four bytes and a 16-bit port. *)
Definition sockaddr_ok (sa : sockaddr_in) : bool :=
  (length (sin_addr sa) =? 4)%nat && forallb (fun b => (0 <=? b) && (b <=? 255)) (sin_addr sa)
  && (0 <=? sin_port sa) && (sin_port sa <? 2 ^ 16).

(** The address of a peer at [ip:port]. *)
Definition peer_of (ip : list Z) (port : Z) : sockaddr_in := mkSockaddr (htons port) ip.

(** The actions, with the operating system's answers. *)
Inductive label :=
  | LRecvTop (i : nat)
  | LRecvLock (i : nat)
  | LRecvData (i : nat) (data : string)
  | LRecvEof (i : nat)
  | LRecvErr (i : nat) (eagain : bool)
  | LRecvRemove (i : nat)
  | LCmdTop
  | LCmdLine
  | LCmdEof
  | LCmdList
  | LCmdOther
  | LCmdJoin
  | LSignal (sig : Z)
  | LCmdTerminate (k : Z)
  | LCmdTerminateClose
  | LCmdSend (k : Z) (msg : string)
  | LCmdSendWrite (result : Z)
  | LCmdSendRemove
  | LCmdConnect (ip : string) (port : Z)
  | LCmdDial (sock : option Z)
  | LCmdAdd (spawn : option Z)
  | LCmdRet
  | LCmdExit
  | LAcceptTop
  | LAccept (sock : option Z) (peer : sockaddr_in)
  | LAcceptAdd (spawn : option Z)
  | LAcceptRet.


(** ** Updating a configuration *)

Definition with_reg (c : config) (st : state) : config :=
  mkConfig st (running c) (socks c) (recvs c) (cmd c) (acc c) (local_ip c) (listen_port c) (trace c).
Definition with_socks (c : config) (m : gmap Z sock_status) : config :=
  mkConfig (reg c) (running c) m (recvs c) (cmd c) (acc c) (local_ip c) (listen_port c) (trace c).
Definition with_recvs (c : config) (l : list rthread) : config :=
  mkConfig (reg c) (running c) (socks c) l (cmd c) (acc c) (local_ip c) (listen_port c) (trace c).
Definition with_cmd (c : config) (p : cpc) : config :=
  mkConfig (reg c) (running c) (socks c) (recvs c) p (acc c) (local_ip c) (listen_port c) (trace c).
Definition with_acc (c : config) (p : apc) : config :=
  mkConfig (reg c) (running c) (socks c) (recvs c) (cmd c) p (local_ip c) (listen_port c) (trace c).
Definition with_running (c : config) (b : bool) : config :=
  mkConfig (reg c) b (socks c) (recvs c) (cmd c) (acc c) (local_ip c) (listen_port c) (trace c).
Definition emit (c : config) (ev : event) : config :=
  mkConfig (reg c) (running c) (socks c) (recvs c) (cmd c) (acc c) (local_ip c) (listen_port c)
    (ev :: trace c).

(** Receiver [i] moves to [pc]. *)
Definition set_recv (c : config) (i : nat) (t : rthread) (pc : rpc) : config :=
  with_recvs c (<[i := mkRthread (r_slot t) pc]> (recvs c)).

(** What a call inside a critical section does to sockets and threads. *)
Definition apply_effect (c : config) (e : effect) : config :=
  let c' := emit c (EvReg e) in
  match e with
  | Shutdown s => with_socks c' (<[s := SShut]> (socks c))
  | Close s => with_socks c' (<[s := SClosed]> (socks c))
  | Spawn slot => with_recvs c' (recvs c ++ [mkRthread slot RLoop])
  end.

(** The end of a critical section: the new table and its calls. *)
Definition run_cs (c : config) (st : state) (e : list effect) : config :=
  foldl apply_effect (with_reg c st) e.

(** [close(s)] outside the registry. *)
Definition close_sock (c : config) (s : Z) : config :=
  with_socks (emit c (EvClose s)) (<[s := SClosed]> (socks c)).

(** A new handle from [socket] or [accept]: a descriptor, a
    non-negative [int], never used before. *)
Definition open_sock (c : config) (s : Z) : option config :=
  if bool_decide (socks c !! s = None) && (0 <=? s) && (s <=? INT_MAX)
  then Some (with_socks c (<[s := SOpen]> (socks c)))
  else None.

Definition is_status (c : config) (s : Z) (x : sock_status) : bool :=
  bool_decide (socks c !! s = Some x).

(** [receive_message(sock, buffer, BUFFER_SIZE)] is
    [recv(sock, buffer, BUFFER_SIZE - 1, 0)]: it returns data, at least
    one byte and at most [BUFFER_SIZE - 1], only from an open socket. *)
Definition receive_message (c : config) (s : Z) (data : string) : bool :=
  is_status c s SOpen && (0 <? Z.of_nat (String.length data))
  && (Z.of_nat (String.length data) <=? BUFFER_SIZE - 1).

(** [send_message(sock, message)] is [send(sock, message,
    strlen(message), 0)]: it may return [r] unless the descriptor is
    closed and [r] reports bytes written. *)
Definition send_message (c : config) (s : Z) (r : Z) : bool :=
  negb (is_status c s SClosed && (0 <=? r)).

(** [add_connection] from a thread at [at_ret] (success, the slot to
    read the id from) or [at_fail] (after [close(sock)]). *)
Definition add_step (c : config) (sock : Z) (a : string) (p : Z) (spawn : option Z)
    (at_ret : nat -> config -> config) (at_fail : config -> config) : option config :=
  match list_find slot_free (connections (reg c)), add_connection (reg c) sock a p spawn with
  | Some (slot, _), (st', r, e) =>
      if r =? -1 then Some (close_sock (at_fail (run_cs c st' e)) sock)
      else Some (at_ret slot (run_cs c st' e))
  | None, (st', _, e) => Some (close_sock (at_fail (run_cs c st' e)) sock)
  end.


(** The head of [main]'s loop: [while (running)] goes on to [fgets];
    once [running] is 0, the loop is left for [pthread_join]. *)
Definition main_loop_head (c : config) : option config :=
  match cmd c with
  | CLoop => if running c then Some (with_cmd c CRead) else Some (with_cmd c CJoin)
  | _ => None
  end.

(** [fgets] returns a line ([process_command] next) or [NULL] (back to
    the loop head).  A signal does not interrupt it: [signal] installs
    its handlers with [SA_RESTART] semantics (glibc), so the read is
    resumed after [signal_handler] returns. *)
Definition main_fgets (c : config) (line : bool) : option config :=
  match cmd c with
  | CRead => if line then Some (with_cmd c CIdle) else Some (with_cmd c CLoop)
  | _ => None
  end.

(** [pthread_join(accept_thread, NULL)] returns once the accept thread
    has returned; [cleanup_sockets()] does nothing on POSIX and [main]
    returns. *)
Definition main_join (c : config) : option config :=
  match cmd c, acc c with
  | CJoin, AExit => Some (with_cmd c CDone)
  | _, _ => None
  end.

(** A signal arrives, with the dispositions [setup_signal_handlers]
    installed: a handled signal runs [signal_handler], which may clear
    [running]; an ignored one does nothing and one that ends the process
    has no successor.  Once [main] has returned the process is gone;
    once [cmd_exit] has cleared [running] and closed the table, a
    handler could only print before [exit(0)], and no signal step is
    taken. *)
Definition signal_step (c : config) (sig : Z) : option config :=
  match cmd c with
  | CExited | CDone => None
  | _ =>
      match deliver handlers sig (running c) with
      | Handled r out => Some (emit (with_running c r) (EvSignal sig out))
      | _ => None
      end
  end.

(** What an effect does to the socket table. *)
Definition sock_update (m : gmap Z sock_status) (e : effect) : gmap Z sock_status :=
  match e with
  | Shutdown s => <[s := SShut]> m
  | Close s => <[s := SClosed]> m
  | Spawn _ => m
  end.

(** The receivers a critical section starts. *)
Definition spawned (e : list effect) : list rthread :=
  omap (fun x => match x with Spawn slot => Some (mkRthread slot RLoop) | _ => None end) e.

(** ** One action of one thread *)

Definition exec (c : config) (l : label) : option config :=
  match l with
  (* handle_peer_messages_thread, receiver [i] *)
  | LRecvTop i =>
      t ← recvs c !! i;
      match r_pc t with
      | RLoop => if running c then Some (set_recv c i t RLock) else Some (set_recv c i t RExit)
      | _ => None
      end
  | LRecvLock i =>
      t ← recvs c !! i;
      match r_pc t with
      | RLock =>
          c0 ← connections (reg c) !! r_slot t;
          if active c0
          then Some (set_recv c i t (RRecv (socket c0) (ip c0) (port c0) (id c0)))
          else Some (set_recv c i t RExit)
      | _ => None
      end
  | LRecvData i data =>
      t ← recvs c !! i;
      match r_pc t with
      | RRecv s a p k =>
          if receive_message c s data
          then Some (emit (emit (set_recv c i t RLoop) (EvRecv (r_slot t) s)) (EvDisplay a p data))
          else None
      | _ => None
      end
  | LRecvEof i =>
      t ← recvs c !! i;
      match r_pc t with
      | RRecv s a p k =>
          if is_status c s SClosed then None
          else Some (emit (set_recv c i t (RRemove k)) (EvRecv (r_slot t) s))
      | _ => None
      end
  | LRecvErr i eagain =>
      t ← recvs c !! i;
      match r_pc t with
      | RRecv s a p k =>
          if eagain then
            if is_status c s SOpen then Some (set_recv c i t RLoop) else None
          else Some (set_recv c i t (RRemove k))
      | _ => None
      end
  | LRecvRemove i =>
      t ← recvs c !! i;
      match r_pc t with
      | RRemove k =>
          let '(st', e) := remove_connection (reg c) k in
          Some (run_cs (set_recv c i t RExit) st' e)
      | _ => None
      end
  (* main: while (running) { ... fgets ...; process_command(command); } *)
  | LCmdTop => main_loop_head c
  | LCmdLine => main_fgets c true
  | LCmdEof => main_fgets c false
  (* cmd_list: print_connection_list under the mutex *)
  | LCmdList =>
      match cmd c with
      | CIdle => Some (with_cmd (emit c (EvList (print_connection_list (reg c)))) CLoop)
      | _ => None
      end
  (* help, myip, myport, an empty line, a usage or unknown-command message *)
  | LCmdOther =>
      match cmd c with CIdle => Some (with_cmd c CLoop) | _ => None end
  (* after the loop: pthread_join(accept_thread, NULL); cleanup_sockets(); return 0 *)
  | LCmdJoin => main_join c
  | LSignal sig => signal_step c sig
  (* cmd_terminate *)
  | LCmdTerminate k =>
      match cmd c with
      | CIdle =>
          if find_connection_by_id (reg c) k =? -1 then Some (with_cmd c CLoop)
          else Some (with_cmd c (CTerminate k))
      | _ => None
      end
  | LCmdTerminateClose =>
      match cmd c with
      | CTerminate k =>
          let '(st', e) := close_connection (reg c) k in Some (run_cs (with_cmd c CLoop) st' e)
      | _ => None
      end
  (* cmd_send *)
  | LCmdSend k msg =>
      match cmd c with
      | CIdle =>
          if MAX_MESSAGE_LENGTH <? Z.of_nat (String.length msg) then Some (with_cmd c CLoop)
          else
            match get_connection_by_id (reg c) k with
            | None => Some (with_cmd c CLoop)
            | Some slot => Some (with_cmd c (CSendWrite k msg slot))
            end
      | _ => None
      end
  | LCmdSendWrite r =>
      match cmd c with
      | CSendWrite k msg slot =>
          c0 ← connections (reg c) !! slot;
          if send_message c (socket c0) r then
            let c' := emit c (EvSend (socket c0) msg) in
            if r <? 0 then Some (with_cmd c' (CSendFail k)) else Some (with_cmd c' CLoop)
          else None
      | _ => None
      end
  | LCmdSendRemove =>
      match cmd c with
      | CSendFail k =>
          let '(st', e) := remove_connection (reg c) k in Some (run_cs (with_cmd c CLoop) st' e)
      | _ => None
      end
  (* cmd_connect *)
  | LCmdConnect a p =>
      match cmd c with
      | CIdle =>
          if is_valid_ip a && is_valid_port p
             && negb (bool_decide (a = local_ip c) && (p =? listen_port c))
             && (find_connection_by_address (reg c) a p =? -1)
          then Some (with_cmd c (CConnectDial a p))
          else Some (with_cmd c CLoop)
      | _ => None
      end
  | LCmdDial None =>
      match cmd c with CConnectDial _ _ => Some (with_cmd c CLoop) | _ => None end
  | LCmdDial (Some s) =>
      match cmd c with
      | CConnectDial a p => c' ← open_sock c s; Some (with_cmd c' (CConnectAdd a p s))
      | _ => None
      end
  | LCmdAdd spawn =>
      match cmd c with
      | CConnectAdd a p s =>
          add_step c s a p spawn (fun slot c' => with_cmd c' (CConnectRet a p s slot))
            (fun c' => with_cmd c' CLoop)
      | _ => None
      end
  | LCmdRet =>
      match cmd c with
      | CConnectRet a p s slot =>
          c0 ← connections (reg c) !! slot;
          Some (with_cmd (emit c (EvConnected a p (id c0))) CLoop)
      | _ => None
      end
  (* cmd_exit: running = 0, close_all_connections, exit *)
  | LCmdExit =>
      match cmd c with
      | CIdle =>
          let '(st', e) := close_all_connections (reg c) in
          Some (run_cs (with_cmd (with_running c false) CExited) st' e)
      | _ => None
      end
  (* accept_connections_thread *)
  | LAcceptTop =>
      match acc c with
      | ALoop => if running c then Some (with_acc c AAccept) else Some (with_acc c AExit)
      | _ => None
      end
  | LAccept None _ =>
      match acc c with AAccept => Some (with_acc c ALoop) | _ => None end
  | LAccept (Some s) sa =>
      match acc c with
      | AAccept =>
          if sockaddr_ok sa then
            c' ← open_sock c s;
            (* inet_ntop(AF_INET, &client_addr.sin_addr, client_ip, ...);
               client_port = ntohs(client_addr.sin_port) *)
            Some (with_acc c' (AAdd s (inet_ntop4 (sin_addr sa)) (ntohs (sin_port sa))))
          else None
      | _ => None
      end
  | LAcceptAdd spawn =>
      match acc c with
      | AAdd s a p =>
          add_step c s a p spawn (fun slot c' => with_acc c' (ARet s a p slot))
            (fun c' => with_acc c' ALoop)
      | _ => None
      end
  | LAcceptRet =>
      match acc c with
      | ARet s a p slot =>
          c0 ← connections (reg c) !! slot;
          Some (with_acc (emit c (EvAccepted a p (id c0))) ALoop)
      | _ => None
      end
  end.

(** Start-up: [main] after [init_connections], [setup_signal_handlers]
    and the creation of the accept thread, at the head of its loop. *)
Definition init (a : string) (p : Z) : config :=
  mkConfig initial_state true ∅ [] CLoop ALoop a p [].

(** A schedule: the actions of all threads in the order they happen. *)
Fixpoint exec_all (c : config) (ls : list label) : option config :=
  match ls with
  | [] => Some c
  | l :: ls' => c' ← exec c l; exec_all c' ls'
  end.

Inductive reachable (a : string) (p : Z) : config -> Prop :=
  | reach_init : reachable a p (init a p)
  | reach_step c l c' : reachable a p c -> exec c l = Some c' -> reachable a p c'.

(** ** The table moves only by critical sections *)

Lemma reg_apply_effect c e : reg (apply_effect c e) = reg c.
Proof. by destruct e. Qed.

Lemma reg_run_cs c st e : reg (run_cs c st e) = st.
Proof.
  unfold run_cs. revert c. induction e as [|x e IH] using rev_ind; intros c; [done|].
  rewrite foldl_app. simpl. by rewrite reg_apply_effect.
Qed.

Lemma foldl_apply_effect_shape c e :
  foldl apply_effect c e =
  mkConfig (reg c) (running c) (foldl sock_update (socks c) e) (recvs c ++ spawned e) (cmd c)
           (acc c) (local_ip c) (listen_port c) (reverse (EvReg <$> e) ++ trace c).
Proof.
  revert c. induction e as [|x e IH]; intros c.
  - rewrite app_nil_r. by destruct c.
  - simpl. rewrite IH. destruct x, c; simpl; unfold spawned; simpl;
      rewrite ?reverse_cons, <- ?app_assoc; done.
Qed.

(** The configuration after a critical section, field by field. *)
Lemma run_cs_shape c st e :
  run_cs c st e =
  mkConfig st (running c) (foldl sock_update (socks c) e) (recvs c ++ spawned e) (cmd c) (acc c)
           (local_ip c) (listen_port c) (reverse (EvReg <$> e) ++ trace c).
Proof. unfold run_cs. by rewrite foldl_apply_effect_shape. Qed.

(** Case analysis of one action: every branch of [exec], with the
    critical sections unfolded to their field-by-field result. *)
Ltac exec_split H :=
  simpl in H; unfold open_sock, add_step, remove_connection, close_connection,
    close_all_connections, add_connection, main_loop_head, main_fgets, main_join,
    signal_step, receive_message, send_message in *;
  repeat (simplify_option_eq || case_match); simplify_eq;
  repeat match goal with Hb : _ && _ = true |- _ => apply andb_true_iff in Hb as [? ?] end;
  rewrite ?run_cs_shape in *;
  unfold close_sock, with_cmd, with_socks, with_acc, with_recvs, with_running, emit,
    set_recv in *; simpl in *.

Lemma reg_close_sock c s : reg (close_sock c s) = reg c.
Proof. reflexivity. Qed.

Lemma reg_add_step c s a p spawn f g c' :
  (forall slot c1, reg (f slot c1) = reg c1) -> (forall c1, reg (g c1) = reg c1) ->
  add_step c s a p spawn f g = Some c' ->
  reg c' = (exec_op (reg c) (OpAdd s a p spawn)).1.1.
Proof.
  intros Hf Hg. unfold add_step. simpl.
  destruct (list_find _ _) as [[??]|], (add_connection _ _ _ _ _) as [[st' r] e];
    [case_match|]; intros [= <-];
    rewrite ?reg_close_sock, ?Hf, ?Hg; apply reg_run_cs.
Qed.


(** Every action leaves the table alone or applies one critical
    section of [Registry] to it. *)
Lemma exec_reg c l c' :
  exec c l = Some c' ->
  reg c' = reg c \/ exists o, reg c' = (exec_op (reg c) o).1.1.
Proof.
  intros H. destruct l; simpl in H; unfold open_sock, main_loop_head, main_fgets, main_join, signal_step in *;
    repeat (simplify_option_eq || case_match); simplify_eq; try (left; reflexivity).
  all: right; first
    [ eexists (OpAdd _ _ _ _); eapply reg_add_step; [..|eassumption]; done
    | match goal with
      | H : remove_connection _ ?k = _ |- _ =>
          exists (OpRemove k); rewrite reg_run_cs; simpl; by rewrite H
      | H : close_connection _ ?k = _ |- _ =>
          exists (OpClose k); rewrite reg_run_cs; simpl; by rewrite H
      end
    | exists OpCloseAll; by rewrite reg_run_cs ].
Qed.


Lemma exec_all_reachable a p c ls c' :
  reachable a p c -> exec_all c ls = Some c' -> reachable a p c'.
Proof.
  revert c. induction ls as [|l ls IH]; intros c Hc H; simpl in H; [by simplify_eq|].
  destruct (exec c l) as [c1|] eqn:E; [|done]. simpl in H. eapply IH; [|exact H].
  by eapply reach_step.
Qed.

(** The table of every reachable configuration is the table of a
    sequence of critical sections run one after the other. *)
Lemma reachable_run a p c :
  reachable a p c -> exists ops, reg c = (run initial_state ops).1.1.
Proof.
  induction 1 as [|c l c' Hr [ops IH] Hexec].
  - by exists [].
  - destruct (exec_reg c l c' Hexec) as [->|[o ->]]; [by exists ops|].
    exists (ops ++ [o]). by rewrite run_snoc, IH.
Qed.

(** Running a concrete schedule from start-up: the configuration it
    reaches is reachable and is the one [exec_all] computes. *)
Lemma run_schedule a p ls (P : config -> Prop) :
  (forall c, exec_all (init a p) ls = Some c -> P c) ->
  is_Some (exec_all (init a p) ls) ->
  exists c, exec_all (init a p) ls = Some c /\ reachable a p c /\ P c.
Proof.
  intros HP [c Hc]. exists c. split_and!; [done| |by apply HP].
  eapply exec_all_reachable; [constructor|exact Hc].
Qed.

(** ** Properties of all interleavings *)

(** Serialisation (I4) and its consequences in every
    interleaving of the accept thread, the receivers and the command
    thread: the table of any reachable configuration is the table that
    some sequence of the critical sections of src/connection.c, run one
    after another, produces from start-up; hence it satisfies [wf]
    (positive, pairwise distinct live ids below the counter) and holds
    at most [MAX_CONNECTIONS] live connections. *)
Theorem reachable_table a p c :
  reachable a p c ->
  (exists ops, reg c = (run initial_state ops).1.1) /\
  wf (reg c) /\ get_active_connection_count (reg c) <= Z.of_nat MAX_CONNECTIONS.
Proof.
  intros Hr. destruct (reachable_run a p c Hr) as [ops Hops].
  split; [by exists ops|]. rewrite Hops. split; [apply run_wf, initial_wf|].
  pose proof (active_count_le (run initial_state ops).1.1) as H.
  rewrite length_run in H. unfold get_active_connection_count in *. simpl in H.
  unfold MAX_CONNECTIONS. lia.
Qed.

(** ** Witnesses *)

Lemma reachable_table_witness :
  reachable "192.168.1.10" 8080 (init "192.168.1.10" 8080) /\
  (exists ops, reg (init "192.168.1.10" 8080) = (run initial_state ops).1.1) /\
  wf (reg (init "192.168.1.10" 8080)) /\
  get_active_connection_count (reg (init "192.168.1.10" 8080)) <= Z.of_nat MAX_CONNECTIONS.
Proof.
  assert (H : reachable "192.168.1.10" 8080 (init "192.168.1.10" 8080)) by apply reach_init.
  split; [exact H|]. exact (reachable_table _ _ _ H).
Defined.

End Threads.
