(* ===== verification/Races.v ===== *)
(** * Interleavings that break the specification

    Concrete schedules of the threads of [Threads] from start-up, each
    run by [exec_all] and checked by evaluation: the configuration it
    reaches is reachable and exhibits a behaviour the specification
    forbids.  Each theorem names the lines of the C code that allow it. *)

From S2P Require Import Prelude Validate Registry Threads.
Import Registry Threads.

Module Races.

(** ** Schedules that break the specification *)

(** [send 1 hi] fetches the slot of connection 1; its peer closes, the
    receiver retires it, an accepted peer takes the slot; the command
    thread then writes. *)
Definition sched_send : list label :=
  [LAcceptTop; LAccept (Some 100) (peer_of [10; 0; 0; 1] 40000); LAcceptAdd (Some 1); LAcceptRet;
   LCmdTop; LCmdLine; LCmdSend 1 "hi"; LRecvTop 0; LRecvLock 0; LRecvEof 0; LRecvRemove 0;
   LAcceptTop; LAccept (Some 200) (peer_of [10; 0; 0; 2] 40001); LAcceptAdd (Some 2); LCmdSendWrite 2].

(** The receiver of connection 1 has just displayed a message when the
    operator terminates connection 1 and a new peer takes its slot. *)
Definition sched_recv : list label :=
  [LAcceptTop; LAccept (Some 100) (peer_of [10; 0; 0; 1] 40000); LAcceptAdd (Some 1); LAcceptRet;
   LRecvTop 0; LRecvLock 0; LRecvData 0 "x"; LCmdTop; LCmdLine; LCmdTerminate 1; LCmdTerminateClose;
   LAcceptTop; LAccept (Some 200) (peer_of [10; 0; 0; 2] 40001); LAcceptAdd (Some 2); LAcceptRet;
   LRecvTop 0; LRecvLock 0; LRecvTop 1; LRecvLock 1].

(** [connect 10.0.0.5 6000] inserts its link; before [add_connection]
    reads the id back, the peer closes, the link is retired and an
    accepted peer takes the slot. *)
Definition sched_connect_id : list label :=
  [LCmdTop; LCmdLine; LCmdConnect "10.0.0.5" 6000; LCmdDial (Some 100); LCmdAdd (Some 1);
   LRecvTop 0; LRecvLock 0; LRecvEof 0; LRecvRemove 0;
   LAcceptTop; LAccept (Some 200) (peer_of [10; 0; 0; 9] 7000); LAcceptAdd (Some 2); LCmdRet].

(** [connect 10.0.0.5 6000] passes its duplicate check; while it dials,
    the accept thread inserts a connection from 10.0.0.5:6000. *)
Definition sched_duplicate : list label :=
  [LCmdTop; LCmdLine; LCmdConnect "10.0.0.5" 6000; LAcceptTop; LAccept (Some 200) (peer_of [10; 0; 0; 5] 6000);
   LAcceptAdd (Some 1); LAcceptRet; LCmdDial (Some 100); LCmdAdd (Some 2); LCmdRet].

(** ** The schedules' outcomes *)

(** (C13) A message can reach the wrong peer.  [cmd_send] looks the
    connection up under the mutex but reads [conn->socket] and writes
    after releasing it.  In the schedule [sched_send] the operator sends
    "hi" to connection 1 (10.0.0.1); before the write, the peer of
    connection 1 disconnects, its receiver retires it, and a new peer
    (10.0.0.2, id 2) is accepted into the same slot: the write goes to
    the socket of connection 2. *)
Theorem send_reaches_reused_slot :
  exists c, exec_all (init "192.168.1.10" 8080) sched_send = Some c /\
    reachable "192.168.1.10" 8080 c /\
    connections (reg c) !! 0%nat = Some (mkConnection 2 200 "10.0.0.2" 40001 2 true) /\
    head (trace c) = Some (EvSend 200 "hi").
Proof.
  apply run_schedule; [|vm_compute; eauto].
  intros c Hc. vm_compute in Hc. injection Hc as <-. split; reflexivity.
Qed.

(** (C14) Two receivers can read the same socket.  A receiver
    re-reads its slot, not its connection, at the head of its loop.  In
    [sched_recv] the operator terminates connection 1 just after its
    receiver returned from [recv] with data, and a new peer is accepted
    into the same slot: the old receiver and the new connection's
    receiver both go on to [recv] on the new socket, so each message of
    the new peer is read by one of the two at random. *)
Theorem two_receivers_one_socket :
  exists c, exec_all (init "192.168.1.10" 8080) sched_recv = Some c /\
    reachable "192.168.1.10" 8080 c /\
    recvs c !! 0%nat = Some (mkRthread 0 (RRecv 200 "10.0.0.2" 40001 2)) /\
    recvs c !! 1%nat = Some (mkRthread 0 (RRecv 200 "10.0.0.2" 40001 2)).
Proof.
  apply run_schedule; [|vm_compute; eauto].
  intros c Hc. vm_compute in Hc. injection Hc as <-. split; reflexivity.
Qed.

(** (C15) [cmd_connect] can report the id of another peer.
    [add_connection] returns [connections[slot].id], read after the
    mutex is released.  In [sched_connect_id] the new link to
    10.0.0.5:6000 is retired by its receiver and its slot taken by an
    accepted peer 10.0.0.9 before that read: the operator is told the
    connection to 10.0.0.5 has id 2, which is the id of 10.0.0.9. *)
Theorem connect_reports_other_id :
  exists c, exec_all (init "192.168.1.10" 8080) sched_connect_id = Some c /\
    reachable "192.168.1.10" 8080 c /\
    head (trace c) = Some (EvConnected "10.0.0.5" 6000 2) /\
    connections (reg c) !! 0%nat = Some (mkConnection 2 200 "10.0.0.9" 7000 2 true) /\
    find_connection_by_address (reg c) "10.0.0.5" 6000 = -1.
Proof.
  apply run_schedule; [|vm_compute; eauto].
  intros c Hc. vm_compute in Hc. injection Hc as <-. split_and!; reflexivity.
Qed.

(** (C16) Two live connections can share an endpoint (I2 fails).
    [cmd_connect] checks for an existing connection and inserts in two
    different critical sections, and [add_connection] checks nothing.
    In [sched_duplicate] an inbound connection from 10.0.0.5:6000 is
    accepted between the check and the insertion of an outbound
    connection to 10.0.0.5:6000: both are live. *)
Theorem duplicate_endpoint :
  exists c, exec_all (init "192.168.1.10" 8080) sched_duplicate = Some c /\
    reachable "192.168.1.10" 8080 c /\
    connections (reg c) !! 0%nat = Some (mkConnection 1 200 "10.0.0.5" 6000 1 true) /\
    connections (reg c) !! 1%nat = Some (mkConnection 2 100 "10.0.0.5" 6000 2 true).
Proof.
  apply run_schedule; [|vm_compute; eauto].
  intros c Hc. vm_compute in Hc. injection Hc as <-. split; reflexivity.
Qed.

End Races.
