(* ===== verification/Sockets.v ===== *)
(** * Sockets are released exactly once

    The invariant [sock_inv] of the configurations of [Threads]: live
    slots hold open, pairwise distinct sockets; a socket held by the
    accept or command thread between [accept]/[connect] and
    [add_connection] is open and in no slot; a socket is closed exactly
    when the trace closed it, and never twice.  Every action of every
    thread preserves it, so it holds in every reachable configuration. *)

From S2P Require Import Prelude Validate Registry Threads Races.
Import Registry Threads Races.

Module Sockets.

(** ** Sockets closed and sockets in flight *)

(** The sockets a trace closes, most recent first. *)
Fixpoint closes (tr : list event) : list Z :=
  match tr with
  | [] => []
  | EvReg (Close s) :: tr' | EvClose s :: tr' => s :: closes tr'
  | _ :: tr' => closes tr'
  end.

(** The sockets a thread holds between [accept]/[connect] and
    [add_connection]. *)
Definition pending (c : config) : list Z :=
  (match cmd c with CConnectAdd _ _ s => [s] | _ => [] end) ++
  (match acc c with AAdd s _ _ => [s] | _ => [] end).

Definition eff_closes (e : list effect) : list Z :=
  omap (fun x => match x with Close s => Some s | _ => None end) e.

(** The socket invariant, over the table [l], the socket statuses [m],
    the sockets closed so far [cl] and the sockets in flight [pend]:
    live slots hold open, pairwise distinct sockets; a socket in flight
    is open and in no live slot; a socket is closed exactly when it was
    closed once, and none was closed twice. *)
Record sinv (l : list Connection) (m : gmap Z sock_status) (cl pend : list Z) : Prop := {
  si_live : forall i c0, l !! i = Some c0 -> active c0 = true -> m !! socket c0 = Some SOpen;
  si_unique : unique_on (fun c0 => active c0 = true) socket l;
  si_pending : forall s : Z, s ∈ pend -> m !! s = Some SOpen /\
    forall i c0, l !! i = Some c0 -> active c0 = true -> socket c0 <> s;
  si_pending_nodup : NoDup pend;
  si_closed : forall s : Z, s ∈ cl <-> m !! s = Some SClosed;
  si_nodup : NoDup cl
}.

Definition sock_inv (c : config) : Prop :=
  sinv (connections (reg c)) (socks c) (closes (trace c)) (pending c).

(** The effects of [close_all_connections]: one [shutdown] and one
    [close] per live slot, in slot order. *)
Definition close_all_effects (l : list Connection) : list effect :=
  mjoin ((fun c => snd (close_slot c)) <$> l).

Definition live_sockets (l : list Connection) : list Z :=
  socket <$> filter (fun c => active c = true) l.

(** ** The socket invariant, transition by transition *)

Lemma live_socket_ne l m cl pend i x j y :
  sinv l m cl pend -> l !! i = Some x -> active x = true ->
  l !! j = Some y -> active y = true -> j <> i -> socket y <> socket x.
Proof. intros Hs Hi Hx Hj Hy Hji Heq. apply Hji. by eapply (si_unique _ _ _ _ Hs). Qed.

(** Retiring a live slot and closing its socket. *)
Lemma sinv_retire l m cl pend i x :
  sinv l m cl pend -> l !! i = Some x -> active x = true ->
  sinv (<[i := set_active false x]> l) (<[socket x := SClosed]> m) (socket x :: cl) pend.
Proof.
  intros Hs Hi Hx. pose proof Hs as [Hl Hu Hp Hpn Hc Hn]. split.
  - intros j y Hj Hy. apply list_lookup_insert_Some in Hj as [[-> [<- _]]|[Hji Hj]]; [done|].
    rewrite lookup_insert_ne; [by eapply Hl|]. apply not_eq_sym. by eapply live_socket_ne.
  - by apply unique_on_insert_out.
  - intros t Ht. destruct (Hp t Ht) as [Ho Hnl]. split.
    + rewrite lookup_insert_ne; [done|]. by eapply Hnl.
    + intros j y Hj Hy. apply list_lookup_insert_Some in Hj as [[-> [<- _]]|[_ Hj]]; [done|eauto].
  - done.
  - intros t. rewrite elem_of_cons, lookup_insert. case_decide as Ht; [naive_solver|].
    rewrite Hc. naive_solver.
  - constructor; [|done]. rewrite Hc. erewrite Hl; [done|eauto|done].
Qed.

(** [shutdown] then [close] leaves the socket closed. *)
Lemma sinv_shut_retire l m cl pend i x :
  sinv l m cl pend -> l !! i = Some x -> active x = true ->
  sinv (<[i := set_active false x]> l) (<[socket x := SClosed]> (<[socket x := SShut]> m))
    (socket x :: cl) pend.
Proof. rewrite insert_insert_eq. apply sinv_retire. Qed.

(** A fresh handle from [accept] or [connect] goes in flight. *)
Lemma sinv_open l m cl pend pend' s :
  sinv l m cl pend -> m !! s = None -> pend' ≡ₚ s :: pend ->
  sinv l (<[s := SOpen]> m) cl pend'.
Proof.
  intros [Hl Hu Hp Hpn Hc Hn] Hs Hperm. split.
  - intros j y Hj Hy. specialize (Hl j y Hj Hy). rewrite lookup_insert_ne; [done|congruence].
  - done.
  - intros t. rewrite Hperm, elem_of_cons. intros [->|Ht].
    + rewrite lookup_insert_eq. split; [done|]. intros j y Hj Hy. specialize (Hl j y Hj Hy). congruence.
    + destruct (Hp t Ht) as [Ho Hnl]. rewrite lookup_insert_ne; [done|congruence].
  - rewrite Hperm. constructor; [|done]. intros Ht. destruct (Hp s Ht). congruence.
  - intros t. rewrite Hc, lookup_insert. case_decide; [subst; rewrite Hs|]; naive_solver.
  - done.
Qed.

(** A socket in flight is closed by its thread. *)
Lemma sinv_close_pending l m cl pend pend' s :
  sinv l m cl pend -> pend ≡ₚ s :: pend' -> sinv l (<[s := SClosed]> m) (s :: cl) pend'.
Proof.
  intros [Hl Hu Hp Hpn Hc Hn] Hperm.
  assert (Hs : s ∈ pend) by (rewrite Hperm; apply elem_of_cons; by left).
  destruct (Hp s Hs) as [Hso Hsl].
  rewrite Hperm in Hpn. apply NoDup_cons in Hpn as [Hsn Hpn']. split.
  - intros j y Hj Hy. rewrite lookup_insert_ne; [eauto|]. apply not_eq_sym. eauto.
  - done.
  - intros t Ht. assert (t ∈ pend) as [Ho Hnl]%Hp by (rewrite Hperm; apply elem_of_cons; by right).
    split; [|done]. rewrite lookup_insert_ne; [done|]. intros ->. done.
  - done.
  - intros t. rewrite elem_of_cons, lookup_insert. case_decide; [naive_solver|].
    rewrite Hc. naive_solver.
  - constructor; [|done]. rewrite Hc. congruence.
Qed.

(** Writing a dead entry into a free slot changes no live slot. *)
Lemma sinv_insert_dead l m cl pend i old x :
  sinv l m cl pend -> l !! i = Some old -> active old = false -> active x = false ->
  sinv (<[i := x]> l) m cl pend.
Proof.
  intros [Hl Hu Hp Hpn Hc Hn] Hi Hold Hx. split; try done.
  - intros j y Hj Hy. apply list_lookup_insert_Some in Hj as [[_ [<- _]]|[_ Hj]]; [congruence|eauto].
  - apply unique_on_insert_out; [done|congruence].
  - intros t Ht. destruct (Hp t Ht) as [Ho Hnl]. split; [done|].
    intros j y Hj Hy. apply list_lookup_insert_Some in Hj as [[_ [<- _]]|[_ Hj]]; [congruence|eauto].
Qed.

(** A socket in flight becomes the socket of a live slot. *)
Lemma sinv_add_live l m cl pend pend' i old x :
  sinv l m cl pend -> pend ≡ₚ socket x :: pend' -> l !! i = Some old -> active old = false ->
  sinv (<[i := x]> l) m cl pend'.
Proof.
  intros [Hl Hu Hp Hpn Hc Hn] Hperm Hi Hold.
  assert (Hs : socket x ∈ pend) by (rewrite Hperm; apply elem_of_cons; by left).
  destruct (Hp _ Hs) as [Hso Hsl].
  rewrite Hperm in Hpn. apply NoDup_cons in Hpn as [Hsn Hpn'].
  assert (Hin : forall t, t ∈ pend' -> t ∈ pend) by (intros t Ht; rewrite Hperm; by right).
  split; try done.
  - intros j y Hj Hy. apply list_lookup_insert_Some in Hj as [[_ [<- _]]|[_ Hj]]; eauto.
  - apply unique_on_insert_fresh; [done|]. intros j y Hj Hy. eauto.
  - intros t Ht. destruct (Hp t (Hin t Ht)) as [Ho Hnl]. split; [done|].
    intros j y Hj Hy. apply list_lookup_insert_Some in Hj as [[_ [<- _]]|[_ Hj]]; [|eauto].
    intros Heq. apply Hsn. by rewrite Heq.
Qed.


Lemma close_all_closes l : eff_closes (close_all_effects l) = live_sockets l.
Proof.
  unfold close_all_effects, live_sockets, eff_closes in *. induction l as [|c l IH]; [done|].
  change (mjoin ((fun c0 => (close_slot c0).2) <$> c :: l))
    with ((close_slot c).2 ++ mjoin ((fun c0 => (close_slot c0).2) <$> l)).
  rewrite omap_app, IH, filter_cons. unfold close_slot. by destruct (active c).
Qed.

Lemma close_all_socks l m t :
  foldl sock_update m (close_all_effects l) !! t =
  if decide (t ∈ live_sockets l) then Some SClosed else m !! t.
Proof.
  unfold close_all_effects, live_sockets. revert m. induction l as [|c l IH]; intros m.
  { cbn [foldl]. rewrite decide_False; [done|]. intros Ht. simpl in Ht.
    by apply elem_of_nil in Ht. }
  change (mjoin ((fun c0 => (close_slot c0).2) <$> c :: l))
    with ((close_slot c).2 ++ mjoin ((fun c0 => (close_slot c0).2) <$> l)).
  rewrite foldl_app, IH, filter_cons. unfold close_slot.
  destruct (active c); simpl; [|done]. clear IH. rewrite insert_insert_eq, lookup_insert.
  repeat case_decide; rewrite ?elem_of_cons in *; naive_solver.
Qed.

(** [close_all_connections]: every live socket is closed once. *)
Lemma sinv_close_all l m cl pend :
  sinv l m cl pend ->
  sinv ((fun c => fst (close_slot c)) <$> l) (foldl sock_update m (close_all_effects l))
    (reverse (eff_closes (close_all_effects l)) ++ cl) pend.
Proof.
  rewrite close_all_closes. intros [Hl Hu Hp Hpn Hc Hn].
  assert (Hlive : forall t, t ∈ live_sockets l <->
            exists i c0, l !! i = Some c0 /\ active c0 = true /\ socket c0 = t).
  { intros t. unfold live_sockets. rewrite list_elem_of_fmap. split.
    - intros (c0 & -> & (Hc0 & Hin)%list_elem_of_filter).
      apply list_elem_of_lookup in Hin as [i Hi]. eauto.
    - intros (i & c0 & Hi & Hc0 & <-). exists c0. split; [done|].
      apply list_elem_of_filter. split; [done|]. by eapply list_elem_of_lookup_2. }
  split.
  - intros j y Hj Hy. apply list_lookup_fmap_Some in Hj as (z & -> & _).
    by rewrite close_slot_inactive in Hy.
  - apply unique_on_map_out. intros c0. by rewrite close_slot_inactive.
  - intros t Ht. destruct (Hp t Ht) as [Ho Hnl]. split.
    + rewrite close_all_socks, decide_False; [done|].
      intros (i & c0 & Hi & Hc0 & <-)%Hlive. by eapply Hnl.
    + intros j y Hj Hy. apply list_lookup_fmap_Some in Hj as (z & -> & _).
      by rewrite close_slot_inactive in Hy.
  - done.
  - intros t. rewrite elem_of_app, elem_of_reverse, close_all_socks, Hc.
    case_decide; [naive_solver|]. naive_solver.
  - apply NoDup_app. split_and!.
    + rewrite reverse_Permutation. apply (NoDup_unique_on (fun c0 => active c0 = true) socket l Hu).
    + intros t Ht Hcl. rewrite elem_of_reverse in Ht. apply Hlive in Ht as (i & c0 & Hi & Hc0 & <-).
      apply Hc in Hcl. rewrite (Hl i c0 Hi Hc0) in Hcl. discriminate.
    + done.
Qed.


(** A critical section's effects touch only the sockets, the
    receivers and the trace. *)
Lemma closes_effects e tr :
  closes (reverse (EvReg <$> e) ++ tr) = reverse (eff_closes e) ++ closes tr.
Proof.
  revert tr. induction e as [|x e IH]; intros tr; [done|].
  rewrite fmap_cons, !reverse_cons, <- app_assoc, IH.
  destruct x; unfold eff_closes; simpl; rewrite ?reverse_cons, <- ?app_assoc; done.
Qed.

(** Every action of every thread preserves the socket invariant. *)
Lemma exec_sock_inv c l c' : wf (reg c) -> sock_inv c -> exec c l = Some c' -> sock_inv c'.
Proof.
  destruct c as [st run m rs cp ap lip lp tr]. simpl. intros Hwf Hinv H.
  pose proof (wf_next _ Hwf) as Hnext.
  destruct l; exec_split H; unfold sock_inv, pending in *; simpl in *;
    rewrite ?closes_effects; try done;
    try match goal with H : (_ =? -1) = true |- _ => apply Z.eqb_eq in H; lia end;
    repeat match goal with H : bool_decide _ = true |- _ => apply bool_decide_eq_true in H end;
    try match goal with
    | Hf : list_find (slot_has_id _) _ = Some _ |- _ =>
        apply list_find_lookup in Hf as [? [? _]];
        first [eapply sinv_shut_retire | eapply sinv_retire]; eassumption
    | Hf : list_find slot_free _ = Some _ |- _ =>
        apply find_free_slot in Hf as (? & ? & _);
        first [ eapply sinv_add_live;
                  [eassumption|simpl; solve_Permutation|eassumption|eassumption]
              | eapply sinv_close_pending; [eapply sinv_insert_dead; [eassumption|..]|] ];
        try eassumption; try done; solve_Permutation
    | |- context [close_slot] => by apply sinv_close_all
    | |- sinv _ (<[_ := SOpen]> _) _ _ =>
        eapply sinv_open; [eassumption|done|solve_Permutation]
    | |- sinv _ (<[_ := SClosed]> _) _ _ =>
        eapply sinv_close_pending; [eassumption|solve_Permutation]
    end.
Qed.


Lemma init_sock_inv a p : sock_inv (init a p).
Proof.
  unfold sock_inv. simpl. split; simpl.
  - intros i c0 Hi. apply lookup_replicate in Hi as [-> _]. done.
  - intros i j x y Hi. apply lookup_replicate in Hi as [-> _]. done.
  - intros t Ht. by apply elem_of_nil in Ht.
  - constructor.
  - intros t. rewrite lookup_empty. split; [intros Ht; by apply elem_of_nil in Ht|done].
  - constructor.
Qed.

Lemma reachable_sock_inv a p c : reachable a p c -> sock_inv c.
Proof.
  induction 1 as [|c l c' Hr IH Hexec]; [apply init_sock_inv|].
  eapply exec_sock_inv; [|exact IH|exact Hexec].
  destruct (reachable_run a p c Hr) as [ops ->]. apply run_wf, initial_wf.
Qed.

(** (C18) Sockets are released once (the spec's single release point):
    in every interleaving of the threads, no socket is closed twice,
    whether by [remove_connection], [close_connection],
    [close_all_connections] or by a thread closing a socket the table
    refused; and the socket of every live connection is still open. *)
Theorem sockets_closed_once a p c :
  reachable a p c ->
  NoDup (closes (trace c)) /\
  forall i c0, connections (reg c) !! i = Some c0 -> active c0 = true ->
    socks c !! socket c0 = Some SOpen.
Proof.
  intros Hr. pose proof (reachable_sock_inv a p c Hr) as Hs.
  split; [apply (si_nodup _ _ _ _ Hs)|apply (si_live _ _ _ _ Hs)].
Qed.


Lemma sockets_closed_once_witness :
  reachable "192.168.1.10" 8080
    (default (init "192.168.1.10" 8080) (exec_all (init "192.168.1.10" 8080) sched_recv)) /\
  NoDup (closes (trace
    (default (init "192.168.1.10" 8080) (exec_all (init "192.168.1.10" 8080) sched_recv)))) /\
  forall i c0,
    connections (reg (default (init "192.168.1.10" 8080)
                        (exec_all (init "192.168.1.10" 8080) sched_recv))) !! i = Some c0 ->
    active c0 = true ->
    socks (default (init "192.168.1.10" 8080)
             (exec_all (init "192.168.1.10" 8080) sched_recv)) !! socket c0 = Some SOpen.
Proof.
  assert (H : reachable "192.168.1.10" 8080
    (default (init "192.168.1.10" 8080) (exec_all (init "192.168.1.10" 8080) sched_recv))).
  { apply (exec_all_reachable _ _ (init "192.168.1.10" 8080) sched_recv); [apply reach_init|].
    destruct (exec_all _ _) eqn:E; [reflexivity|vm_compute in E; discriminate]. }
  split; [exact H|]. exact (sockets_closed_once _ _ _ H).
Defined.

End Sockets.
