(* ===== verification/Shutdown.v ===== *)
(** * Shutdown: the threads stop once [running] is cleared

    [cmd_exit] (src/command.c) clears [running], closes every live
    connection, closes the listening socket, sleeps one second "to wait
    for threads to finish" and calls [exit(0)]; [SIGTERM] clears
    [running] from [signal_handler] (src/signal.c) and [main] then
    leaves its loop, joins the accept thread and returns.  The accept
    thread, the receivers and [main]'s loop test [running] only at the
    head of their loops, so once it is cleared they may still finish an
    [accept], an [add_connection], a [recv], a [remove_connection] or a
    command.  This file shows that this tail is finite and bounded by a
    measure of the configuration ([measure]), that it can always be
    completed to a configuration where every thread has left its loop
    and no action is enabled, and that a peer accepted after [cmd_exit]
    stays connected: [close_all_connections] has already run. *)

From S2P Require Import Prelude Validate Registry Signal Threads.
Import Registry Signal Threads.

Module Shutdown.

#[local] Open Scope nat_scope.

(** ** What is left to do after [running = 0] *)

(** Steps a receiver may still take once [running] is cleared. *)
Definition rmeasure (pc : rpc) : nat :=
  match pc with RLock => 3 | RRecv _ _ _ _ => 2 | RLoop | RRemove _ => 1 | RExit => 0 end.

Fixpoint rsum (rs : list rthread) : nat :=
  match rs with [] => 0 | t :: rs' => rmeasure (r_pc t) + rsum rs' end.

(** Steps of the accept thread; each one may also start a receiver,
    hence the weight 2 in [measure]. *)
Definition ameasure (pc : apc) : nat :=
  match pc with AAccept => 4 | AAdd _ _ _ => 3 | ARet _ _ _ _ => 2 | ALoop => 1 | AExit => 0 end.

(** Steps the command thread may still take: a handler runs to its end,
    then the loop sees [running = 0] and [main] joins the accept thread
    and returns.  [cmd_exit] ends the process with [exit(0)]. *)
Definition cmeasure (pc : cpc) : nat :=
  match pc with
  | CRead => 7 | CIdle => 6 | CConnectDial _ _ => 5
  | CSendWrite _ _ _ | CConnectAdd _ _ _ => 4
  | CTerminate _ | CSendFail _ | CConnectRet _ _ _ _ => 3
  | CLoop => 2 | CJoin => 1 | CExited | CDone => 0
  end.

Definition measure (c : config) : nat :=
  rsum (recvs c) + 2 * ameasure (acc c) + 2 * cmeasure (cmd c).

(** Every thread has returned: receivers and accept thread out of their
    loops, the command thread in [exit] or returned from [main]. *)
Definition stopped (c : config) : Prop :=
  Forall (fun t => r_pc t = RExit) (recvs c) /\ acc c = AExit /\ (cmd c = CExited \/ cmd c = CDone).

(** The actions of the threads, as opposed to the delivery of a signal. *)
Definition thread_label (l : label) : bool :=
  match l with LSignal _ => false | _ => true end.

(** ** Concrete schedules *)

(** A peer connects and its receiver blocks in [recv]; the accept
    thread is back in [accept] when the operator types [exit]. *)
Definition sched_exit : list label :=
  [LAcceptTop; LAccept (Some 100%Z) (peer_of [10; 0; 0; 1]%Z 40000); LAcceptAdd (Some 1%Z); LAcceptRet;
   LRecvTop 0; LRecvLock 0; LAcceptTop; LCmdTop; LCmdLine; LCmdExit].

(** The tail after [exit]: [accept] returns a second peer, inserted by
    [add_connection] after [close_all_connections]; the receiver of the
    first peer fails and returns, the new receiver sees [running = 0]. *)
Definition sched_tail : list label :=
  [LAccept (Some 200%Z) (peer_of [10; 0; 0; 2]%Z 40001); LAcceptAdd (Some 2%Z); LAcceptRet; LAcceptTop;
   LRecvErr 0 false; LRecvRemove 0; LRecvTop 1].

Definition exited : config :=
  default (init "192.168.1.10" 8080) (exec_all (init "192.168.1.10" 8080) sched_exit).

(** The slot a command-thread state points to. *)
Definition cmd_slot (pc : cpc) : option nat :=
  match pc with CSendWrite _ _ slot | CConnectRet _ _ _ slot => Some slot | _ => None end.

(** What start-up and every action keep: the table keeps its
    [MAX_CONNECTIONS] slots; every receiver and every slot the accept
    or command thread reads after releasing the mutex are slots of the
    table. *)
Record sd_inv (c : config) : Prop := {
  sd_len : length (connections (reg c)) = MAX_CONNECTIONS;
  sd_recvs : Forall (fun t => r_slot t < MAX_CONNECTIONS) (recvs c);
  sd_acc : forall s a p slot, acc c = ARet s a p slot -> slot < MAX_CONNECTIONS;
  sd_cmd : forall slot, cmd_slot (cmd c) = Some slot -> slot < MAX_CONNECTIONS
}.

(** ** Lemmas *)

Lemma exec_length c l c' :
  exec c l = Some c' -> length (connections (reg c')) = length (connections (reg c)).
Proof. intros H. destruct (exec_reg c l c' H) as [->|[o ->]]; [done|apply length_exec_op]. Qed.

Lemma rsum_app l1 l2 : rsum (l1 ++ l2) = rsum l1 + rsum l2.
Proof. induction l1 as [|t l1 IH]; simpl; lia. Qed.

Lemma rsum_insert rs i t x :
  rs !! i = Some t -> rsum (<[i := x]> rs) + rmeasure (r_pc t) = rsum rs + rmeasure (r_pc x).
Proof.
  revert i. induction rs as [|u rs IH]; intros [|i] Hi; simplify_eq/=.
  - lia.
  - specialize (IH i Hi). lia.
Qed.

Lemma rsum_pos rs : rsum rs <> 0 -> exists i t, rs !! i = Some t /\ r_pc t <> RExit.
Proof.
  induction rs as [|t rs IH]; simpl; [done|]. intros H.
  destruct (decide (r_pc t = RExit)) as [Ht|Ht].
  - rewrite Ht in H. destruct IH as (i & u & ? & ?); [simpl in H; lia|]. by exists (S i), u.
  - by exists 0, t.
Qed.

Lemma rsum_zero rs : rsum rs = 0 -> Forall (fun t => r_pc t = RExit) rs.
Proof.
  induction rs as [|t rs IH]; intros H; constructor; simpl in H.
  - destruct (r_pc t); simpl in H; done || lia.
  - apply IH. lia.
Qed.

(** [close_all_connections] starts no receiver. *)
Lemma spawned_close_all l : spawned (mjoin ((fun c => (close_slot c).2) <$> l)) = [].
Proof.
  induction l as [|x l IH]; [done|]. unfold spawned in *. rewrite fmap_cons.
  change (mjoin (?a :: ?b)) with (a ++ mjoin b). rewrite omap_app, IH, app_nil_r. unfold close_slot. by destruct (active x).
Qed.

Lemma init_sd_inv a p : sd_inv (init a p).
Proof. split; [apply length_replicate|constructor|done|done]. Qed.

Lemma exec_sd_inv c l c' : sd_inv c -> exec c l = Some c' -> sd_inv c'.
Proof.
  intros [Hl Hr Ha Hc] H. pose proof (exec_length c l c' H) as Hlen.
  destruct c as [st run m rs cp ap lip lp tr]; simpl in *.
  destruct l; exec_split H; split; simpl in *; intros; simplify_eq;
    rewrite ?length_fmap, ?spawned_close_all; try lia; eauto;
    repeat match goal with
    | H : list_find _ _ = Some _ |- _ => apply list_find_Some in H as [?%lookup_lt_Some _]
    | H : get_connection_by_id _ _ = Some _ |- _ =>
        apply get_connection_by_id_lookup in H as (? & ?%lookup_lt_Some & _)
    end;
    repeat first [apply Forall_nil_2 | apply Forall_cons_2 | apply Forall_app_2 | apply Forall_insert];
    simpl;
    try lia; try done;
    match goal with Hf : Forall _ ?rs, H : ?rs !! _ = Some _ |- _ =>
      rewrite Forall_lookup in Hf; by eapply Hf end.
Qed.

Lemma reachable_sd_inv a p c : reachable a p c -> sd_inv c.
Proof. induction 1; [apply init_sd_inv|by eapply exec_sd_inv]. Qed.

(** Once [running] is cleared it stays cleared; every action of a
    thread strictly decreases [measure], and a signal leaves it. *)
Lemma exec_after_exit c l c' :
  running c = false -> exec c l = Some c' ->
  running c' = false /\
  (if thread_label l then measure c' < measure c else measure c' = measure c).
Proof.
  intros Hrun H. destruct c as [st run m rs cp ap lip lp tr]; simpl in *; subst.
  destruct l; exec_split H; unfold measure; simpl; split; try done;
    rewrite ?rsum_app, ?spawned_close_all; simpl;
    try match goal with H : ?rs !! ?i = Some ?t |- context [<[?i := ?x]> ?rs] =>
      pose proof (rsum_insert rs i t x H) end;
    repeat match goal with H : r_pc _ = _ |- _ => rewrite H in * end; simpl in *; try lia;
    match goal with H : deliver _ _ _ = Handled _ _ |- _ =>
      apply deliver_handled_running in H; subst; by case_match end.
Qed.

Lemma exec_all_after_exit c ls c' :
  sd_inv c -> running c = false -> exec_all c ls = Some c' ->
  length (filter (fun l => thread_label l = true) ls) + measure c' <= measure c /\
  running c' = false.
Proof.
  revert c. induction ls as [|l ls IH]; intros c Hi Hrun H; simpl in H;
    [simplify_eq; split; [simpl; lia|done]|].
  destruct (exec c l) as [c1|] eqn:E; [|done]. simpl in H.
  destruct (exec_after_exit c l c1 Hrun E) as [Hrun1 Hlt].
  destruct (IH c1 (exec_sd_inv c l c1 Hi E) Hrun1 H). rewrite filter_cons.
  destruct (thread_label l); simpl; (split; [lia|done]).
Qed.

(** A receiver that has not returned can move once [running] is 0. *)
Lemma recv_progress c i t :
  sd_inv c -> running c = false -> recvs c !! i = Some t -> r_pc t <> RExit ->
  exists l c', thread_label l = true /\ exec c l = Some c'.
Proof.
  intros [Hl Hr _ _] Hrun Hi Ht. rewrite Forall_lookup in Hr. pose proof (Hr i t Hi) as Hs.
  destruct (r_pc t) eqn:Hpc; [| | | |done].
  - exists (LRecvTop i). simpl. rewrite Hi. simpl. rewrite Hpc, Hrun. eauto.
  - exists (LRecvLock i). simpl. rewrite Hi. simpl. rewrite Hpc.
    destruct (lookup_lt_is_Some_2 (connections (reg c)) (r_slot t)) as [c0 ->];
      [lia|]. simpl. case_match; eauto.
  - exists (LRecvErr i false). simpl. rewrite Hi. simpl. rewrite Hpc. eauto.
  - exists (LRecvRemove i). simpl. rewrite Hi. simpl. rewrite Hpc. case_match. eauto.
Qed.

(** The accept thread, if it has not returned, can move. *)
Lemma acc_progress c :
  sd_inv c -> running c = false -> acc c <> AExit ->
  exists l c', thread_label l = true /\ exec c l = Some c'.
Proof.
  intros [Hl _ Ha _] Hrun Hm.
  destruct (acc c) as [| | s a p| s a p slot|] eqn:E; [..|done].
  - exists LAcceptTop. simpl. rewrite E, Hrun. eauto.
  - exists (LAccept None (mkSockaddr 0 [])). simpl. rewrite E. eauto.
  - exists (LAcceptAdd None). simpl. rewrite E. unfold add_step. repeat case_match; eauto.
  - exists LAcceptRet. simpl. rewrite E.
    destruct (lookup_lt_is_Some_2 (connections (reg c)) slot) as [c0 ->];
      [rewrite Hl; by eapply Ha|]. simpl. eauto.
Qed.

(** Once the accept thread has returned, the command thread, if it has
    neither exited nor returned from [main], can move. *)
Lemma cmd_progress c :
  sd_inv c -> running c = false -> acc c = AExit -> cmeasure (cmd c) <> 0 ->
  exists l c', thread_label l = true /\ exec c l = Some c'.
Proof.
  intros [Hl _ _ Hc] Hrun Ha Hm.
  assert (Hslot : forall slot, cmd_slot (cmd c) = Some slot ->
            is_Some (connections (reg c) !! slot)).
  { intros slot Hs. apply lookup_lt_is_Some_2. rewrite Hl. by apply Hc. }
  destruct (cmd c) eqn:E; simpl in Hm; try lia.
  - exists LCmdTop. simpl. unfold main_loop_head. rewrite E, Hrun. eauto.
  - exists LCmdEof. simpl. unfold main_fgets. rewrite E. eauto.
  - exists LCmdOther. simpl. rewrite E. eauto.
  - exists LCmdTerminateClose. simpl. rewrite E. case_match. eauto.
  - exists (LCmdSendWrite (-1)). simpl. rewrite E.
    destruct (Hslot slot eq_refl) as [c0 ->]. simpl. unfold send_message. rewrite andb_false_r.
    eauto.
  - exists LCmdSendRemove. simpl. rewrite E. case_match. eauto.
  - exists (LCmdDial None). simpl. rewrite E. eauto.
  - exists (LCmdAdd None). simpl. rewrite E. unfold add_step. repeat case_match; eauto.
  - exists LCmdRet. simpl. rewrite E. destruct (Hslot slot eq_refl) as [c0 ->]. simpl. eauto.
  - exists LCmdJoin. simpl. unfold main_join. rewrite E, Ha. eauto.
Qed.

(** After [running] is cleared, a thread that has not returned can move. *)
Lemma progress_after_exit c :
  sd_inv c -> running c = false -> measure c <> 0 ->
  exists l c', thread_label l = true /\ exec c l = Some c'.
Proof.
  intros Hi Hrun Hm. unfold measure in Hm.
  destruct (decide (rsum (recvs c) = 0)) as [Hz|(i & t & Hit & Ht)%rsum_pos];
    [|by eapply recv_progress].
  destruct (decide (acc c = AExit)) as [Ha|Ha]; [|by apply acc_progress].
  apply cmd_progress; [done..|]. rewrite Ha in Hm. simpl in Hm. lia.
Qed.

(** A stopped configuration enables no action. *)
Lemma stopped_final c l : stopped c -> exec c l = None.
Proof.
  intros (Hr & Ha & Hc). rewrite Forall_lookup in Hr.
  destruct l; simpl; unfold main_loop_head, main_fgets, main_join, signal_step;
    rewrite ?Ha; destruct Hc as [Hc|Hc]; rewrite ?Hc; try done;
    try case_match; try done;
    destruct (recvs c !! _) as [t|] eqn:E; simpl; try done; by rewrite (Hr _ _ E).
Qed.

(** Completing the tail: from any configuration with [running = 0],
    some schedule of the threads reaches a stopped configuration. *)
Lemma complete_after_exit n c :
  measure c <= n -> sd_inv c -> running c = false ->
  exists ls c', exec_all c ls = Some c' /\ stopped c'.
Proof.
  revert c. induction n as [|n IH]; intros c Hn Hi Hrun.
  - exists [], c. split; [done|]. unfold measure in Hn. split_and!; [apply rsum_zero; lia| |].
    + destruct (acc c); simpl in Hn; done || lia.
    + destruct (cmd c); simpl in Hn; try lia; auto.
  - destruct (decide (measure c = 0)) as [Hz|Hnz]; [apply IH; lia || done|].
    destruct (progress_after_exit c Hi Hrun Hnz) as (l & c1 & Hl & E).
    destruct (exec_after_exit c l c1 Hrun E) as [Hrun1 Hlt]. rewrite Hl in Hlt.
    destruct (IH c1 ltac:(lia) (exec_sd_inv c l c1 Hi E) Hrun1) as (ls & c' & Hls & Hs).
    exists (l :: ls), c'. simpl. by rewrite E.
Qed.

(** ** Properties of the shutdown *)

(** (C19) Once [running] is cleared, by [cmd_exit] or by [SIGTERM],
    the program runs out of work: from a reachable configuration with
    [running = 0], any schedule the threads can execute has at most
    [measure c] actions of the threads (three per receiver, eight for
    the accept thread, twelve for the command thread at most), whatever
    the operating system answers and however many signals arrive in
    between. *)
Theorem shutdown_bounded a p c ls c' :
  reachable a p c -> running c = false -> exec_all c ls = Some c' ->
  length (filter (fun l => thread_label l = true) ls) <= measure c.
Proof.
  intros Hr Hrun H. pose proof (exec_all_after_exit c ls c' (reachable_sd_inv a p c Hr) Hrun H).
  lia.
Qed.

(** (C20) Once [running] is cleared the threads can always finish:
    from every reachable configuration with [running = 0] some schedule
    leads to a configuration where every receiver and the accept thread
    have left their loops and the command thread has called [exit] or
    returned from [main], and where no thread can act any more. *)
Theorem shutdown_completes a p c :
  reachable a p c -> running c = false ->
  exists ls c', exec_all c ls = Some c' /\ stopped c' /\ forall l, exec c' l = None.
Proof.
  intros Hr Hrun.
  destruct (complete_after_exit (measure c) c (le_n _) (reachable_sd_inv a p c Hr) Hrun)
    as (ls & c' & H & Hs).
  exists ls, c'. split_and!; [done|done|]. intros l. by apply stopped_final.
Qed.

(** (C21) A peer accepted during shutdown stays connected.  [cmd_exit]
    clears [running] and then calls [close_all_connections]; an
    [accept] that returns in between (the listening socket is closed
    only afterwards) goes on to [add_connection], which inserts the peer
    after the table was emptied.  In [sched_exit ++ sched_tail] every
    thread then returns, but connection 2 (10.0.0.2) is live in the
    table with its socket open: nothing shuts it down or closes it. *)
Theorem accept_after_exit :
  exists c, exec_all (init "192.168.1.10" 8080) (sched_exit ++ sched_tail) = Some c /\
    reachable "192.168.1.10" 8080 c /\
    running c = false /\ stopped c /\
    connections (reg c) !! 0 = Some (mkConnection 2 200 "10.0.0.2" 40001 2 true) /\
    socks c !! 200%Z = Some SOpen.
Proof.
  apply run_schedule; [|vm_compute; eauto].
  intros c Hc. vm_compute in Hc. injection Hc as <-.
  split_and!; try reflexivity. repeat constructor.
Qed.

(** ** Witnesses *)

Lemma exited_reachable : reachable "192.168.1.10" 8080 exited.
Proof.
  unfold exited. apply (exec_all_reachable _ _ (init "192.168.1.10" 8080) sched_exit); [apply reach_init|].
  destruct (exec_all _ _) eqn:E; [reflexivity|vm_compute in E; discriminate].
Qed.

Lemma shutdown_bounded_witness :
  reachable "192.168.1.10" 8080 exited /\ running exited = false /\
  is_Some (exec_all exited sched_tail) /\
  length (filter (fun l => thread_label l = true) sched_tail) <= measure exited.
Proof.
  split_and!; [exact exited_reachable|vm_compute; reflexivity|vm_compute; eauto|].
  destruct (exec_all exited sched_tail) as [c'|] eqn:E; [|vm_compute in E; discriminate].
  apply (shutdown_bounded _ _ _ _ c' exited_reachable); [vm_compute; reflexivity|exact E].
Defined.

Lemma shutdown_completes_witness :
  reachable "192.168.1.10" 8080 exited /\ running exited = false /\
  exists ls c', exec_all exited ls = Some c' /\ stopped c' /\ forall l, exec c' l = None.
Proof.
  split_and!; [exact exited_reachable|vm_compute; reflexivity|].
  apply (shutdown_completes _ _ _ exited_reachable). vm_compute. reflexivity.
Defined.

End Shutdown.
