(* ===== verification/Sigterm.v ===== *)
(** * Shutdown by [SIGTERM]

    [signal_handler] (src/signal.c) answers [SIGTERM] by clearing
    [running] and nothing else.  [main] (src/main.c) then leaves its
    loop once the line it is reading has been handled, joins the accept
    thread and returns.  Unlike [cmd_exit], this path closes no
    connection and not the listening socket: the accept thread stays
    blocked in [accept] until a peer connects (or [accept] fails), so
    [pthread_join] waits for that, and a peer that connects in the
    meantime is inserted into the table after [running] was cleared.
    This file states both facts on the step function of [Threads]. *)

From S2P Require Import Prelude Validate Registry Signal Threads.
Import Registry Signal Threads.

Module Sigterm.

(** A peer connects and its receiver blocks in [recv]; the accept
    thread is back in [accept] and [main] waits in [fgets] when
    [SIGTERM] arrives. *)
Definition sched_sigterm_pre : list label :=
  [LAcceptTop; LAccept (Some 100) (peer_of [10; 0; 0; 1] 40000); LAcceptAdd (Some 1); LAcceptRet;
   LRecvTop 0; LRecvLock 0; LAcceptTop; LCmdTop; LSignal SIGTERM].

(** [fgets] resumes and returns when the operator enters an empty line;
    the loop of [main] ends and [main] joins the accept thread, which
    returns when a second peer connects. *)
Definition sched_sigterm_post : list label :=
  [LCmdLine; LCmdOther; LCmdTop;
   LAccept (Some 200) (peer_of [10; 0; 0; 2] 40001); LAcceptAdd (Some 2); LAcceptRet; LAcceptTop;
   LCmdJoin].

Definition joining : config :=
  default (init "192.168.1.10" 8080) (exec_all (init "192.168.1.10" 8080) sched_sigterm_pre).

(** ** A thread blocked until some action happens *)

Section Blocked.
(** [P] holds of the configuration while a thread is blocked; only an
    action [wakes] can end it. *)
Variable P : config -> Prop.
Variable wakes : label -> Prop.
Hypothesis wakes_dec : forall l, {wakes l} + {~ wakes l}.
Hypothesis stays : forall c l c', P c -> ~ wakes l -> exec c l = Some c' -> P c'.

Lemma exec_all_blocked c ls c' :
  P c -> exec_all c ls = Some c' -> ~ P c' -> exists l, In l ls /\ wakes l.
Proof.
  revert c. induction ls as [|l ls IH]; intros c Hc H Hn; simpl in H; [by simplify_eq|].
  destruct (exec c l) as [c1|] eqn:E; [|done]. simpl in H.
  destruct (wakes_dec l) as [Hw|Hw]; [exists l; by split; [left|]|].
  destruct (IH c1 (stays c l c1 Hc Hw E) H Hn) as (l' & Hin & Hl'). exists l'. by split; [right|].
Qed.
End Blocked.

(** ** Lemmas *)

Definition is_accept (l : label) : Prop := exists o sa, l = LAccept o sa.
Definition is_fgets (l : label) : Prop := l = LCmdLine \/ l = LCmdEof.

Lemma is_accept_dec l : {is_accept l} + {~ is_accept l}.
Proof.
  destruct l; try (right; intros (? & ? & ?); discriminate). left. by eexists _, _.
Defined.

Lemma is_fgets_dec l : {is_fgets l} + {~ is_fgets l}.
Proof. unfold is_fgets. destruct l; first [left; first [by left | by right] | right; intros [?|?]; discriminate]. Defined.

(** The accept thread leaves [accept] only by an answer of [accept];
    until the accept thread has returned, [main] cannot return. *)
Lemma exec_acc_blocked c l c' :
  acc c = AAccept /\ cmd c <> CDone -> ~ is_accept l -> exec c l = Some c' ->
  acc c' = AAccept /\ cmd c' <> CDone.
Proof.
  intros [Ha Hc] Hl H. destruct c as [st run m rs cp ap lip lp tr]; simpl in *; subst.
  destruct l; try (exfalso; apply Hl; do 2 eexists; reflexivity); exec_split H; split; congruence.
Qed.

(** [main] leaves [fgets] only when it returns. *)
Lemma exec_read_blocked c l c' :
  cmd c = CRead -> ~ is_fgets l -> exec c l = Some c' -> cmd c' = CRead.
Proof.
  intros Hc Hl H. destruct c as [st run m rs cp ap lip lp tr]; simpl in *; subst.
  destruct l; try (exfalso; apply Hl; first [by left | by right]); exec_split H; done.
Qed.

(** ** The properties *)

(** (C17) [SIGTERM] leaves every link open and lets a new peer in.
    In [sched_sigterm_pre ++ sched_sigterm_post], [SIGTERM] arrives
    while connection 1 (10.0.0.1) is live and [main] waits for input;
    once a line is entered [main] leaves its loop and joins the accept
    thread, whose [accept] returns a second peer (10.0.0.2) that
    [add_connection] inserts after [running] was cleared.  [main]
    returns with both connections live in the table, their sockets open
    and never shut down or closed, and the receiver of connection 1
    still blocked in [recv]: nothing on this path does what the
    specification asks of process shutdown (force every handle
    closed). *)
Theorem sigterm_leaves_links_open :
  exists c, exec_all (init "192.168.1.10" 8080) (sched_sigterm_pre ++ sched_sigterm_post) = Some c /\
    reachable "192.168.1.10" 8080 c /\
    cmd c = CDone /\ running c = false /\
    connections (reg c) !! 0%nat = Some (mkConnection 1 100 "10.0.0.1" 40000 1 true) /\
    connections (reg c) !! 1%nat = Some (mkConnection 2 200 "10.0.0.2" 40001 2 true) /\
    socks c !! 100 = Some SOpen /\ socks c !! 200 = Some SOpen /\
    recvs c !! 0%nat = Some (mkRthread 0 (RRecv 100 "10.0.0.1" 40000 1)).
Proof.
  apply run_schedule; [|vm_compute; eauto].
  intros c Hc. vm_compute in Hc. injection Hc as <-. split_and!; reflexivity.
Qed.

(** After [SIGTERM], [main] returns only once [accept] and
    [fgets] have.  From any configuration where the accept thread is
    blocked in [accept] and [main] has not returned, every schedule
    after which [main] has returned contains an answer of [accept] (a
    peer connecting, or [accept] failing): [pthread_join(accept_thread)]
    waits for it, and the [SIGTERM] path closes nothing that would make
    [accept] return.  If [main] was blocked in [fgets], the schedule
    also contains [fgets] returning (a line typed, or the end of
    input): the handler does not interrupt the read. *)
Theorem sigterm_exit_waits c ls c' :
  acc c = AAccept -> cmd c <> CDone -> exec_all c ls = Some c' -> cmd c' = CDone ->
  (exists l, In l ls /\ is_accept l) /\ (cmd c = CRead -> exists l, In l ls /\ is_fgets l).
Proof.
  intros Ha Hc H Hd. split.
  - apply (exec_all_blocked (fun c => acc c = AAccept /\ cmd c <> CDone) is_accept
             is_accept_dec exec_acc_blocked c ls c'); [done|done|naive_solver].
  - intros Hr. apply (exec_all_blocked (fun c => cmd c = CRead) is_fgets is_fgets_dec
                        exec_read_blocked c ls c'); [done|done|congruence].
Qed.

(** ** Witnesses *)

Lemma sigterm_exit_waits_witness :
  acc joining = AAccept /\ cmd joining = CRead /\
  (exists l, In l sched_sigterm_post /\ is_accept l) /\
  (exists l, In l sched_sigterm_post /\ is_fgets l).
Proof.
  assert (Ha : acc joining = AAccept) by (vm_compute; reflexivity).
  assert (Hc : cmd joining = CRead) by (vm_compute; reflexivity).
  split; [exact Ha|]. split; [exact Hc|].
  destruct (exec_all joining sched_sigterm_post) as [c'|] eqn:E; [|vm_compute in E; discriminate].
  assert (Hd : cmd c' = CDone) by (revert E; vm_compute; intros [= <-]; reflexivity).
  destruct (sigterm_exit_waits joining sched_sigterm_post c' Ha ltac:(by rewrite Hc) E Hd)
    as [H1 H2].
  split; [exact H1|exact (H2 Hc)].
Defined.

End Sigterm.
