(* ===== verification/Text.v ===== *)
(** * Command lines: the string helpers of src/signal.c and [process_command]

    A C string is the list of its characters before the NUL, a
    [list ascii].  [trim_string], [str_to_lower], [str_to_upper] and
    [is_empty_string] are translated from src/signal.c, with their
    loops as structural recursions ([trim_len] counts [len] down as the
    [while] loop does).  [process_command] of src/command.c is
    translated from the source: [trim_string], the empty test, the
    [sscanf(command, "%s %s %[^\n]", ...)] split and the [strcmp]
    dispatch, returning the handler call it makes as an [action].

    [isspace], [tolower], [toupper] (C locale), [sscanf] with this
    format and [atoi] are C library functions, modelled from the C
    standard and the GNU C library: [atoi] is [(int) strtol(s, NULL,
    10)], where [strtol] saturates at the bounds of a 64-bit [long] and
    the conversion to [int] keeps the low 32 bits. *)

From S2P Require Import Prelude Validate.
From Stdlib Require Import Ascii.
From Stdlib Require String.

Module Text.

(** ** C library character functions (C locale) *)

Definition isspace (ch : ascii) : bool :=
  let n := nat_of_ascii ch in (n =? 32)%nat || ((9 <=? n)%nat && (n <=? 13)%nat).

Definition isdigit (ch : ascii) : bool :=
  let n := nat_of_ascii ch in (48 <=? n)%nat && (n <=? 57)%nat.

Definition tolower (ch : ascii) : ascii :=
  let n := nat_of_ascii ch in
  if (65 <=? n)%nat && (n <=? 90)%nat then ascii_of_nat (n + 32) else ch.

Definition toupper (ch : ascii) : ascii :=
  let n := nat_of_ascii ch in
  if (97 <=? n)%nat && (n <=? 122)%nat then ascii_of_nat (n - 32) else ch.

Definition newline : ascii := ascii_of_nat 10.

(** ** src/signal.c *)

(** The first loop of [trim_string]:
    [while (len > 0 && isspace(str[len - 1])) str[--len] = '\0';]
    returns the final [len]. *)
Fixpoint trim_len (s : list ascii) (len : nat) : nat :=
  match len with
  | O => O
  | S l =>
      match s !! l with
      | Some ch => if isspace ch then trim_len s l else len
      | None => len
      end
  end.

(** The second loop: [while ( *start && isspace( *start)) start++;]. *)
Fixpoint skip_space (s : list ascii) : list ascii :=
  match s with
  | [] => []
  | ch :: rest => if isspace ch then skip_space rest else s
  end.

(** [trim_string]: cut the trailing white space, then [memmove] the
    string from the first non-space character. *)
Definition trim_string (s : list ascii) : list ascii :=
  skip_space (take (trim_len s (length s)) s).

Definition str_to_lower (s : list ascii) : list ascii := tolower <$> s.
Definition str_to_upper (s : list ascii) : list ascii := toupper <$> s.

Fixpoint is_empty_string (s : list ascii) : bool :=
  match s with
  | [] => true
  | ch :: rest => if negb (isspace ch) then false else is_empty_string rest
  end.

(** ** [sscanf(command, "%s %s %[^\n]", cmd, arg1, arg2)] *)

(** [%s] after its white-space skip: the longest non-space prefix. *)
Fixpoint read_token (s : list ascii) : list ascii * list ascii :=
  match s with
  | [] => ([], [])
  | ch :: rest =>
      if isspace ch then ([], s) else let '(t, r) := read_token rest in (ch :: t, r)
  end.

(** [%[^\n]]: the longest prefix without a newline. *)
Fixpoint read_line (s : list ascii) : list ascii * list ascii :=
  match s with
  | [] => ([], [])
  | ch :: rest =>
      if bool_decide (ch = newline) then ([], s)
      else let '(t, r) := read_line rest in (ch :: t, r)
  end.

(** The number of conversions [sscanf] returns ([-1], [EOF], when the
    input ends before the first one) and the three buffers, which
    [process_command] zeroes first.  A directive that fails leaves its
    buffer and the following ones untouched. *)
Definition sscanf_cmd (s : list ascii) : Z * list ascii * list ascii * list ascii :=
  match skip_space s with
  | [] => (-1, [], [], [])
  | s1 =>
      let '(t1, r1) := read_token s1 in
      match skip_space (skip_space r1) with
      | [] => (1, t1, [], [])
      | s2 =>
          let '(t2, r2) := read_token s2 in
          match read_line (skip_space r2) with
          | ([], _) => (2, t1, t2, [])
          | (t3, _) => (3, t1, t2, t3)
          end
      end
  end.

(** ** Specification of [trim_string] *)

Definition trimmed (r : list ascii) : Prop :=
  (forall ch, head r = Some ch -> isspace ch = false) /\
  (forall ch, last r = Some ch -> isspace ch = false).

(** [r] is [s] without its leading and trailing white space. *)
Definition stripped (s r : list ascii) : Prop :=
  exists pre suf, s = pre ++ r ++ suf /\ Forall (fun ch => isspace ch = true) pre /\
    Forall (fun ch => isspace ch = true) suf /\ trimmed r.

(** ** Well-formed command lines *)

Definition spaces (w : list ascii) : Prop := Forall (fun ch => isspace ch = true) w.

(** A word: what [%s] reads. *)
Definition token (t : list ascii) : Prop := t <> [] /\ Forall (fun ch => isspace ch = false) t.

(** A last argument, as [%[^\n]] reads it from a trimmed line. *)
Definition line_arg (m : list ascii) : Prop :=
  m <> [] /\ trimmed m /\ Forall (fun ch => ch <> newline) m.

(** ** [atoi] *)

Definition LONG_MAX : Z := 2 ^ 63 - 1.
Definition LONG_MIN : Z := - 2 ^ 63.

(** The conversion of a [long] to [int]: the low 32 bits, signed. *)
Definition to_int (z : Z) : Z :=
  let m := z mod 2 ^ 32 in if 2 ^ 31 <=? m then m - 2 ^ 32 else m.

(** The digits of [strtol], accumulated from [acc]. *)
Fixpoint digits_value (s : list ascii) (acc : Z) : Z :=
  match s with
  | [] => acc
  | ch :: rest =>
      if isdigit ch then digits_value rest (10 * acc + (Z.of_nat (nat_of_ascii ch) - 48)) else acc
  end.

(** [strtol(s, NULL, 10)]: white space, an optional sign, digits; the
    value saturates at [LONG_MIN] and [LONG_MAX]. *)
Definition strtol10 (s : list ascii) : Z :=
  let v := match skip_space s with
           | ch :: rest =>
               if bool_decide (nat_of_ascii ch = 45%nat) then - digits_value rest 0
               else if bool_decide (nat_of_ascii ch = 43%nat) then digits_value rest 0
               else digits_value (ch :: rest) 0
           | [] => 0
           end in
  Z.max LONG_MIN (Z.min LONG_MAX v).

Definition atoi (s : list ascii) : Z := to_int (strtol10 s).

(** Decimal notation of a non-negative [int], as [printf("%d")] writes
    it (enough digits for any [long]). *)
Definition digit_char (d : Z) : ascii := ascii_of_nat (48 + Z.to_nat d).

Fixpoint dec_string_aux (fuel : nat) (n : Z) (acc : list ascii) : list ascii :=
  match fuel with
  | O => acc
  | S f =>
      let acc' := digit_char (n mod 10) :: acc in
      if n <? 10 then acc' else dec_string_aux f (n / 10) acc'
  end.

Definition dec_string (n : Z) : list ascii := dec_string_aux 20 n [].

(** ** [process_command] *)

(** The handler [process_command] calls, with its arguments. *)
Inductive action :=
  | ANothing                                 (** empty line *)
  | AHelp
  | AMyIp
  | AMyPort
  | AConnect (ip : string) (port : Z)
  | AList
  | ATerminate (conn_id : Z)
  | ASend (conn_id : Z) (message : string)
  | AExit
  | AUsage (cmd : string)                    (** too few arguments *)
  | AUnknown (cmd : string).

Definition kw (s : string) : list ascii := String.list_ascii_of_string s.

(** The [strcmp] chain on the fields [sscanf] returned. *)
Definition dispatch (fields : Z * list ascii * list ascii * list ascii) : action :=
  let '(args, cmd, arg1, arg2) := fields in
  if bool_decide (cmd = kw "help") then AHelp
  else if bool_decide (cmd = kw "myip") then AMyIp
  else if bool_decide (cmd = kw "myport") then AMyPort
  else if bool_decide (cmd = kw "connect") then
    if 3 <=? args then AConnect (String.string_of_list_ascii arg1) (atoi arg2)
    else AUsage "connect"
  else if bool_decide (cmd = kw "list") then AList
  else if bool_decide (cmd = kw "terminate") then
    if 2 <=? args then ATerminate (atoi arg1) else AUsage "terminate"
  else if bool_decide (cmd = kw "send") then
    if 3 <=? args then ASend (atoi arg1) (String.string_of_list_ascii arg2) else AUsage "send"
  else if bool_decide (cmd = kw "exit") then AExit
  else AUnknown (String.string_of_list_ascii cmd).

Definition process_command (command : list ascii) : action :=
  let command := trim_string command in
  if bool_decide (command = []) then ANothing else dispatch (sscanf_cmd command).

(** ** [trim_string] *)

Lemma skip_space_spaces pre l :
  Forall (fun ch => isspace ch = true) pre -> skip_space (pre ++ l) = skip_space l.
Proof. induction 1 as [|ch pre Hch _ IH]; [done|]. simpl. by rewrite Hch. Qed.

Lemma skip_space_head l ch : head (skip_space l) = Some ch -> isspace ch = false.
Proof.
  induction l as [|c l IH]; simpl; [done|]. destruct (isspace c) eqn:E; [done|].
  simpl. by intros [= <-].
Qed.

Lemma skip_space_decomp l :
  exists pre, l = pre ++ skip_space l /\ Forall (fun ch => isspace ch = true) pre.
Proof.
  induction l as [|c l (pre & Hl & Hpre)]; [by exists []|]. simpl.
  destruct (isspace c) eqn:E; [|by exists []].
  exists (c :: pre). split; [simpl; by rewrite <- Hl|by constructor].
Qed.

Lemma skip_space_trimmed l ch : head l = Some ch -> isspace ch = false -> skip_space l = l.
Proof. destruct l; simpl; [done|]. intros [= ->] ->. done. Qed.

(** The trailing loop steps over white space ... *)
Lemma trim_len_spaces s n m :
  (forall j ch, n <= j < n + m -> s !! j = Some ch -> isspace ch = true)%nat ->
  (n + m <= length s)%nat -> trim_len s (n + m) = trim_len s n.
Proof.
  induction m as [|m IH]; intros Hsp Hlen; [by rewrite Nat.add_0_r|].
  rewrite Nat.add_succ_r. simpl.
  destruct (lookup_lt_is_Some_2 s (n + m)) as [ch Hch]; [lia|]. rewrite Hch.
  rewrite (Hsp (n + m)%nat ch); [|lia|done]. apply IH; [|lia].
  intros j c Hj. apply Hsp. lia.
Qed.

(** ... and stops at the last character that is not. *)
Lemma trim_len_spec s n :
  (n <= length s)%nat ->
  (trim_len s n <= n)%nat /\
  (forall j ch, trim_len s n <= j < n -> s !! j = Some ch -> isspace ch = true)%nat /\
  (trim_len s n = 0%nat \/ exists ch, s !! pred (trim_len s n) = Some ch /\ isspace ch = false).
Proof.
  induction n as [|n IH]; intros Hn; simpl.
  - split_and!; [lia|lia|by left].
  - destruct (lookup_lt_is_Some_2 s n) as [ch Hch]; [lia|]. rewrite Hch.
    destruct (isspace ch) eqn:E.
    + destruct IH as (H1 & H2 & H3); [lia|]. split_and!; [lia| |done].
      intros j c Hj Hc. destruct (decide (j = n)) as [->|]; [congruence|]. apply (H2 j); [lia|done].
    + split_and!; [lia|lia|]. right. by exists ch.
Qed.

Lemma trim_string_correct s r : stripped s r -> trim_string s = r.
Proof.
  intros (pre & suf & -> & Hpre & Hsuf & [Hh Hl]). unfold trim_string.
  rewrite Forall_lookup in Hpre, Hsuf. rewrite app_assoc.
  set (a := pre ++ r).
  assert (Hk : trim_len (a ++ suf) (length (a ++ suf)) = trim_len (a ++ suf) (length a)).
  { rewrite length_app. apply trim_len_spaces; [|rewrite length_app; lia].
    intros j ch Hj. rewrite lookup_app_r by lia. apply Hsuf. }
  rewrite Hk. destruct (decide (r = [])) as [->|Hne].
  - subst a. rewrite app_nil_r. rewrite <- (Nat.add_0_l (length pre)), trim_len_spaces.
    + done.
    + intros j ch Hj. rewrite lookup_app_l by lia. apply Hpre.
    + rewrite length_app. lia.
  - destruct (exists_last Hne) as (r' & c & ->). rewrite last_snoc in Hl.
    specialize (Hl c eq_refl).
    assert (Hc : trim_len (a ++ suf) (length a) = length a).
    { subst a. rewrite app_assoc, length_app, Nat.add_1_r. simpl.
      replace (((pre ++ r') ++ [c]) ++ suf) with ((pre ++ r') ++ c :: suf)
        by (by rewrite <- !app_assoc).
      rewrite list_lookup_middle by done. by rewrite Hl. }
    rewrite Hc, take_app_length. subst a. rewrite skip_space_spaces by by apply Forall_lookup.
    destruct r' as [|a r']; simpl; [by rewrite Hl|]. by rewrite (Hh a eq_refl).
Qed.



Lemma trim_string_stripped s : stripped s (trim_string s).
Proof.
  unfold trim_string. set (k := trim_len s (length s)).
  destruct (trim_len_spec s (length s) (le_n _)) as (Hle & Hsp & Hend). fold k in Hle, Hsp, Hend.
  destruct (skip_space_decomp (take k s)) as (pre & Hpre_eq & Hpre).
  exists pre, (drop k s). split_and!.
  - rewrite app_assoc, <- Hpre_eq. symmetry. apply take_drop.
  - done.
  - apply Forall_lookup. intros i ch H. rewrite lookup_drop in H.
    apply (Hsp (k + i)%nat); [|done]. apply lookup_lt_Some in H. lia.
  - split; [apply skip_space_head|]. intros ch Hlast.
    assert (Ht : last (take k s) = Some ch).
    { rewrite Hpre_eq, last_app, Hlast. done. }
    rewrite last_lookup, length_take, Nat.min_l in Ht by lia.
    destruct Hend as [Hk0|(c & Hc & Hcs)]; [by rewrite Hk0 in Ht|].
    rewrite lookup_take_lt in Ht; [congruence|]. destruct k; [done|lia].
Qed.


(** ** [sscanf] *)

Lemma read_token_app t r :
  Forall (fun ch => isspace ch = false) t -> (forall ch, head r = Some ch -> isspace ch = true) ->
  read_token (t ++ r) = (t, r).
Proof.
  intros Ht Hr. induction Ht as [|ch t Hch _ IH]; simpl.
  - destruct r as [|ch r]; [done|]. simpl. by rewrite (Hr ch eq_refl).
  - rewrite Hch, IH. done.
Qed.

Lemma read_line_all m : Forall (fun ch => ch <> newline) m -> read_line m = (m, []).
Proof.
  induction 1 as [|ch m Hch _ IH]; [done|]. simpl. rewrite bool_decide_false by done.
  by rewrite IH.
Qed.

Lemma skip_space_token t r : token t -> skip_space (t ++ r) = t ++ r.
Proof.
  intros [Hne Ht]. destruct t as [|ch t]; [done|]. inversion Ht; subst. simpl. by rewrite H1.
Qed.

Lemma line_arg_head m : line_arg m -> forall ch, head m = Some ch -> isspace ch = false.
Proof. intros (_ & [Hh _] & _). exact Hh. Qed.

Lemma spaces_head w r : spaces w -> w <> [] -> forall ch, head (w ++ r) = Some ch -> isspace ch = true.
Proof. intros Hw Hne ch. destruct Hw as [|c w Hc]; [done|]. simpl. by intros [= <-]. Qed.

(** [%s %s %[^\n]] splits three white-space separated fields. *)
Lemma sscanf_cmd_fields t1 w1 t2 w2 m :
  token t1 -> spaces w1 -> w1 <> [] -> token t2 -> spaces w2 -> w2 <> [] -> line_arg m ->
  sscanf_cmd (t1 ++ w1 ++ t2 ++ w2 ++ m) = (3, t1, t2, m).
Proof.
  intros Ht1 Hw1 Hn1 Ht2 Hw2 Hn2 Hm. unfold sscanf_cmd.
  rewrite skip_space_token by done.
  destruct Ht1 as [Hne1 Hf1]. destruct t1 as [|c1 t1']; [done|].
  cbn [app]. change (read_token (c1 :: t1' ++ ?r)) with (read_token ((c1 :: t1') ++ r)).
  rewrite read_token_app by (done || by apply spaces_head).
  rewrite skip_space_spaces by done. rewrite skip_space_token by done.
  rewrite skip_space_token by done.
  destruct Ht2 as [Hne2 Hf2]. destruct t2 as [|c2 t2']; [done|].
  cbn [app]. change (read_token (c2 :: t2' ++ ?r)) with (read_token ((c2 :: t2') ++ r)).
  rewrite read_token_app by (done || by apply spaces_head).
  rewrite skip_space_spaces by done.
  rewrite skip_space_trimmed with (ch := default newline (head m)).
  - destruct Hm as (Hmne & _ & Hmn). rewrite read_line_all by done.
    destruct m; done.
  - destruct m; [by destruct Hm|done].
  - destruct m as [|c m]; [by destruct Hm|]. by apply (line_arg_head _ Hm).
Qed.

(** ** [atoi] *)

Lemma digit_char_spec d :
  0 <= d <= 9 -> isdigit (digit_char d) = true /\
  Z.of_nat (nat_of_ascii (digit_char d)) - 48 = d.
Proof.
  intros Hd. unfold digit_char, isdigit. rewrite Ascii.nat_ascii_embedding by lia.
  split; [apply andb_true_iff; split; apply Nat.leb_le; lia|lia].
Qed.

Lemma isdigit_not_space ch : isdigit ch = true -> isspace ch = false.
Proof.
  unfold isdigit, isspace. intros [H1 H2]%andb_true_iff. apply Nat.leb_le in H1, H2.
  apply orb_false_iff. split; [apply Nat.eqb_neq; lia|].
  apply andb_false_iff. right. apply Nat.leb_gt. lia.
Qed.

Lemma digits_value_cons ch r a :
  isdigit ch = true ->
  digits_value (ch :: r) a = digits_value r (10 * a + (Z.of_nat (nat_of_ascii ch) - 48)).
Proof. intros H. cbn [digits_value]. by rewrite H. Qed.

Lemma dec_string_aux_value f n acc :
  0 <= n < 10 ^ Z.of_nat f ->
  digits_value (dec_string_aux f n acc) 0 = digits_value acc n.
Proof.
  revert n acc. induction f as [|f IH]; intros n acc Hn; cbn [dec_string_aux].
  - replace n with 0 by (simpl in Hn; lia). done.
  - pose proof (Z.mod_pos_bound n 10 ltac:(lia)) as Hm.
    destruct (digit_char_spec (n mod 10) ltac:(lia)) as [Hd Hv].
    destruct (n <? 10) eqn:E.
    + apply Z.ltb_lt in E. rewrite digits_value_cons, Hv by done.
      rewrite Z.mod_small by lia. f_equal; lia.
    + apply Z.ltb_ge in E. rewrite IH.
      * rewrite digits_value_cons, Hv by done. pose proof (Z.div_mod n 10). f_equal; lia.
      * rewrite Nat2Z.inj_succ, Z.pow_succ_r in Hn by lia. split; [apply Z.div_pos; lia|].
        apply Z.div_lt_upper_bound; lia.
Qed.

Lemma dec_string_aux_digits f n acc :
  0 <= n -> Forall (fun ch => isdigit ch = true) acc ->
  Forall (fun ch => isdigit ch = true) (dec_string_aux f n acc).
Proof.
  revert n acc. induction f as [|f IH]; intros n acc Hn Hacc; cbn [dec_string_aux]; [done|].
  pose proof (Z.mod_pos_bound n 10 ltac:(lia)).
  assert (Hd : Forall (fun ch => isdigit ch = true) (digit_char (n mod 10) :: acc)).
  { constructor; [apply digit_char_spec; lia|done]. }
  destruct (n <? 10); [done|]. apply IH; [apply Z.div_pos; lia|done].
Qed.

Lemma dec_string_aux_nonempty f n acc :
  (f <> 0%nat \/ acc <> []) -> dec_string_aux f n acc <> [].
Proof.
  revert n acc. induction f as [|f IH]; intros n acc H; cbn [dec_string_aux].
  - destruct H as [H|H]; done.
  - destruct (n <? 10); [done|]. apply IH. by right.
Qed.

Lemma dec_string_token n : 0 <= n -> token (dec_string n) /\
  Forall (fun ch => isdigit ch = true) (dec_string n).
Proof.
  intros Hn. pose proof (dec_string_aux_digits 20 n [] Hn (Forall_nil_2 _)) as Hd.
  split; [|done]. split; [apply dec_string_aux_nonempty; by left|].
  eapply Forall_impl; [exact Hd|]. intros ch. apply isdigit_not_space.
Qed.

(** [atoi] reads back what [printf("%ld")] writes, for every
    non-negative [long], converted to [int]. *)
Lemma atoi_dec_string_long n : 0 <= n <= LONG_MAX -> atoi (dec_string n) = to_int n.
Proof.
  intros Hn. destruct (dec_string_token n ltac:(lia)) as [[Hne Hsp] Hd].
  assert (Hv : digits_value (dec_string n) 0 = n).
  { unfold dec_string. rewrite dec_string_aux_value; [done|]. unfold LONG_MAX in Hn. simpl. lia. }
  assert (Hs : skip_space (dec_string n) = dec_string n).
  { pose proof (skip_space_token _ [] (conj Hne Hsp)) as H. by rewrite app_nil_r in H. }
  unfold atoi, strtol10. rewrite Hs.
  destruct (dec_string n) as [|ch rest] eqn:E; [done|]. apply Forall_cons in Hd as [Hch _].
  unfold isdigit in Hch. apply andb_true_iff in Hch as [H1 H2]. apply Nat.leb_le in H1, H2.
  rewrite !bool_decide_false by lia. rewrite Hv.
  unfold LONG_MIN, LONG_MAX in *. by rewrite Z.max_r, Z.min_r by lia.
Qed.

Lemma to_int_small n : 0 <= n <= INT_MAX -> to_int n = n.
Proof.
  unfold to_int, INT_MAX. intros Hn. rewrite Z.mod_small by lia.
  destruct (2 ^ 31 <=? n) eqn:E; [apply Z.leb_le in E; lia|done].
Qed.


(** ** [process_command] *)

Lemma trimmed_app a m :
  a <> [] -> (forall ch, head a = Some ch -> isspace ch = false) -> line_arg m ->
  trimmed (a ++ m).
Proof.
  intros Ha Hh (Hm & [_ Hl] & _). split.
  - destruct a; [done|]. exact Hh.
  - intros ch. rewrite last_app. destruct (last m) eqn:E; [intros [= <-]; by apply Hl|].
    by apply last_None in E.
Qed.


(** A line of a command word and two more fields, with any white space
    around and between them. *)
Lemma process_command_fields pre c w1 t2 w2 m suf :
  spaces pre -> spaces suf -> token c -> spaces w1 -> w1 <> [] -> token t2 ->
  spaces w2 -> w2 <> [] -> line_arg m ->
  process_command (pre ++ c ++ w1 ++ t2 ++ w2 ++ m ++ suf) = dispatch (3, c, t2, m).
Proof.
  intros Hpre Hsuf Hc Hw1 Hn1 Ht2 Hw2 Hn2 Hm. unfold process_command.
  rewrite (trim_string_correct _ (c ++ w1 ++ t2 ++ w2 ++ m)).
  - rewrite bool_decide_false by (destruct Hc as [? _]; by destruct c).
    by rewrite sscanf_cmd_fields.
  - exists pre, suf. split_and!; [by rewrite <- !app_assoc|done|done|].
    rewrite !app_assoc. apply trimmed_app; [|destruct Hc as [Hne Hf]..|done].
    + destruct Hc as [? _]. by destruct c.
    + destruct c as [|ch c]; [done|]. inversion Hf; subst. simpl. by intros ? [= <-].
Qed.

Lemma dec_string_line_arg n : 0 <= n -> line_arg (dec_string n).
Proof.
  intros Hn. destruct (dec_string_token n Hn) as [[Hne Hsp] Hd]. split_and!; [done| |].
  - rewrite Forall_lookup in Hsp. split.
    + intros ch Hh. apply (Hsp 0%nat). by destruct (dec_string n).
    + intros ch Hl. rewrite last_lookup in Hl. by apply (Hsp _ _ Hl).
  - eapply Forall_impl; [exact Hd|]. intros ch Hch ->. done.
Qed.

(** ** Lengths *)

Lemma skip_space_length l : (length (skip_space l) <= length l)%nat.
Proof. induction l as [|ch l IH]; simpl; [lia|]. destruct (isspace ch); simpl; lia. Qed.

Lemma read_token_length s : (length (read_token s).1 + length (read_token s).2 = length s)%nat.
Proof.
  induction s as [|ch s IH]; [done|]. simpl. destruct (isspace ch); [done|].
  destruct (read_token s). simpl in *. lia.
Qed.

Lemma read_line_length s : (length (read_line s).1 + length (read_line s).2 = length s)%nat.
Proof.
  induction s as [|ch s IH]; [done|]. simpl. case_bool_decide; [done|].
  destruct (read_line s). simpl in *. lia.
Qed.

Lemma trim_string_length s : (length (trim_string s) <= length s)%nat.
Proof.
  unfold trim_string. etrans; [apply skip_space_length|]. rewrite length_take. lia.
Qed.

Lemma sscanf_cmd_length s :
  let '(_, c, a1, a2) := sscanf_cmd s in
  (length c <= length s /\ length a1 <= length s /\ length a2 <= length s)%nat.
Proof.
  unfold sscanf_cmd. pose proof (skip_space_length s).
  destruct (skip_space s) as [|ch s1] eqn:E; [simpl; lia|].
  pose proof (read_token_length (ch :: s1)) as L1.
  destruct (read_token (ch :: s1)) as [t1 r1]. simpl in L1.
  pose proof (skip_space_length r1). pose proof (skip_space_length (skip_space r1)).
  destruct (skip_space (skip_space r1)) as [|ch2 s2] eqn:E2; [simpl in *; lia|].
  pose proof (read_token_length (ch2 :: s2)) as L2.
  destruct (read_token (ch2 :: s2)) as [t2 r2]. simpl in L2.
  pose proof (skip_space_length r2). pose proof (read_line_length (skip_space r2)) as L3.
  destruct (read_line (skip_space r2)) as [[|c3 t3] r3]; simpl in *; lia.
Qed.

Lemma is_empty_string_spaces s : is_empty_string s = true <-> spaces s.
Proof.
  unfold spaces. induction s as [|ch s IH]; simpl; [split; by constructor|].
  rewrite Forall_cons, <- IH. destruct (isspace ch); simpl; naive_solver.
Qed.

Lemma stripped_nil s : stripped s [] <-> spaces s.
Proof.
  unfold spaces. split.
  - intros (pre & suf & -> & Hp & Hs & _). by apply Forall_app.
  - intros H. exists s, []. split_and!; [by rewrite !app_nil_r|done|constructor|].
    split; intros ? [=].
Qed.

Lemma tolower_toupper ch : tolower (toupper ch) = tolower ch.
Proof. destruct ch as [[] [] [] [] [] [] [] []]; reflexivity. Qed.

(** ** Properties of the command line *)

(** (C23) [trim_string] meets its specification: for every string [s],
    [trim_string s] is the one string [r] with [s = pre ++ r ++ suf]
    for white space [pre] and [suf] and [r] empty or starting and
    ending with a character that is not white space.  The routine of
    src/signal.c (a backward loop on [len], then a forward scan and a
    [memmove]) is equivalent to this reference definition. *)
Theorem trim_string_spec s r : stripped s r <-> trim_string s = r.
Proof. split; [apply trim_string_correct|intros <-; apply trim_string_stripped]. Qed.

(** (C24) Print and parse: a [send] line written as the word [send], a
    connection id printed in decimal and a message (not empty, without
    a newline, not starting or ending with white space), separated and
    surrounded by any white space, makes [process_command] call
    [cmd_send] with that id and exactly that message. *)
Theorem send_command_roundtrip pre w1 k w2 m suf :
  spaces pre -> spaces suf -> spaces w1 -> w1 <> [] -> spaces w2 -> w2 <> [] ->
  0 <= k <= INT_MAX -> line_arg m ->
  process_command (pre ++ kw "send" ++ w1 ++ dec_string k ++ w2 ++ m ++ suf) =
  ASend k (String.string_of_list_ascii m).
Proof.
  intros Hpre Hsuf Hw1 Hn1 Hw2 Hn2 Hk Hm.
  rewrite process_command_fields; [|done|done|split; [done|repeat constructor]|done|done|
    apply dec_string_token; lia|done|done|done].
  unfold dispatch. cbn -[atoi dec_string String.string_of_list_ascii].
  by rewrite atoi_dec_string_long, to_int_small by (unfold LONG_MAX, INT_MAX in *; lia).
Qed.

(** The fields fit their buffers: [main] reads at most
    [MAX_COMMAND_LENGTH - 1] characters with [fgets], and then each of
    [cmd], [arg1] and [arg2], the [char[MAX_COMMAND_LENGTH]] buffers
    [sscanf] fills in [process_command], receives a string that fits
    with its terminating NUL. *)
Theorem command_fields_fit command :
  Z.of_nat (length command) < MAX_COMMAND_LENGTH ->
  let '(_, c, a1, a2) := sscanf_cmd (trim_string command) in
  Z.of_nat (length c) < MAX_COMMAND_LENGTH /\ Z.of_nat (length a1) < MAX_COMMAND_LENGTH /\
  Z.of_nat (length a2) < MAX_COMMAND_LENGTH.
Proof.
  intros H. pose proof (trim_string_length command).
  pose proof (sscanf_cmd_length (trim_string command)) as L.
  destruct (sscanf_cmd (trim_string command)) as [[[? c] a1] a2]. lia.
Qed.

(** (C25) The port of a [connect] line is converted by [atoi]: for
    every port written in decimal up to [LONG_MAX], [cmd_connect]
    receives its low 32 bits as a signed [int], not the number
    written.  A port above 65535 is therefore not always rejected:
    see the witness, where 4294975376 = 2^32 + 8080 reaches
    [cmd_connect] as 8080. *)
Theorem connect_command_port pre w1 ip w2 p suf :
  spaces pre -> spaces suf -> spaces w1 -> w1 <> [] -> token ip -> spaces w2 -> w2 <> [] ->
  0 <= p <= LONG_MAX ->
  process_command (pre ++ kw "connect" ++ w1 ++ ip ++ w2 ++ dec_string p ++ suf) =
  AConnect (String.string_of_list_ascii ip) (to_int p).
Proof.
  intros Hpre Hsuf Hw1 Hn1 Hip Hw2 Hn2 Hp.
  rewrite process_command_fields; [|done|done|split; [done|repeat constructor]|done|done|done|
    done|done|apply dec_string_line_arg; lia].
  unfold dispatch. cbn -[atoi dec_string String.string_of_list_ascii].
  by rewrite atoi_dec_string_long.
Qed.

(** [is_empty_string] and [trim_string] agree on blank lines:
    [is_empty_string s] returns 1 exactly when [trim_string] leaves
    the empty string, which is the [strlen(command) == 0] test of
    [process_command] after trimming. *)
Lemma is_empty_string_trim s : is_empty_string s = true <-> trim_string s = [].
Proof. rewrite is_empty_string_spaces, <- stripped_nil. apply trim_string_spec. Qed.

(** Case conversion of src/signal.c: lower-casing an upper-cased
    string gives the lower-cased string, and both conversions keep the
    length.  ([process_command] calls neither: command words are
    matched as typed, so [HELP] is an unknown command.) *)
Lemma str_to_lower_upper s :
  str_to_lower (str_to_upper s) = str_to_lower s /\
  length (str_to_lower s) = length s /\ length (str_to_upper s) = length s.
Proof.
  unfold str_to_lower, str_to_upper. rewrite !length_fmap, <- list_fmap_compose.
  split_and!; [|done|done]. apply list_fmap_ext. intros _ ch _. apply tolower_toupper.
Qed.

(** ** Witnesses *)

Lemma line_arg_hello : line_arg (kw "hello world").
Proof.
  split_and!; [done| |repeat constructor; vm_compute; discriminate].
  split; intros ch H; vm_compute in H; injection H as <-; reflexivity.
Qed.

Lemma send_command_roundtrip_witness :
  process_command ([] ++ kw "send" ++ kw " " ++ dec_string 12 ++ kw "  " ++ kw "hello world" ++ kw " ")
  = ASend 12 "hello world".
Proof.
  apply (send_command_roundtrip [] (kw " ") 12 (kw "  ") (kw "hello world") (kw " ")).
  all: first [exact line_arg_hello | discriminate | (unfold INT_MAX; lia)
             | (unfold spaces; repeat constructor)].
Defined.

Lemma command_fields_fit_witness :
  Z.of_nat (length (kw "  connect 10.0.0.2 5000 ")) < MAX_COMMAND_LENGTH /\
  let '(_, c, a1, a2) := sscanf_cmd (trim_string (kw "  connect 10.0.0.2 5000 ")) in
  Z.of_nat (length c) < MAX_COMMAND_LENGTH /\ Z.of_nat (length a1) < MAX_COMMAND_LENGTH /\
  Z.of_nat (length a2) < MAX_COMMAND_LENGTH.
Proof.
  assert (H : Z.of_nat (length (kw "  connect 10.0.0.2 5000 ")) < MAX_COMMAND_LENGTH)
    by (vm_compute; reflexivity).
  split; [exact H|]. exact (command_fields_fit _ H).
Defined.

Lemma connect_command_port_witness :
  process_command ([] ++ kw "connect" ++ kw " " ++ kw "10.0.0.1" ++ kw " " ++
                   dec_string 4294975376 ++ []) = AConnect "10.0.0.1" 8080 /\
  Validate.is_valid_port 8080 = true.
Proof.
  split; [|reflexivity].
  rewrite (connect_command_port [] (kw " ") (kw "10.0.0.1") (kw " ") 4294975376 []).
  - reflexivity.
  - unfold spaces; repeat constructor.
  - unfold spaces; repeat constructor.
  - unfold spaces; repeat constructor.
  - discriminate.
  - split; [discriminate|repeat constructor].
  - unfold spaces; repeat constructor.
  - discriminate.
  - unfold LONG_MAX; lia.
Defined.

End Text.
