(* ===== verification/Output.v ===== *)
(** * What the program prints (src/signal.c, src/command.c)

    The terminal output of the program, as the strings [printf] writes:
    the ANSI colour codes of src/signal.c, the banner and the start-up
    information, the prompt, the four message printers, the terminal
    title, the lines of [signal_handler] and of [cmd_help], [cmd_myip]
    and [cmd_myport].  A [%d] is printed in decimal ([int_string], from
    [Text.dec_string]).  Rocq string literals have no escapes: the
    newline, [ESC] and [BEL] are built from their codes, and the box
    characters of the banner are their UTF-8 bytes. *)

From S2P Require Import Prelude Signal Text.
From Stdlib Require Import Ascii.
From Stdlib Require String.
Import Signal Text.

Module Output.

#[local] Open Scope string_scope.

Definition char (n : nat) : string := String (ascii_of_nat n) EmptyString.

Definition NL : string := char 10.
Definition ESC : string := char 27.
Definition BEL : string := char 7.

(** The colour codes of src/signal.c. *)
Definition COLOR_RED : string := ESC ++ "[31m".
Definition COLOR_GREEN : string := ESC ++ "[32m".
Definition COLOR_YELLOW : string := ESC ++ "[33m".
Definition COLOR_BLUE : string := ESC ++ "[34m".
Definition COLOR_MAGENTA : string := ESC ++ "[35m".
Definition COLOR_CYAN : string := ESC ++ "[36m".
Definition COLOR_WHITE : string := ESC ++ "[37m".
Definition COLOR_RESET : string := ESC ++ "[0m".
Definition COLOR_BOLD : string := ESC ++ "[1m".

(** [printf("%d", n)]. *)
Definition int_string (n : Z) : string :=
  if (n <? 0)%Z then "-" ++ String.string_of_list_ascii (dec_string (- n)%Z)
  else String.string_of_list_ascii (dec_string n).

Definition print_banner : string :=
  NL ++
  COLOR_CYAN ++ "╔════════════════════════════════════╗" ++ COLOR_RESET ++ NL ++
  COLOR_CYAN ++ "║     " ++ COLOR_BOLD ++ "P2P Chat Application v1.0" ++ COLOR_RESET ++
    "      " ++ COLOR_CYAN ++ "║" ++ COLOR_RESET ++ NL ++
  COLOR_CYAN ++ "║      " ++ COLOR_WHITE ++ "Peer-to-Peer Messaging" ++ COLOR_RESET ++
    "        " ++ COLOR_CYAN ++ "║" ++ COLOR_RESET ++ NL ++
  COLOR_CYAN ++ "╚════════════════════════════════════╝" ++ COLOR_RESET ++ NL ++
  NL.

Definition print_startup_info (local_ip : string) (listen_port : Z) : string :=
  COLOR_GREEN ++ "=== P2P Chat Application Started ===" ++ COLOR_RESET ++ NL ++
  "Local IP: " ++ COLOR_YELLOW ++ local_ip ++ COLOR_RESET ++ NL ++
  "Listening on port: " ++ COLOR_YELLOW ++ int_string listen_port ++ COLOR_RESET ++ NL ++
  "Type '" ++ COLOR_CYAN ++ "help" ++ COLOR_RESET ++ "' for available commands" ++ NL ++
  COLOR_GREEN ++ "====================================" ++ COLOR_RESET ++ NL ++ NL.

Definition print_prompt : string := COLOR_BOLD ++ "> " ++ COLOR_RESET.

Definition print_error (message : string) : string :=
  COLOR_RED ++ "[ERROR] " ++ message ++ COLOR_RESET ++ NL.
Definition print_success (message : string) : string :=
  COLOR_GREEN ++ "[SUCCESS] " ++ message ++ COLOR_RESET ++ NL.
Definition print_warning (message : string) : string :=
  COLOR_YELLOW ++ "[WARNING] " ++ message ++ COLOR_RESET ++ NL.
Definition print_info (message : string) : string :=
  COLOR_BLUE ++ "[INFO] " ++ message ++ COLOR_RESET ++ NL.

(** [printf("\033]0;%s\007", title)] (POSIX branch). *)
Definition set_terminal_title (title : string) : string := ESC ++ "]0;" ++ title ++ BEL.

(** The text of each line [signal_handler] prints. *)
Definition sig_line_text (l : sig_line) : string :=
  match l with
  | SInterrupt => NL ++ COLOR_YELLOW ++ "[!] Received interrupt signal (Ctrl+C)" ++ COLOR_RESET ++ NL
  | SUseExit => COLOR_CYAN ++ "Use 'exit' command to quit properly." ++ COLOR_RESET ++ NL
  | SPrompt => print_prompt
  | STerminated => NL ++ COLOR_RED ++ "[!] Received termination signal" ++ COLOR_RESET ++ NL
  | SHangup => NL ++ COLOR_YELLOW ++ "[!] Terminal disconnected" ++ COLOR_RESET ++ NL
  | SOther sig => NL ++ COLOR_YELLOW ++ "[!] Received signal " ++ int_string sig ++ COLOR_RESET ++ NL
  end.

(** Everything [signal_handler(sig)] writes. *)
Definition signal_output (sig : Z) (running : bool) : string :=
  foldr String.append "" (sig_line_text <$> (signal_handler sig running).2).

(** [cmd_help], [cmd_myip], [cmd_myport] of src/command.c. *)
Definition cmd_help : string :=
  NL ++ "=== P2P Chat Application Commands ===" ++ NL ++
  "help                     - Show this help message" ++ NL ++
  "myip                     - Display your IP address" ++ NL ++
  "myport                   - Display the listening port" ++ NL ++
  "connect <ip> <port>      - Connect to a peer" ++ NL ++
  "list                     - List all active connections" ++ NL ++
  "terminate <id>           - Terminate a connection" ++ NL ++
  "send <id> <message>      - Send message to a peer" ++ NL ++
  "exit                     - Exit the application" ++ NL ++
  "=====================================" ++ NL ++ NL.

Definition cmd_myip (local_ip : string) : string := "Your IP address: " ++ local_ip ++ NL.

Definition cmd_myport (listen_port : Z) : string := "Listening port: " ++ int_string listen_port ++ NL.

(** ** What [cmd_myport] prints reads back *)

(** The decimal [printf] writes for a non-negative [int] is read back by
    [atoi]: the port [cmd_myport] prints is the port a peer types into
    [connect]. *)
Lemma atoi_int_string n : (0 <= n <= INT_MAX)%Z -> atoi (String.list_ascii_of_string (int_string n)) = n.
Proof.
  intros Hn. unfold int_string. rewrite (proj2 (Z.ltb_ge n 0)) by lia.
  rewrite String.list_ascii_of_string_of_list_ascii, atoi_dec_string_long
    by (unfold LONG_MAX, INT_MAX in *; lia).
  by apply to_int_small.
Qed.

End Output.
