(* ===== verification/Terminal.v ===== *)
(** * The terminal helpers of src/signal.c: screen, clock and keyboard

    [clear_screen] runs [system("clear")]; [get_current_time_str]
    formats the wall-clock time of day with [localtime] and
    [strftime(buffer, size, "%H:%M:%S", ...)], and [print_timestamp]
    prints it in brackets; [kbhit] switches the terminal to
    non-canonical mode without echo and descriptor 0 to non-blocking
    mode, tries one [getchar], restores both settings and pushes the
    byte back with [ungetc].  The program declares them in
    src/signal.h but calls none of them.

    The clock: [localtime] in a zone [gmtoff] seconds east of UTC,
    POSIX time (no leap seconds), of which [strftime] reads only the
    hour, minute and second.  The keyboard: the settings of the
    terminal ([struct termios]), the file status flags of descriptor 0,
    the bytes in the stdio buffer of [stdin] and those the terminal
    driver holds, and the two indicators of [stdin]; [getchar] and
    [ungetc] are those of glibc (end of file is sticky; a read that
    fails with [EAGAIN] sets the error indicator). *)

From S2P Require Import Prelude Text Output.
From Stdlib Require Import Ascii.
From Stdlib Require String.
Import Text Output.

Module Terminal.

(** ** [clear_screen] *)

Inductive screen_effect := EWrite (s : string) | ESystem (command : string).

(** POSIX branch: [system("clear")]. *)
Definition clear_screen : list screen_effect := [ESystem "clear"].

(** ** The clock *)

Definition SECS_PER_DAY : Z := 86400.

(** The fields of [struct tm] that ["%H:%M:%S"] reads. *)
Record tm := mkTm { tm_hour : Z; tm_min : Z; tm_sec : Z }.

(** [localtime(&rawtime)] in a zone [gmtoff] seconds east of UTC. *)
Definition localtime (gmtoff rawtime : Z) : tm :=
  let sod := (rawtime + gmtoff) mod SECS_PER_DAY in
  mkTm (sod / 3600) (sod mod 3600 / 60) (sod mod 60).

(** [%H], [%M], [%S]: two decimal digits, zero first. *)
Definition two_digits (n : Z) : list ascii := [digit_char (n / 10); digit_char (n mod 10)].

Definition colon : ascii := ":"%char.

Definition hms (t : tm) : list ascii :=
  two_digits (tm_hour t) ++ [colon] ++ two_digits (tm_min t) ++ [colon] ++ two_digits (tm_sec t).

(** [strftime(buffer, size, "%H:%M:%S", t)]: the text and its NUL must
    fit in [size] bytes; otherwise [strftime] returns 0 and the buffer
    is indeterminate ([None]). *)
Definition strftime_hms (size : Z) (t : tm) : option (list ascii) :=
  let s := hms t in if Z.of_nat (length s) + 1 <=? size then Some s else None.

(** [time(&rawtime); timeinfo = localtime(&rawtime); strftime(...)]. *)
Definition get_current_time_str (size gmtoff rawtime : Z) : option (list ascii) :=
  strftime_hms size (localtime gmtoff rawtime).

(** [char time_str[32]; get_current_time_str(time_str, sizeof(time_str));
    printf("[%s] ", time_str)]. *)
Definition print_timestamp (gmtoff rawtime : Z) : option string :=
  (fun s => "[" ++ String.string_of_list_ascii s ++ "] ")%string <$>
    get_current_time_str 32 gmtoff rawtime.

(** ** The keyboard *)

(** [<termios.h>] and [<fcntl.h>] (Linux): [ICANON] is [0000002],
    [ECHO] is [0000010], [O_NONBLOCK] is [04000]; [tcflag_t] is a
    32-bit [unsigned int]. *)
Definition ICANON : Z := 2.
Definition ECHO : Z := 8.
Definition O_NONBLOCK : Z := 2048.
Definition TCFLAG_BITS : Z := 32.

Record termios := mkTermios { c_iflag : Z; c_oflag : Z; c_cflag : Z; c_lflag : Z }.

Record stdin_state := mkStdin {
  tty : option termios;   (** the settings of the terminal; [None]: not a terminal *)
  fflags : Z;             (** the file status flags of descriptor 0 *)
  ibuf : list ascii;      (** the stdio buffer of [stdin], pushed-back bytes first *)
  kbuf : list ascii;      (** the bytes the terminal driver holds for [read] *)
  keof : bool;            (** the driver reports end of file once [kbuf] is empty *)
  ferr : bool;            (** [ferror(stdin)] *)
  feof : bool             (** [feof(stdin)] *)
}.

(** [tcgetattr(STDIN_FILENO, &t)]; when standard input is not a
    terminal the call fails and [t] stays uninitialised, here zero: the
    [tcsetattr] calls that use it fail as well. *)
Definition tcgetattr (s : stdin_state) : termios := default (mkTermios 0 0 0 0) (tty s).

(** [tcsetattr(STDIN_FILENO, TCSANOW, &t)]. *)
Definition tcsetattr (s : stdin_state) (t : termios) : stdin_state :=
  match tty s with
  | Some _ => mkStdin (Some t) (fflags s) (ibuf s) (kbuf s) (keof s) (ferr s) (feof s)
  | None => s
  end.

(** [fcntl(STDIN_FILENO, F_GETFL, 0)] and [fcntl(STDIN_FILENO, F_SETFL, f)]. *)
Definition fcntl_getfl (s : stdin_state) : Z := fflags s.
Definition fcntl_setfl (s : stdin_state) (f : Z) : stdin_state :=
  mkStdin (tty s) f (ibuf s) (kbuf s) (keof s) (ferr s) (feof s).

(** The size of the stdio buffer of a terminal ([st_blksize]). *)
Definition STDIN_BUFSIZ : nat := 1024.

Inductive getc_result :=
  | GChar (c : ascii) (s : stdin_state)   (** a byte *)
  | GEOF (s : stdin_state)                (** [EOF] *)
  | GBlock.                               (** [read] blocks *)

(** [getchar()]: the stdio buffer first; once [feof] is set, [EOF]
    without reading; otherwise one [read] of at most [STDIN_BUFSIZ]
    bytes, which on an empty driver returns end of file, fails with
    [EAGAIN] in non-blocking mode (setting [ferror]) or blocks. *)
Definition getchar (s : stdin_state) : getc_result :=
  match ibuf s with
  | c :: r => GChar c (mkStdin (tty s) (fflags s) r (kbuf s) (keof s) (ferr s) (feof s))
  | [] =>
      if feof s then GEOF s
      else match kbuf s with
           | c :: r =>
               GChar c (mkStdin (tty s) (fflags s) (take (STDIN_BUFSIZ - 1) r)
                          (drop (STDIN_BUFSIZ - 1) r) (keof s) (ferr s) (feof s))
           | [] =>
               if keof s then GEOF (mkStdin (tty s) (fflags s) [] [] (keof s) (ferr s) true)
               else if Z.land (fflags s) O_NONBLOCK =? 0 then GBlock
               else GEOF (mkStdin (tty s) (fflags s) [] [] (keof s) true (feof s))
           end
  end.

(** [ungetc(c, stdin)]: the byte goes back in front, [feof] is cleared. *)
Definition ungetc (c : ascii) (s : stdin_state) : stdin_state :=
  mkStdin (tty s) (fflags s) (c :: ibuf s) (kbuf s) (keof s) (ferr s) false.

(** [newt = oldt; newt.c_lflag &= ~(ICANON | ECHO);]. *)
Definition raw_mode (t : termios) : termios :=
  mkTermios (c_iflag t) (c_oflag t) (c_cflag t) (Z.land (c_lflag t) (Z.lnot (Z.lor ICANON ECHO))).

(** The four calls before [getchar]: the saved settings and flags and the
    state in which [getchar] runs. *)
Definition kbhit_enter (s : stdin_state) : termios * Z * stdin_state :=
  let oldt := tcgetattr s in
  let s := tcsetattr s (raw_mode oldt) in
  let oldf := fcntl_getfl s in
  (oldt, oldf, fcntl_setfl s (Z.lor oldf O_NONBLOCK)).

(** [kbhit()] (POSIX branch); [None] if [getchar] blocks. *)
Definition kbhit (s : stdin_state) : option (Z * stdin_state) :=
  let '(oldt, oldf, s) := kbhit_enter s in
  match getchar s with
  | GBlock => None
  | GEOF s => Some (0, fcntl_setfl (tcsetattr s oldt) oldf)
  | GChar c s => Some (1, ungetc c (fcntl_setfl (tcsetattr s oldt) oldf))
  end.

(** A byte is there for [getchar] to return. *)
Definition key_ready (s : stdin_state) : Prop :=
  ibuf s <> [] \/ (feof s = false /\ kbuf s <> []).

(** Reading ["HH:MM:SS"] back as seconds since midnight. *)
Definition parse_hms (s : list ascii) : option Z :=
  match s with
  | [h1; h2; c1; m1; m2; c2; s1; s2] =>
      if forallb isdigit [h1; h2; m1; m2; s1; s2] && bool_decide (c1 = colon)
         && bool_decide (c2 = colon)
      then Some (digits_value [h1; h2] 0 * 3600 + digits_value [m1; m2] 0 * 60
                 + digits_value [s1; s2] 0)
      else None
  | _ => None
  end.

(** ** Lemmas on the keyboard *)

Lemma lor_land_same a b : Z.land (Z.lor a b) b = b.
Proof.
  apply Z.bits_inj'. intros n _. rewrite Z.land_spec, Z.lor_spec.
  by destruct (Z.testbit a n), (Z.testbit b n).
Qed.

(** After [kbhit_enter], descriptor 0 is in non-blocking mode. *)
Lemma nonblocking_set f : (Z.land (Z.lor f O_NONBLOCK) O_NONBLOCK =? 0) = false.
Proof. by rewrite lor_land_same. Qed.

(** The bits of a number below [2 ^ n] from [n] on are clear, and
    conversely. *)
Lemma testbit_above l n i : 0 <= l < 2 ^ n -> 0 <= n -> n <= i -> Z.testbit l i = false.
Proof. intros. rewrite <- (Z.mod_small l (2 ^ n)) by done. by apply Z.mod_pow2_bits_high. Qed.

Lemma bits_bound l n : 0 <= l -> 0 <= n -> (forall i, n <= i -> Z.testbit l i = false) -> l < 2 ^ n.
Proof.
  intros Hl Hn H. assert (E : l mod 2 ^ n = l).
  { apply Z.bits_inj'. intros i Hi. destruct (Z.lt_ge_cases i n).
    - by rewrite Z.mod_pow2_bits_low.
    - rewrite Z.mod_pow2_bits_high by lia. by rewrite H. }
  rewrite <- E. apply Z.mod_pos_bound. lia.
Qed.

(** [&= ~(ICANON | ECHO)] clears bits 1 and 3 and keeps the others, and
    a [tcflag_t] stays one. *)
Lemma raw_lflag_bits l :
  0 <= l < 2 ^ TCFLAG_BITS ->
  let l' := Z.land l (Z.lnot (Z.lor ICANON ECHO)) in
  0 <= l' < 2 ^ TCFLAG_BITS /\ Z.testbit l' 1 = false /\ Z.testbit l' 3 = false /\
  forall i, i <> 1 -> i <> 3 -> Z.testbit l' i = Z.testbit l i.
Proof.
  intros Hl l'. assert (Hm : forall i, 0 <= i -> Z.testbit l' i = Z.testbit l i && negb
                              (bool_decide (i = 1) || bool_decide (i = 3))).
  { intros i Hi. subst l'. rewrite Z.land_spec, Z.lnot_spec, Z.lor_spec by done. f_equal.
    unfold ICANON, ECHO. f_equal.
    destruct (decide (i = 1)) as [->|N1]; [done|]. destruct (decide (i = 3)) as [->|N3]; [done|].
    rewrite !bool_decide_eq_false_2 by done.
    change 2 with (2 ^ 1). change 8 with (2 ^ 3). rewrite !Z.pow2_bits_false by lia. done. }
  assert (H0 : 0 <= l') by (subst l'; apply Z.land_nonneg; lia).
  split_and!.
  - done.
  - apply bits_bound; [done|unfold TCFLAG_BITS; lia|]. intros i Hi. unfold TCFLAG_BITS in Hi. rewrite Hm by lia.
    by rewrite (testbit_above l TCFLAG_BITS) by (unfold TCFLAG_BITS in *; lia).
  - rewrite Hm by lia. rewrite (bool_decide_eq_true_2 (1 = 1)) by done.
    by rewrite orb_true_l, andb_false_r.
  - rewrite Hm by lia. rewrite (bool_decide_eq_true_2 (3 = 3)) by done.
    by rewrite orb_true_r, andb_false_r.
  - intros i N1 N3. destruct (Z.lt_ge_cases i 0) as [Hi|Hi].
    + by rewrite !Z.testbit_neg_r.
    + rewrite Hm by done. rewrite !bool_decide_eq_false_2 by done. apply andb_true_r.
Qed.

(** The four calls before [getchar] touch only the settings and the flags. *)
Lemma kbhit_enter_fields s :
  let '(oldt, oldf, m) := kbhit_enter s in
  oldt = tcgetattr s /\ oldf = fflags s /\ fflags m = Z.lor (fflags s) O_NONBLOCK /\
  tty m = raw_mode <$> tty s /\ ibuf m = ibuf s /\ kbuf m = kbuf s /\ keof m = keof s /\
  ferr m = ferr s /\ feof m = feof s.
Proof.
  unfold kbhit_enter, tcsetattr, fcntl_getfl, fcntl_setfl, tcgetattr.
  destruct (tty s) eqn:E; cbn; rewrite ?E; repeat split.
Qed.

(** The two calls after [getchar] give back the saved settings and flags. *)
Lemma kbhit_restore s m :
  tty m = raw_mode <$> tty s ->
  tty (fcntl_setfl (tcsetattr m (tcgetattr s)) (fflags s)) = tty s /\
  fflags (fcntl_setfl (tcsetattr m (tcgetattr s)) (fflags s)) = fflags s.
Proof. intros H. unfold tcsetattr, fcntl_setfl, tcgetattr. rewrite H. by destruct (tty s). Qed.

(** Neither call touches the bytes waiting to be read. *)
Lemma restore_bufs m t f :
  ibuf (fcntl_setfl (tcsetattr m t) f) = ibuf m /\ kbuf (fcntl_setfl (tcsetattr m t) f) = kbuf m.
Proof. unfold tcsetattr. by destruct (tty m). Qed.

Lemma take_drop_cons {A} (c : A) n r : c :: take n r ++ drop n r = c :: r.
Proof. by rewrite take_drop. Qed.

(** [getchar] in non-blocking mode: it returns, leaves the settings and
    flags alone, and returns the first byte of the stream exactly when
    there is one it may return. *)
Lemma getchar_nonblocking m :
  (Z.land (fflags m) O_NONBLOCK =? 0) = false ->
  (exists c m', getchar m = GChar c m' /\ key_ready m /\ tty m' = tty m /\ fflags m' = fflags m /\
     c :: ibuf m' ++ kbuf m' = ibuf m ++ kbuf m) \/
  (exists m', getchar m = GEOF m' /\ ~ key_ready m /\ tty m' = tty m /\ fflags m' = fflags m /\
     ibuf m' ++ kbuf m' = ibuf m ++ kbuf m).
Proof.
  intros Hnb. unfold getchar, key_ready.
  destruct (ibuf m) as [|c r] eqn:Ei.
  2: { left. do 2 eexists. split; [reflexivity|]. split_and!; try done. by left. }
  destruct (feof m) eqn:Ef.
  { right. exists m. rewrite Ei. split_and!; try done. intros [?|[? ?]]; done. }
  destruct (kbuf m) as [|c r] eqn:Ek.
  - right. destruct (keof m); [|rewrite Hnb]; eexists; (split; [reflexivity|]); cbn;
      rewrite ?Ei, ?Ek; split_and!; try done; intros [?|[? ?]]; done.
  - left. do 2 eexists. split; [reflexivity|]. cbn. rewrite ?Ei, ?Ek.
    split_and!; try done; [by right|]. apply take_drop_cons.
Qed.

(** ** Lemmas on the clock *)

Lemma two_digits_spec n :
  0 <= n < 100 ->
  forallb isdigit (two_digits n) = true /\ digits_value (two_digits n) 0 = n.
Proof.
  intros Hn. unfold two_digits.
  destruct (digit_char_spec (n / 10)) as [H1 V1]; [zlia|].
  destruct (digit_char_spec (n mod 10)) as [H2 V2]; [zlia|].
  cbn [forallb]. rewrite H1, H2. split; [done|].
  rewrite !digits_value_cons by done. cbn [digits_value]. rewrite V1, V2. zlia.
Qed.

Lemma localtime_bounds gmtoff t :
  0 <= tm_hour (localtime gmtoff t) < 24 /\ 0 <= tm_min (localtime gmtoff t) < 60 /\
  0 <= tm_sec (localtime gmtoff t) < 60 /\
  tm_hour (localtime gmtoff t) * 3600 + tm_min (localtime gmtoff t) * 60
    + tm_sec (localtime gmtoff t) = (t + gmtoff) mod SECS_PER_DAY.
Proof. unfold localtime, SECS_PER_DAY. cbn [tm_hour tm_min tm_sec]. zlia. Qed.

Lemma hms_length t : length (hms t) = 8%nat.
Proof. unfold hms, two_digits. reflexivity. Qed.

Lemma parse_hms_digits h m s :
  length h = 2%nat -> length m = 2%nat -> length s = 2%nat ->
  forallb isdigit h = true -> forallb isdigit m = true -> forallb isdigit s = true ->
  parse_hms (h ++ [colon] ++ m ++ [colon] ++ s) =
  Some (digits_value h 0 * 3600 + digits_value m 0 * 60 + digits_value s 0).
Proof.
  destruct h as [|h1 [|h2 []]], m as [|m1 [|m2 []]], s as [|s1 [|s2 []]]; try discriminate.
  intros _ _ _ Dh Dm Ds. cbn [app parse_hms].
  rewrite !bool_decide_eq_true_2 by done. cbn [forallb] in *.
  rewrite !andb_true_r in Dh, Dm, Ds.
  apply andb_true_iff in Dh as [-> ->], Dm as [-> ->], Ds as [-> ->]. done.
Qed.

Lemma parse_hms_hms t :
  0 <= tm_hour t < 100 -> 0 <= tm_min t < 100 -> 0 <= tm_sec t < 100 ->
  parse_hms (hms t) = Some (tm_hour t * 3600 + tm_min t * 60 + tm_sec t).
Proof.
  intros Hh Hm Hs.
  destruct (two_digits_spec _ Hh) as [Dh Vh], (two_digits_spec _ Hm) as [Dm Vm],
    (two_digits_spec _ Hs) as [Ds Vs].
  unfold hms. rewrite parse_hms_digits by (unfold two_digits; done). by rewrite Vh, Vm, Vs.
Qed.

(** ** The properties *)

(** (C32) [kbhit] answers whether a key is waiting without taking it.
    Whatever the state of standard input, [kbhit] returns (descriptor 0
    is non-blocking while [getchar] runs); it gives back the terminal
    settings and the file status flags it found; the bytes the next
    reads will see, the stdio buffer followed by what the driver holds,
    are the same as before ([ungetc] puts back the byte [getchar]
    took); and it returns 1 exactly when [getchar] had a byte to
    return. *)
Theorem kbhit_spec s :
  exists r s', kbhit s = Some (r, s') /\ tty s' = tty s /\ fflags s' = fflags s /\
    ibuf s' ++ kbuf s' = ibuf s ++ kbuf s /\
    ((r = 1 /\ key_ready s) \/ (r = 0 /\ ~ key_ready s)).
Proof.
  pose proof (kbhit_enter_fields s) as F. unfold kbhit.
  destruct (kbhit_enter s) as [[oldt oldf] m].
  destruct F as (-> & -> & Hf & Ht & Hi & Hk & _ & _ & He).
  assert (Hr : key_ready m <-> key_ready s) by (unfold key_ready; by rewrite Hi, Hk, He).
  assert (Hnb : (Z.land (fflags m) O_NONBLOCK =? 0) = false) by (rewrite Hf; apply nonblocking_set).
  destruct (getchar_nonblocking m Hnb) as [(c & m' & Hg & Hready & Ht' & Hf' & Hb)
                                          |(m' & Hg & Hready & Ht' & Hf' & Hb)]; rewrite Hg.
  - destruct (kbhit_restore s m') as [Rt Rf]; [congruence|].
    do 2 eexists. split; [reflexivity|].
    split_and!; [exact Rt|exact Rf| |left; split; [done|by apply Hr]].
    destruct (restore_bufs m' (tcgetattr s) (fflags s)) as [Bi Bk].
    cbn [ungetc ibuf kbuf]. rewrite Bi, Bk, <- Hi, <- Hk. done.
  - destruct (kbhit_restore s m') as [Rt Rf]; [congruence|].
    do 2 eexists. split; [reflexivity|].
    split_and!; [exact Rt|exact Rf| |right; split; [done|by rewrite <- Hr]].
    destruct (restore_bufs m' (tcgetattr s) (fflags s)) as [Bi Bk].
    rewrite Bi, Bk, <- Hi, <- Hk. done.
Qed.

(** (C36) While [kbhit] calls [getchar], the terminal is in
    non-canonical mode without echo and descriptor 0 is non-blocking:
    [newt.c_lflag &= ~(ICANON | ECHO)] clears exactly the [ICANON] and
    [ECHO] bits of the local modes, keeps every other bit and the three
    other flag words, and leaves a 32-bit [tcflag_t]; [oldf |
    O_NONBLOCK] sets the non-blocking flag. *)
Theorem kbhit_raw_mode s t :
  tty s = Some t -> 0 <= c_lflag t < 2 ^ TCFLAG_BITS ->
  exists t', tty (kbhit_enter s).2 = Some t' /\
    0 <= c_lflag t' < 2 ^ TCFLAG_BITS /\
    Z.testbit (c_lflag t') 1 = false /\ Z.testbit (c_lflag t') 3 = false /\
    (forall i, i <> 1 -> i <> 3 -> Z.testbit (c_lflag t') i = Z.testbit (c_lflag t) i) /\
    c_iflag t' = c_iflag t /\ c_oflag t' = c_oflag t /\ c_cflag t' = c_cflag t /\
    (Z.land (fflags (kbhit_enter s).2) O_NONBLOCK =? 0) = false.
Proof.
  intros Ht Hl. pose proof (kbhit_enter_fields s) as F.
  destruct (kbhit_enter s) as [[oldt oldf] m]. destruct F as (_ & _ & Hf & Htm & _).
  cbn [snd]. rewrite Htm, Ht. exists (raw_mode t).
  destruct (raw_lflag_bits _ Hl) as (B & B1 & B3 & Bi).
  cbn [raw_mode c_lflag c_iflag c_oflag c_cflag].
  split_and!; [done|apply B|apply B|exact B1|exact B3|exact Bi|done|done|done|].
  rewrite Hf. apply nonblocking_set.
Qed.

(** (C34) The clock string reads back as the time of day.  With a
    buffer of fewer than 9 bytes [strftime] fails and
    [get_current_time_str] leaves the buffer indeterminate; with 9 bytes
    or more it writes 8 characters ["HH:MM:SS"] whose fields, read as
    decimal numbers, give the seconds since local midnight of
    [rawtime]; [print_timestamp], with its 32-byte buffer, prints that
    string between ["["] and ["] "]. *)
Theorem time_str_roundtrip size gmtoff t :
  (size < 9 -> get_current_time_str size gmtoff t = None) /\
  (9 <= size -> exists s, get_current_time_str size gmtoff t = Some s /\ length s = 8%nat /\
     parse_hms s = Some ((t + gmtoff) mod SECS_PER_DAY)) /\
  (exists s, print_timestamp gmtoff t = Some ("[" ++ String.string_of_list_ascii s ++ "] ")%string /\
     parse_hms s = Some ((t + gmtoff) mod SECS_PER_DAY)).
Proof.
  destruct (localtime_bounds gmtoff t) as (Bh & Bm & Bs & E).
  assert (P : parse_hms (hms (localtime gmtoff t)) = Some ((t + gmtoff) mod SECS_PER_DAY))
    by (rewrite parse_hms_hms by lia; by rewrite E).
  unfold print_timestamp, get_current_time_str, strftime_hms. rewrite hms_length.
  split_and!.
  - intros H. by rewrite (proj2 (Z.leb_gt _ _)) by lia.
  - intros H. rewrite (proj2 (Z.leb_le _ _)) by lia. eexists. split_and!; [done|apply hms_length|done].
  - rewrite (proj2 (Z.leb_le _ _)) by lia. by eexists.
Qed.

(** ** Witnesses *)

(** A terminal in its usual cooked mode ([ISIG | ICANON | ECHO | ECHOE |
    ECHOK | ECHOCTL | ECHOKE | IEXTEN], [0105073]). *)
Definition cooked : termios := mkTermios 17664 5 191 35387.

Lemma kbhit_raw_mode_witness :
  exists t', tty (kbhit_enter (mkStdin (Some cooked) 2 [] [] false false false)).2 = Some t' /\
    0 <= c_lflag t' < 2 ^ TCFLAG_BITS /\
    Z.testbit (c_lflag t') 1 = false /\ Z.testbit (c_lflag t') 3 = false /\
    (forall i, i <> 1 -> i <> 3 -> Z.testbit (c_lflag t') i = Z.testbit (c_lflag cooked) i) /\
    c_iflag t' = c_iflag cooked /\ c_oflag t' = c_oflag cooked /\ c_cflag t' = c_cflag cooked /\
    (Z.land (fflags (kbhit_enter (mkStdin (Some cooked) 2 [] [] false false false)).2)
       O_NONBLOCK =? 0) = false.
Proof.
  apply (kbhit_raw_mode (mkStdin (Some cooked) 2 [] [] false false false) cooked);
    [reflexivity|unfold cooked, TCFLAG_BITS; simpl; lia].
Defined.

End Terminal.
