(* ===== verification/Addresses.v ===== *)
(** * The fields of the table keep their C types in every interleaving

    [add_connection] stores a peer in a [Connection] (src/connection.h):
    the id [next_connection_id++], the socket, the address copied with
    [strcpy] into the 16-byte field [ip], and the port.  The values come
    from two places: [cmd_connect], which checks the address with
    [is_valid_ip] and the port with [is_valid_port] before dialling,
    and the accept thread, which prints the peer's [sin_addr] with
    [inet_ntop] and converts [sin_port] with [ntohs].  The invariant
    [type_inv] follows the values from where they are produced to the
    table, through the program counters of the command and accept
    threads, and holds in every reachable configuration of [Threads]. *)

From S2P Require Import Prelude Validate Registry Threads Races.
Import Validate Registry Threads Races.

Module Addresses.

(** The string and its NUL fit a [char[INET_ADDRSTRLEN]]. *)
Definition ip_fits (a : string) : Prop := Z.of_nat (String.length a) + 1 <= INET_ADDRSTRLEN.

(** A descriptor: a non-negative [int]. *)
Definition fd_range (s : Z) : Prop := 0 <= s <= INT_MAX.

Definition port_range (p : Z) : Prop := 0 <= p < 2 ^ 16.

(** A slot whose fields are values of their C types; its id was handed
    out before the counter reached [next]. *)
Definition conn_typed (next : Z) (x : Connection) : Prop :=
  0 <= id x < next /\ fd_range (socket x) /\ ip_fits (ip x) /\ port_range (port x).

(** A peer on its way to [add_connection]. *)
Definition peer_typed (a : string) (p s : Z) : Prop :=
  ip_fits a /\ port_range p /\ fd_range s.

Record type_inv (c : config) : Prop := {
  ti_next : 1 <= next_connection_id (reg c);
  ti_table : Forall (conn_typed (next_connection_id (reg c))) (connections (reg c));
  ti_cmd : match cmd c with
           | CConnectDial a p => ip_fits a /\ port_range p
           | CConnectAdd a p s | CConnectRet a p s _ => peer_typed a p s
           | _ => True
           end;
  ti_acc : match acc c with AAdd s a p | ARet s a p _ => peer_typed a p s | _ => True end
}.

(** ** Lemmas *)

Lemma sockaddr_ok_fits sa : sockaddr_ok sa = true -> ip_fits (inet_ntop4 (sin_addr sa)).
Proof.
  unfold sockaddr_ok. intros H. apply andb_true_iff in H as [H _].
  apply andb_true_iff in H as [H _]. apply andb_true_iff in H as [Hl Hr].
  apply Nat.eqb_eq in Hl. rewrite forallb_forall in Hr.
  destruct (sin_addr sa) as [|a [|b [|c [|d [|]]]]]; simpl in Hl; try discriminate.
  assert (Hb : forall x, In x [a; b; c; d] -> 0 <= x <= 255).
  { intros x Hx. specialize (Hr x Hx). apply andb_true_iff in Hr as [H1 H2].
    apply Z.leb_le in H1, H2. lia. }
  apply valid_ip_fits. unfold is_valid_ip.
  rewrite inet_pton4_ntop4 by (apply Hb; simpl; tauto). done.
Qed.

(** [ntohs] of the port the kernel filled in is a 16-bit port. *)
Lemma sockaddr_ok_port sa : sockaddr_ok sa = true -> port_range (ntohs (sin_port sa)).
Proof.
  unfold sockaddr_ok, port_range. intros H. apply andb_true_iff in H as [H Hlt].
  apply andb_true_iff in H as [_ Hge]. apply Z.leb_le in Hge. apply Z.ltb_lt in Hlt.
  by apply bswap16_range.
Qed.

Lemma valid_port_range p : is_valid_port p = true -> port_range p.
Proof.
  unfold is_valid_port, port_range. intros H. apply andb_true_iff in H as [H1 H2].
  apply Z.ltb_lt in H1. apply Z.leb_le in H2. lia.
Qed.

Lemma fd_range_intro s : (0 <=? s) = true -> (s <=? INT_MAX) = true -> fd_range s.
Proof. intros H1 H2. apply Z.leb_le in H1, H2. split; lia. Qed.

Lemma valid_ip_ip_fits a : is_valid_ip a = true -> ip_fits a.
Proof. apply valid_ip_fits. Qed.

Lemma peer_typed_intro a p s : ip_fits a -> port_range p -> fd_range s -> peer_typed a p s.
Proof. done. Qed.

Lemma ip_fits_empty : ip_fits "".
Proof. unfold ip_fits, INET_ADDRSTRLEN. simpl. lia. Qed.

Lemma conn_typed_mono n n' x : n <= n' -> conn_typed n x -> conn_typed n' x.
Proof. unfold conn_typed. intros ? (? & ?). split; [lia|done]. Qed.

Lemma conn_typed_set_active n b x : conn_typed n x -> conn_typed n (set_active b x).
Proof. done. Qed.

(** The slot [add_connection] writes. *)
Lemma conn_typed_new n s a p t b :
  1 <= n -> peer_typed a p s -> conn_typed (n + 1) (mkConnection n s a p t b).
Proof. intros Hn (? & ? & ?). split_and!; simpl; try done; lia. Qed.

(** The table after [close_all_connections] keeps its typing. *)
Lemma typed_close_all n l :
  Forall (conn_typed n) l -> Forall (conn_typed n) ((fun c => (close_slot c).1) <$> l).
Proof.
  intros H. apply Forall_fmap. eapply Forall_impl; [exact H|]. intros x Hx. simpl.
  unfold close_slot. by destruct (active x).
Qed.

Lemma typed_insert n l i x :
  Forall (conn_typed n) l -> conn_typed n x -> Forall (conn_typed n) (<[i := x]> l).
Proof. intros. by apply Forall_insert. Qed.

Lemma typed_lookup n l i x : Forall (conn_typed n) l -> l !! i = Some x -> conn_typed n x.
Proof. rewrite Forall_lookup. eauto. Qed.

Lemma typed_mono n l : Forall (conn_typed n) l -> Forall (conn_typed (n + 1)) l.
Proof. intros H. eapply Forall_impl; [exact H|]. intros x. apply conn_typed_mono. lia. Qed.

Lemma init_type_inv a p : type_inv (init a p).
Proof.
  split; simpl; [lia| |done|done]. apply Forall_replicate.
  unfold conn_typed, fd_range, port_range, INT_MAX. simpl.
  split_and!; try lia. apply ip_fits_empty.
Qed.

Create HintDb typing.
#[export] Hint Resolve sockaddr_ok_fits sockaddr_ok_port valid_port_range valid_ip_ip_fits
  fd_range_intro typed_close_all conn_typed_set_active typed_mono peer_typed_intro
  typed_insert typed_lookup conn_typed_new : typing.

Lemma exec_type_inv c l c' : type_inv c -> exec c l = Some c' -> type_inv c'.
Proof.
  intros [Hn Ht Hc Ha] H. destruct c as [st run m rs cp ap lip lp tr]; simpl in *.
  destruct l; exec_split H;
    repeat match goal with
    | Hf : list_find _ _ = Some (_, _) |- _ => apply list_find_Some in Hf as [Hf _]
    end;
    split; simpl; try lia; unfold peer_typed in *; destruct_and?; split_and?;
    eauto with typing.
Qed.

Lemma reachable_type_inv a p c : reachable a p c -> type_inv c.
Proof. induction 1; [apply init_type_inv|by eapply exec_type_inv]. Qed.

(** ** The properties *)

(** The accept thread records the peer's port: when [accept]
    returns a peer at a 16-bit port, whose [sockaddr_in] carries the
    port in network byte order, the accept step hands to
    [add_connection] exactly that port ([ntohs] undoes the [htons] of
    the sender's stack) and the address [inet_ntop] printed. *)
Theorem accept_peer_port c s ip4 port c' :
  port_range port -> exec c (LAccept (Some s) (peer_of ip4 port)) = Some c' ->
  acc c' = AAdd s (inet_ntop4 ip4) port.
Proof.
  intros Hp H. simpl in H. destruct (acc c); try discriminate.
  destruct (sockaddr_ok _); [|discriminate]. unfold open_sock in H.
  destruct (_ && _ && _); simplify_eq/=. by rewrite (proj1 (ntohs_htons port Hp)).
Qed.

(** (C35) The table is well typed in every interleaving: as long as
    [next_connection_id] has not gone past [INT_MAX], every slot of the
    table holds a C [int] id, a descriptor, an address that fits
    [char ip[INET_ADDRSTRLEN]] with its NUL (so the [strcpy] of
    [add_connection] never overflows) and a 16-bit port, whether the
    peer was dialled by [cmd_connect] (checked by [is_valid_ip] and
    [is_valid_port]) or accepted and converted by [inet_ntop] and
    [ntohs]. *)
Theorem reachable_typed a p c :
  reachable a p c -> next_connection_id (reg c) <= INT_MAX ->
  Forall (fun x => int_range (id x) /\ fd_range (socket x) /\ ip_fits (ip x) /\ port_range (port x))
    (connections (reg c)).
Proof.
  intros Hr Hmax. destruct (reachable_type_inv a p c Hr) as [_ Ht _ _].
  eapply Forall_impl; [exact Ht|]. intros x (Hid & Hs & Hip & Hp).
  unfold int_range, INT_MIN. split_and!; [lia|lia|done..].
Qed.

Lemma reachable_typed_witness :
  reachable "192.168.1.10" 8080
    (default (init "192.168.1.10" 8080) (exec_all (init "192.168.1.10" 8080) sched_duplicate)) /\
  next_connection_id (reg (default (init "192.168.1.10" 8080)
                            (exec_all (init "192.168.1.10" 8080) sched_duplicate))) <= INT_MAX /\
  Forall (fun x => int_range (id x) /\ fd_range (socket x) /\ ip_fits (ip x) /\ port_range (port x))
    (connections (reg (default (init "192.168.1.10" 8080)
                         (exec_all (init "192.168.1.10" 8080) sched_duplicate)))).
Proof.
  assert (H : reachable "192.168.1.10" 8080
    (default (init "192.168.1.10" 8080) (exec_all (init "192.168.1.10" 8080) sched_duplicate))).
  { apply (exec_all_reachable _ _ (init "192.168.1.10" 8080) sched_duplicate); [apply reach_init|].
    destruct (exec_all _ _) eqn:E; [reflexivity|vm_compute in E; discriminate]. }
  assert (Hn : next_connection_id (reg (default (init "192.168.1.10" 8080)
                 (exec_all (init "192.168.1.10" 8080) sched_duplicate))) <= INT_MAX).
  { vm_compute. discriminate. }
  split; [exact H|]. split; [exact Hn|]. exact (reachable_typed _ _ _ H Hn).
Defined.

Lemma accept_peer_port_witness :
  acc (default (init "192.168.1.10" 8080)
         (exec_all (init "192.168.1.10" 8080) [LAcceptTop; LAccept (Some 7) (peer_of [10; 0; 0; 3] 51000)]))
  = AAdd 7 (inet_ntop4 [10; 0; 0; 3]) 51000.
Proof.
  apply (accept_peer_port
           (default (init "192.168.1.10" 8080) (exec_all (init "192.168.1.10" 8080) [LAcceptTop]))
           7 [10; 0; 0; 3] 51000); [unfold port_range; lia|vm_compute; reflexivity].
Defined.

End Addresses.
