(* ===== verification/Main.v ===== *)
(** * Start-up and the command loop (src/main.c, src/socket.c)

    [main] checks its argument, converts the port with [atoi], fills
    [local_ip] ([get_local_ip]), opens the listening socket
    ([setup_listening_socket], which calls [create_socket]) and starts
    the accept thread; then it reads standard input with [fgets] into a
    [char[MAX_COMMAND_LENGTH]], cuts the line at its newline and hands
    it to [process_command] while [running] is set.

    The operating system is an argument: the interface list of
    [getifaddrs], the answers of [socket], [setsockopt], [bind],
    [listen] and [pthread_create] ([boot_os]), the bytes of standard
    input and, for each command, the answers the handler's calls get
    ([answers]).  [main_start] ends in [Exited code] or in the process
    state [Command.proc] the command loop starts from; [main_loop] runs
    the loop for a given number of iterations, since the C loop is not
    bounded. *)

From S2P Require Import Prelude Validate Registry Command Text.
From Stdlib Require Import Ascii.
Import Registry Validate Command Text.

Module Main.

(** ** [get_local_ip] (the POSIX branch) *)

Definition AF_INET : Z := 2.

(** An entry of the list [getifaddrs] returns: its name, the family of
    its address ([None] when [ifa_addr] is [NULL]) and the numeric host
    [getnameinfo] writes for it. *)
Record ifaddr := mkIfaddr { ifa_name : string; ifa_family : option Z; ifa_host : string }.

(** The [for] loop over the interfaces: the first [AF_INET] interface
    not named [lo] is copied into [local_ip]; otherwise [local_ip]
    keeps its value [cur]. *)
Fixpoint scan_ifaddrs (l : list ifaddr) (cur : string) : string :=
  match l with
  | [] => cur
  | ifa :: l' =>
      match ifa_family ifa with
      | None => scan_ifaddrs l' cur
      | Some fam =>
          if (fam =? AF_INET) && negb (bool_decide (ifa_name ifa = "lo"))
          then ifa_host ifa
          else scan_ifaddrs l' cur
      end
  end.

(** [ifs] is [None] when [getifaddrs] fails. *)
Definition get_local_ip (ifs : option (list ifaddr)) (cur : string) : string :=
  match ifs with
  | None => "127.0.0.1"
  | Some l => scan_ifaddrs l cur
  end.

(** ** [setup_listening_socket] *)

(** The answers of the operating system during start-up. *)
Record boot_os := mkBootOs {
  b_ifaddrs : option (list ifaddr);
  b_socket : option Z;
  b_reuse : bool;
  b_bind : bool;
  b_listen : bool;
  b_thread : bool          (** [pthread_create] of the accept thread *)
}.

(** [setup_listening_socket(port)] from the globals [listen_socket] and
    [listen_port]: the return value, the new globals and the calls. *)
Definition setup_listening_socket (port : Z) (os : boot_os) (ls lp : Z)
    : Z * Z * Z * list io :=
  match create_socket (b_socket os) (b_reuse os) with
  | (None, e) => (-1, INVALID_SOCKET, lp, e)
  | (Some s, e) =>
      if negb (b_bind os) then (-1, s, lp, e ++ [Bind s port; CloseSock s])
      else if negb (b_listen os) then (-1, s, lp, e ++ [Bind s port; Listen s BACKLOG; CloseSock s])
      else (0, s, port, e ++ [Bind s port; Listen s BACKLOG])
  end.

(** ** [main] up to the command loop *)

Inductive boot :=
  | Exited (code : Z) (calls : list io)
  | Started (P : proc) (calls : list io).

(** [argv] is the argument vector, program name first.  The globals
    start as C zero-initialises them: [listen_socket = INVALID_SOCKET],
    [listen_port = 0], [local_ip] the empty string, [running = 1],
    [next_connection_id = 1]. *)
Definition main_start (argv : list (list ascii)) (os : boot_os) : boot :=
  if negb (length argv =? 2)%nat then Exited 1 []
  else
    let port := atoi (default [] (argv !! 1%nat)) in
    if negb (is_valid_port port) then Exited 1 []
    else
      let lip := get_local_ip (b_ifaddrs os) "" in
      match setup_listening_socket port os INVALID_SOCKET 0 with
      | (rc, ls, lp, e) =>
          if rc <? 0 then Exited 1 e
          else if negb (b_thread os) then Exited 1 e
          else Started (mkProc initial_state lip lp ls true) e
      end.

(** ** The command loop *)

(** [fgets(buf, n, stdin)]: [None] ([NULL]) at end of input, else at
    most [n - 1] characters, up to and including a newline. *)
Fixpoint fgets_read (k : nat) (input : list ascii) : list ascii * list ascii :=
  match k, input with
  | O, _ => ([], input)
  | _, [] => ([], [])
  | S k', ch :: rest =>
      if bool_decide (ch = newline) then ([ch], rest)
      else let '(l, r) := fgets_read k' rest in (ch :: l, r)
  end.

Definition fgets (n : nat) (input : list ascii) : option (list ascii * list ascii) :=
  match input with
  | [] => None
  | _ => Some (fgets_read (n - 1) input)
  end.

(** [command[strcspn(command, "\n")] = '\0']. *)
Definition cut_newline (l : list ascii) : list ascii := (read_line l).1.

(** What the calls of one handler get from the operating system. *)
Record answers := mkAnswers { a_dial : dial; a_spawn : option Z; a_sent : Z }.

Definition no_answers : answers := mkAnswers (mkDial None false false) None (-1).

(** The handler [process_command] calls, run on the process state.
    [help], [myip], [myport] and the usage and unknown-command messages
    only print. *)
Definition exec_action (P : proc) (a : action) (ans : answers) : proc * list io * list reply :=
  match a with
  | AConnect ip port => cmd_connect P ip port (a_dial ans) (a_spawn ans)
  | AList => (P, [], cmd_list P)
  | ATerminate k => cmd_terminate P k
  | ASend k msg => cmd_send P k msg (a_sent ans)
  | AExit => cmd_exit P
  | _ => (P, [], [])
  end.

Definition MAX_COMMAND_LENGTH_nat : nat := Z.to_nat MAX_COMMAND_LENGTH.

(** [fuel] iterations of [while (running) { ... }]; [ans] gives the
    answers for the successive commands.  Returns the state, the calls,
    the lines printed, the input not read yet and whether the loop was
    left ([running] found cleared) within the [fuel] iterations. *)
Fixpoint main_loop (fuel : nat) (P : proc) (input : list ascii) (ans : list answers)
    : proc * list io * list reply * list ascii * bool :=
  match fuel with
  | O => (P, [], [], input, false)
  | S f =>
      if negb (running P) then (P, [], [], input, true)
      else
        match fgets MAX_COMMAND_LENGTH_nat input with
        | None => main_loop f P input ans
        | Some (line, rest) =>
            let '(P1, io1, r1) :=
              exec_action P (process_command (cut_newline line)) (default no_answers (head ans)) in
            let '(P2, io2, r2, rest', ended) := main_loop f P1 rest (tail ans) in
            (P2, io1 ++ io2, r1 ++ r2, rest', ended)
        end
  end.

(** ** Concrete runs *)

(** A host whose only IPv4 interface is the loopback, on which every
    start-up call succeeds; the program started as [p2p 8080]. *)
Definition os_loopback : boot_os :=
  mkBootOs (Some [mkIfaddr "lo" (Some AF_INET) "127.0.0.1"; mkIfaddr "eth0" None ""])
           (Some 3) true true true true.

Definition argv_8080 : list (list ascii) := [kw "p2p"; kw "8080"].

Definition booted : proc :=
  match main_start argv_8080 os_loopback with Started P _ => P | Exited _ _ => proc0 end.

Definition os_nobind : boot_os :=
  mkBootOs (Some []) (Some 3) true false true true.

(** A [send] line of 255 characters (the id and 248 letters) followed by
    [exit] on the same input line. *)
Definition long_send : list ascii := kw "send 1 " ++ repeat (ascii_of_nat 97) 248.

(** ** Lemmas *)

Lemma read_line_app line r :
  Forall (fun ch => ch <> newline) line -> (forall ch, head r = Some ch -> ch = newline) ->
  read_line (line ++ r) = (line, r).
Proof.
  intros Hl Hr. induction Hl as [|ch line Hch _ IH]; simpl.
  - destruct r as [|ch r]; [done|]. simpl. rewrite (Hr ch eq_refl), bool_decide_true by done.
    done.
  - rewrite bool_decide_false by done. by rewrite IH.
Qed.

Lemma fgets_read_line k line rest :
  Forall (fun ch => ch <> newline) line -> (length line < k)%nat ->
  fgets_read k (line ++ newline :: rest) = (line ++ [newline], rest).
Proof.
  intros Hl. revert k. induction Hl as [|ch line Hch _ IH]; intros [|k] Hk; simpl in *; try lia.
  - done.
  - rewrite bool_decide_false by done. rewrite IH by lia. done.
Qed.

Lemma fgets_read_full line rest :
  Forall (fun ch => ch <> newline) line -> fgets_read (length line) (line ++ rest) = (line, rest).
Proof.
  induction 1 as [|ch line Hch _ IH]; simpl; [by destruct rest|].
  rewrite bool_decide_false by done. by rewrite IH.
Qed.

Lemma cut_newline_line line r :
  Forall (fun ch => ch <> newline) line -> (forall ch, head r = Some ch -> ch = newline) ->
  cut_newline (line ++ r) = line.
Proof. intros. unfold cut_newline. by rewrite read_line_app. Qed.

(** One iteration of the loop that reads a line [l] and leaves [rest]. *)
Lemma main_loop_step f P l rest a ans :
  running P = true -> fgets MAX_COMMAND_LENGTH_nat (l ++ rest) = Some (l, rest) ->
  main_loop (S f) P (l ++ rest) (a :: ans) =
  let '(P1, io1, r1) := exec_action P (process_command (cut_newline l)) a in
  let '(P2, io2, r2, rest', ended) := main_loop f P1 rest ans in
  (P2, io1 ++ io2, r1 ++ r2, rest', ended).
Proof. intros Hr Hf. simpl. by rewrite Hr, Hf. Qed.

Lemma fgets_nonempty n input :
  input <> [] -> fgets n input = Some (fgets_read (n - 1) input).
Proof. by destruct input. Qed.

Lemma fgets_line line rest :
  Forall (fun ch => ch <> newline) line -> (Z.of_nat (length line) < MAX_COMMAND_LENGTH - 1) ->
  fgets MAX_COMMAND_LENGTH_nat ((line ++ [newline]) ++ rest) = Some (line ++ [newline], rest).
Proof.
  intros Hl Hlen. rewrite <- app_assoc. rewrite fgets_nonempty by (by destruct line).
  change ([newline] ++ rest) with (newline :: rest).
  unfold MAX_COMMAND_LENGTH_nat, MAX_COMMAND_LENGTH in *. change (Z.to_nat 256 - 1)%nat with 255%nat.
  rewrite fgets_read_line; [done|done|lia].
Qed.

Lemma fgets_long line rest :
  Forall (fun ch => ch <> newline) line -> Z.of_nat (length line) = MAX_COMMAND_LENGTH - 1 ->
  fgets MAX_COMMAND_LENGTH_nat (line ++ rest) = Some (line, rest).
Proof.
  intros Hl Hlen. rewrite fgets_nonempty by (destruct line; [simpl in Hlen; unfold MAX_COMMAND_LENGTH in Hlen; lia|done]).
  unfold MAX_COMMAND_LENGTH_nat, MAX_COMMAND_LENGTH in *.
  replace (Z.to_nat 256 - 1)%nat with (length line) by lia. by rewrite fgets_read_full.
Qed.

Lemma scan_ifaddrs_none l cur :
  Forall (fun i => ifa_family i <> Some AF_INET \/ ifa_name i = "lo") l -> scan_ifaddrs l cur = cur.
Proof.
  induction 1 as [|i l Hi _ IH]; simpl; [done|].
  destruct (ifa_family i) as [fam|] eqn:E; [|done].
  destruct (fam =? AF_INET) eqn:Ef; simpl; [|done].
  apply Z.eqb_eq in Ef. subst fam. destruct Hi as [Hi|Hi]; [done|]. by rewrite bool_decide_true.
Qed.

Lemma is_valid_ip_empty : is_valid_ip "" = false.
Proof. reflexivity. Qed.

(** ** Properties of start-up and of the command loop *)

(** (C28) A successful start-up: [main] reaches its command loop only
    with two arguments, a port that [atoi] converts to a valid port, and
    a listening socket that was created, bound and listening; the loop
    starts with an empty, well-formed table, the id counter at 1,
    [running] set and the globals [listen_port], [listen_socket] and
    [local_ip] filled in. *)
Theorem main_start_ok argv os P calls :
  main_start argv os = Started P calls ->
  exists a s, argv !! 1%nat = Some a /\ length argv = 2%nat /\ is_valid_port (atoi a) = true /\
    b_socket os = Some s /\ b_reuse os = true /\ b_bind os = true /\ b_listen os = true /\
    b_thread os = true /\
    P = mkProc initial_state (get_local_ip (b_ifaddrs os) "") (atoi a) s true /\
    calls = [Bind s (atoi a); Listen s BACKLOG] /\ wf (reg P).
Proof.
  unfold main_start. destruct (length argv =? 2)%nat eqn:Hl; [|done]. apply Nat.eqb_eq in Hl.
  destruct (argv !! 1%nat) as [a|] eqn:Ha; [|apply lookup_ge_None in Ha; lia]. simpl.
  destruct (is_valid_port (atoi a)) eqn:Hp; [|done]. simpl.
  unfold setup_listening_socket, create_socket.
  destruct os as [ifs [s|] [] [] [] []]; simpl; intros H; try discriminate.
  injection H as <- <-. exists a, s. split_and!; try done. apply initial_wf.
Qed.

(** (C29) Failed start-ups: every way [main] can stop before its loop
    returns 1; when the listening socket was created, the failure paths
    of [setup_listening_socket] close it as their last call, and only a
    failed [pthread_create] leaves it open for the exit of the process. *)
Theorem main_start_fail argv os code calls :
  main_start argv os = Exited code calls ->
  code = 1 /\
  (calls = [] \/
   exists s, b_socket os = Some s /\
     (last calls = Some (CloseSock s) \/
      (b_thread os = false /\ exists p, calls = [Bind s p; Listen s BACKLOG]))).
Proof.
  unfold main_start. destruct (length argv =? 2)%nat; [|intros [= <- <-]; auto].
  simpl. destruct (is_valid_port _); [|intros [= <- <-]; auto]. simpl.
  unfold setup_listening_socket, create_socket.
  destruct os as [ifs [s|] [] [] [] []]; simpl; intros H; try discriminate;
    injection H as <- <-; split; try done; eauto 10.
Qed.

(** (C30) The self-connection check needs a network interface:
    [get_local_ip] copies only the address of an [AF_INET] interface
    not named [lo], so on a host whose only IPv4 interface is the
    loopback [local_ip] stays empty, and [cmd_connect] then never
    answers that the operator tries to connect to himself, whatever
    address and port it is given. *)
Theorem loopback_only_no_self_check argv os P calls ifs ip port d spawn :
  main_start argv os = Started P calls -> b_ifaddrs os = Some ifs ->
  Forall (fun i => ifa_family i <> Some AF_INET \/ ifa_name i = "lo") ifs ->
  (cmd_connect P ip port d spawn).2 <> [ErrSelf].
Proof.
  intros Hs Hi Hf. destruct (main_start_ok _ _ _ _ Hs) as (a & s & _ & _ & _ & _ & _ & _ & _ & _ & -> & _).
  rewrite Hi. simpl. rewrite scan_ifaddrs_none by done. unfold cmd_connect. simpl.
  destruct (is_valid_ip ip) eqn:Hip; [|done]. simpl.
  destruct (is_valid_port port); [|done]. simpl.
  rewrite bool_decide_false by (intros ->; by rewrite is_valid_ip_empty in Hip). simpl.
  repeat case_match; done.
Qed.

(** (C31) End of input is not handled: once [fgets] returns [NULL]
    (standard input closed), every iteration of the command loop reads
    nothing and changes nothing, and [running] stays set: however many
    iterations are run, the loop is never left, so it spins for ever
    instead of ending the program. *)
Theorem eof_busy_loop fuel P ans :
  running P = true -> main_loop fuel P [] ans = (P, [], [], [], false).
Proof. intros Hr. induction fuel as [|f IH]; simpl; [done|]. by rewrite Hr. Qed.

(** A line shorter than the buffer is one command: when standard
    input starts with a line of fewer than [MAX_COMMAND_LENGTH - 1]
    characters and its newline, the loop runs [process_command] on the
    line without its newline, with the next answers, and goes on with
    the rest of the input. *)
Theorem main_loop_line f P line rest a ans :
  running P = true -> Forall (fun ch => ch <> newline) line ->
  Z.of_nat (length line) < MAX_COMMAND_LENGTH - 1 ->
  main_loop (S f) P ((line ++ [newline]) ++ rest) (a :: ans) =
  let '(P1, io1, r1) := exec_action P (process_command line) a in
  let '(P2, io2, r2, rest', ended) := main_loop f P1 rest ans in
  (P2, io1 ++ io2, r1 ++ r2, rest', ended).
Proof.
  intros Hr Hl Hlen. rewrite main_loop_step by (done || by apply fgets_line).
  rewrite cut_newline_line by (done || by intros ? [= <-]). done.
Qed.

(** (C33) A longer line is cut in pieces that run as commands: when a
    line has [MAX_COMMAND_LENGTH - 1] characters or more, [fgets]
    returns its first [MAX_COMMAND_LENGTH - 1] characters as one
    command and the rest of the line is read by the next iteration as
    the next command.  In the witness the text [exit] at the end of an
    over-long [send] line shuts the program down. *)
Theorem long_line_split f P line rest a ans :
  running P = true -> Forall (fun ch => ch <> newline) line ->
  Z.of_nat (length line) = MAX_COMMAND_LENGTH - 1 ->
  main_loop (S f) P (line ++ rest) (a :: ans) =
  let '(P1, io1, r1) := exec_action P (process_command line) a in
  let '(P2, io2, r2, rest', ended) := main_loop f P1 rest ans in
  (P2, io1 ++ io2, r1 ++ r2, rest', ended).
Proof.
  intros Hr Hl Hlen. rewrite main_loop_step by (done || by apply fgets_long).
  assert (Hc : cut_newline line = line).
  { pose proof (cut_newline_line line [] Hl ltac:(by intros ?)) as H. by rewrite app_nil_r in H. }
  by rewrite Hc.
Qed.

(** ** Witnesses *)

Lemma booted_start :
  main_start argv_8080 os_loopback = Started booted [Bind 3 8080; Listen 3 BACKLOG].
Proof. vm_compute. reflexivity. Qed.

Lemma main_start_ok_witness :
  exists a s, argv_8080 !! 1%nat = Some a /\ length argv_8080 = 2%nat /\
    is_valid_port (atoi a) = true /\ b_socket os_loopback = Some s /\
    b_reuse os_loopback = true /\ b_bind os_loopback = true /\ b_listen os_loopback = true /\
    b_thread os_loopback = true /\
    booted = mkProc initial_state (get_local_ip (b_ifaddrs os_loopback) "") (atoi a) s true /\
    [Bind 3 8080; Listen 3 BACKLOG] = [Bind s (atoi a); Listen s BACKLOG] /\ wf (reg booted).
Proof. exact (main_start_ok _ _ _ _ booted_start). Defined.

Lemma main_start_fail_witness :
  1 = 1 /\
  ([Bind 3 8080; CloseSock 3] = [] \/
   exists s, b_socket os_nobind = Some s /\
     (last [Bind 3 8080; CloseSock 3] = Some (CloseSock s) \/
      (b_thread os_nobind = false /\ exists p, [Bind 3 8080; CloseSock 3] = [Bind s p; Listen s BACKLOG]))).
Proof. apply (main_start_fail argv_8080 os_nobind). vm_compute. reflexivity. Defined.

Lemma loopback_only_no_self_check_witness :
  (cmd_connect booted "127.0.0.1" 8080 (mkDial (Some 4) true true) (Some 9)).2 <> [ErrSelf].
Proof.
  apply (loopback_only_no_self_check argv_8080 os_loopback booted [Bind 3 8080; Listen 3 BACKLOG]
           [mkIfaddr "lo" (Some AF_INET) "127.0.0.1"; mkIfaddr "eth0" None ""]).
  - exact booted_start.
  - reflexivity.
  - constructor; [right; reflexivity|constructor; [left; discriminate|constructor]].
Defined.

Lemma eof_busy_loop_witness : main_loop 10 booted [] [] = (booted, [], [], [], false).
Proof. apply eof_busy_loop. vm_compute. reflexivity. Defined.

Lemma main_loop_line_witness :
  main_loop 1 booted ((kw "list" ++ [newline]) ++ []) [no_answers] =
  let '(P1, io1, r1) := exec_action booted (process_command (kw "list")) no_answers in
  let '(P2, io2, r2, rest', ended) := main_loop 0 P1 [] [] in
  (P2, io1 ++ io2, r1 ++ r2, rest', ended).
Proof.
  apply main_loop_line; [vm_compute; reflexivity| |vm_compute; reflexivity].
  repeat constructor; vm_compute; discriminate.
Defined.

Lemma long_line_split_witness :
  main_loop 2 booted (long_send ++ kw "exit" ++ [newline]) [no_answers; no_answers] =
  (let '(P1, io1, r1) := exec_action booted (process_command long_send) no_answers in
   let '(P2, io2, r2, rest', ended) := main_loop 1 P1 (kw "exit" ++ [newline]) [no_answers] in
   (P2, io1 ++ io2, r1 ++ r2, rest', ended)) /\
  running (main_loop 2 booted (long_send ++ kw "exit" ++ [newline]) [no_answers; no_answers]).1.1.1.1
    = false.
Proof.
  split; [|vm_compute; reflexivity].
  apply long_line_split; [vm_compute; reflexivity| |vm_compute; reflexivity].
  unfold long_send. repeat constructor; vm_compute; discriminate.
Defined.

End Main.
